(** * NFT lifecycle reconciliation: staking, burning and the optimistic view

    A shallow embedding of the staking service
    (ImprovedOnchainStakingService), the hybrid burn service
    (EnhancedHybridBurnService) and the optimistic part of the NFT context
    (NFTContext), with the properties the specification states about them
    and further properties of the code itself.

    Conventions of the embedding:
    - a JavaScript string is a [string]; case mapping acts on the ASCII
      letters and leaves every other code unit alone, and the white space
      of [trim] is that of the ASCII range;
    - a thrown value is an [Error] object, kept as its [message];
    - every awaited call to the chain node, the wallet or the database is an
      oracle of the environment, indexed by the number of calls answered so
      far, so that the outside world may answer differently each time;
    - building a request ([encodeABI], the parameters of a transaction)
      does not throw, and what a send resolves to is kept as its transaction
      hash;
    - console output and toasts are left out. *)

From Stdlib Require Import String Ascii List ZArith Bool Lia Arith DecimalString.
Import ListNotations.
Open Scope string_scope.

(** ** JavaScript string primitives *)

Module JS.

Definition isUpperChar (c : ascii) : bool :=
  let n := nat_of_ascii c in (65 <=? n)%nat && (n <=? 90)%nat.

Definition isLowerChar (c : ascii) : bool :=
  let n := nat_of_ascii c in (97 <=? n)%nat && (n <=? 122)%nat.

Definition toLowerChar (c : ascii) : ascii :=
  if isUpperChar c then ascii_of_nat (nat_of_ascii c + 32) else c.

Definition toUpperChar (c : ascii) : ascii :=
  if isLowerChar c then ascii_of_nat (nat_of_ascii c - 32) else c.

Fixpoint toLowerCase (s : string) : string :=
  match s with
  | EmptyString => EmptyString
  | String c t => String (toLowerChar c) (toLowerCase t)
  end.

Fixpoint toUpperCase (s : string) : string :=
  match s with
  | EmptyString => EmptyString
  | String c t => String (toUpperChar c) (toUpperCase t)
  end.

(** White space removed by [trim]: tab, line feed, vertical tab, form feed,
    carriage return and space. *)
Definition isSpace (c : ascii) : bool :=
  let n := nat_of_ascii c in
  ((9 <=? n)%nat && (n <=? 13)%nat) || (n =? 32)%nat.

Fixpoint trimStart (s : string) : string :=
  match s with
  | EmptyString => EmptyString
  | String c t => if isSpace c then trimStart t else s
  end.

(** [trimEnd] drops the trailing white space: a character is kept when
    something other than white space follows it or it is none itself. *)
Fixpoint trimEnd (s : string) : string :=
  match s with
  | EmptyString => EmptyString
  | String c t =>
      match trimEnd t with
      | EmptyString => if isSpace c then EmptyString else String c EmptyString
      | t' => String c t'
      end
  end.

Definition trim (s : string) : string := trimEnd (trimStart s).

(** [s.charAt(0)]: the first character as a string, empty on the empty
    string. *)
Definition charAt0 (s : string) : string :=
  match s with
  | EmptyString => EmptyString
  | String c _ => String c EmptyString
  end.

(** [s.slice(1)] *)
Definition slice1 (s : string) : string :=
  match s with
  | EmptyString => EmptyString
  | String _ t => t
  end.

(** [hay.includes(needle)] *)
Fixpoint includes (needle hay : string) : bool :=
  String.prefix needle hay ||
  match hay with
  | EmptyString => false
  | String _ t => includes needle t
  end.

(** The strings of the embedding stand for ASCII text: on a string all of
    whose codes are below 128 the case mappings and [trim] above are those
    of JavaScript. *)
Fixpoint isAscii (s : string) : bool :=
  match s with
  | EmptyString => true
  | String c t => (nat_of_ascii c <? 128)%nat && isAscii t
  end.


(** Truthiness of a string: the empty string is falsy. *)
Definition truthy (s : string) : bool :=
  match s with EmptyString => false | _ => true end.

(** [a || b] on strings. *)
Definition orElse (a b : string) : string := if truthy a then a else b.

End JS.

(** Template literal of a number: its decimal rendering. *)
Definition showZ (n : Z) : string := NilZero.string_of_int (Z.to_int n).

(** ** Effects: state, exceptions and awaited calls *)

Module Eff.

(** What running a piece of asynchronous code ends in: a value, a thrown
    [Error] (its message), or a loop of the model that ran out of fuel. *)
Inductive Outcome (A : Type) : Type :=
| Ret (a : A)
| Throw (message : string)
| OutOfFuel.
Arguments Ret {A} a.
Arguments Throw {A} message.
Arguments OutOfFuel {A}.

(** What an awaited external call answers: a value or a rejection. *)
Inductive Reply (A : Type) : Type :=
| Ok (a : A)
| Err (message : string).
Arguments Ok {A} a.
Arguments Err {A} message.

(** A block of a function body either returns from the function or falls
    through with the value of its local variable. *)
Inductive Flow (R X : Type) : Type :=
| Return (r : R)
| Next (x : X).
Arguments Return {R X} r.
Arguments Next {R X} x.

Definition M (S A : Type) : Type := S -> Outcome A * S.

Definition ret {S A} (a : A) : M S A := fun s => (Ret a, s).

Definition throw {S A} (message : string) : M S A := fun s => (Throw message, s).

Definition outOfFuel {S A} : M S A := fun s => (OutOfFuel, s).

Definition bind {S A B} (m : M S A) (k : A -> M S B) : M S B :=
  fun s =>
    match m s with
    | (Ret a, s') => k a s'
    | (Throw e, s') => (Throw e, s')
    | (OutOfFuel, s') => (OutOfFuel, s')
    end.

(** [try { m } catch (e) { handler e }] *)
Definition tryCatch {S A} (m : M S A) (handler : string -> M S A) : M S A :=
  fun s =>
    match m s with
    | (Throw e, s') => handler e s'
    | r => r
    end.

Definition get {S} : M S S := fun s => (Ret s, s).

Definition modify {S} (f : S -> S) : M S unit := fun s => (Ret tt, f s).

Definition liftReply {S A} (r : Reply A) : M S A :=
  match r with
  | Ok a => ret a
  | Err e => throw e
  end.

End Eff.

Import Eff.

Declare Scope eff_scope.
Delimit Scope eff_scope with eff.
Notation "x <- c ;; k" := (bind c (fun x => k))
  (at level 61, c at next level, right associativity) : eff_scope.
Notation "c ;;; k" := (bind c (fun _ => k))
  (at level 61, right associativity) : eff_scope.
Open Scope eff_scope.

(** ** Staking service: rarity normalisation *)

Module Staking.

(** [normalizeRarity(rarity: string | null)]; [None] is [null]. *)
Definition normalizeRarity (rarity : option string) : string :=
  match rarity with
  | None => "Common"
  | Some rarity =>
      if negb (JS.truthy rarity) then "Common"
      else
        let normalized := JS.trim (JS.toLowerCase rarity) in
        if normalized =? "common" then "Common"
        else if normalized =? "rare" then "Rare"
        else if normalized =? "legendary" then "Legendary"
        else if normalized =? "platinum" then "Platinum"
        else if normalized =? "silver" then "Silver"
        else if normalized =? "gold" then "Gold"
        else if normalized =? "epic" then "Legendary"
        else if normalized =? "ultra rare" then "Legendary"
        else if normalized =? "super rare" then "Rare"
        else JS.toUpperCase (JS.charAt0 rarity) ++ JS.toLowerCase (JS.slice1 rarity)
  end.





(** *** Constants, the outside world and the service state *)

(** [CONTRACT_ADDRESSES.STAKING_CONTRACT] (abis/index.ts, default value). *)
Definition STAKING_CONTRACT : string := "0x1F2Dbf590b1c4C96c1ddb4FF55002Dbb33DA294e".

Definition BLOCK_EXPLORER : string := "https://amoy.polygonscan.com/".

(** A token id reaches the contracts as the string cut out of the NFT id or
    as the number [parseInt] made of it. *)
Inductive TokenId : Type :=
| TokStr (s : string)
| TokNum (n : Z).

(** A transaction of a block fetched with its transactions expanded. *)
Record TxInfo : Type := mkTxInfo {
  tx_from : option string;
  tx_to : option string;
  tx_hash : string
}.

Record Block : Type := mkBlock {
  transactions : option (list TxInfo)
}.

(** [receipt.status] is a boolean, a number or a hex string, depending on
    the provider. *)
Inductive ReceiptStatus : Type :=
| StatusBool (b : bool)
| StatusNum (n : Z)
| StatusStr (s : string).

Record Receipt : Type := mkReceipt {
  status : ReceiptStatus;
  transactionHash : string
}.

(** [getStakeInfo(owner).call()]: the named and the positional outputs. *)
Record RawStakeInfo : Type := mkRawStakeInfo {
  _tokensStaked : option (list Z);
  at0 : option (list Z);
  _rewards : option Z;
  at1 : option Z
}.

(** The chain node, the wallet and the pure web3 helpers.  The first
    argument of an oracle is the number of calls answered before it. *)
Record Chain : Type := mkChain {
  initializeContracts : nat -> Reply unit;
  ownerOf : nat -> TokenId -> Reply string;
  isApprovedForAll : nat -> string -> string -> Reply bool;
  getApproved : nat -> TokenId -> Reply string;
  getGasPrice : nat -> Reply Z;
  netGetId : nat -> Reply Z;
  sendSetApprovalForAll : nat -> string -> Reply string;
  sendTransaction : nat -> string -> Z -> Reply string;
  sendStake : nat -> string -> Z -> Reply string;
  getBlockNumber : nat -> Reply Z;
  getBlock : nat -> Z -> Reply (option Block);
  getTransactionReceipt : nat -> string -> Reply (option Receipt);
  getTransaction : nat -> string -> Reply unit;
  getStakeInfoCall : nat -> string -> Reply RawStakeInfo;
  toChecksumAddress : string -> Reply string;
  fromWei : Z -> string;
  databaseFault : nat -> option string
}.

(** A request handed to the wallet for signature. *)
Inductive Submission : Type :=
| SetApprovalForAll (from : string)
| RawStake (from : string) (token : Z)
| ContractStake (from : string) (token : Z).

(** A row of the staking ledger. *)
Record StakeRecord : Type := mkStakeRecord {
  nftRef : string;
  walletAddress : string;
  rarity : string;
  dailyReward : Z;
  stakedAt : Z;
  unstakedAt : option Z;
  source : string
}.

Record World : Type := mkWorld {
  tick : nat;                      (* external calls answered so far *)
  clock : Z;                       (* Date.now(), in milliseconds *)
  readOnlyWeb3 : bool;             (* this.readOnlyWeb3 is set *)
  submitted : list Submission;     (* requests made to the wallet, latest first *)
  staked_nfts : list StakeRecord   (* the staking ledger *)
}.

Definition advance (w : World) : World :=
  mkWorld (S (tick w)) (clock w) (readOnlyWeb3 w) (submitted w) (staked_nfts w).

(** An awaited call: the oracle answers for the current tick. *)
Definition ask {A} (oracle : nat -> Reply A) : M World A :=
  fun w =>
    match oracle (tick w) with
    | Ok a => (Ret a, advance w)
    | Err e => (Throw e, advance w)
    end.

(** [await new Promise(resolve => setTimeout(resolve, ms))]; the awaited
    calls themselves take no time in the model. *)
Definition sleep (ms : Z) : M World unit :=
  modify (fun w => mkWorld (tick w) (clock w + ms) (readOnlyWeb3 w)
                           (submitted w) (staked_nfts w)).

(** A write: the request is handed to the wallet, then awaited. *)
Definition submit {A} (request : Submission) (oracle : nat -> Reply A) : M World A :=
  modify (fun w => mkWorld (tick w) (clock w) (readOnlyWeb3 w)
                           (request :: submitted w) (staked_nfts w)) ;;;
  ask oracle.

Section Service.

Variable chain : Chain.

(** *** Reads *)

(** [retryRPCCall(operation, maxRetries = 2)]: one attempt, the error is
    rethrown; [maxRetries] is not used by the body. *)
Definition retryRPCCall {A} (operation : M World A) (maxRetries : nat) : M World A :=
  w <- get ;;
  if negb (readOnlyWeb3 w) then throw "Read-only Web3 instance not initialized"
  else tryCatch operation (fun error => throw error).

(** [getGasPriceWithFallback()]: gas figures only parameterise the request
    that is then submitted and no branch looks at them, so only the calls
    are kept. *)
Definition getGasPriceWithFallback : M World unit :=
  tryCatch
    (_ <- ask (getGasPrice chain) ;; ret tt)
    (fun gasPriceError =>
       tryCatch (_ <- ask (netGetId chain) ;; ret tt) (fun _ => ret tt)).

(** *** Approval *)

(** [performAutomaticApproval(walletAddress)] *)
Definition performAutomaticApproval (walletAddress : string) : M World bool :=
  tryCatch
    (getGasPriceWithFallback ;;;
     tx <- submit (SetApprovalForAll walletAddress)
                  (fun t => sendSetApprovalForAll chain t walletAddress) ;;
     sleep 2000 ;;;
     isApproved <- retryRPCCall
                     (ask (fun t => isApprovedForAll chain t walletAddress STAKING_CONTRACT)) 2 ;;
     if isApproved : bool then ret true else ret false)
    (fun error =>
       if JS.truthy error && (JS.includes "User denied" error || JS.includes "cancelled" error)
       then ret false
       else if JS.truthy error && JS.includes "already approved" error
       then ret true
       else ret false).

(** The connectivity and ownership validation that opens
    [checkAndHandleApproval]. *)
Definition validateConnectivity (walletAddress tokenId : string) : M World unit :=
  tryCatch
    (owner <- retryRPCCall (ask (fun t => ownerOf chain t (TokStr tokenId))) 2 ;;
     if negb (JS.toLowerCase owner =? JS.toLowerCase walletAddress)
     then throw ("Token " ++ tokenId ++ " is owned by " ++ owner
                 ++ ", not by the connected wallet " ++ walletAddress
                 ++ ". Please connect the correct wallet or select an NFT you own.")
     else ret tt)
    (fun error => throw ("Contract validation failed: " ++ error)).

(** The [isApprovedForAll] check of one attempt; on falling through, the
    local [isApprovedForAll]. *)
Definition checkApprovedForAll (walletAddress : string) : M World (Flow bool bool) :=
  tryCatch
    (isApprovedForAll <- retryRPCCall
        (ask (fun t => isApprovedForAll chain t walletAddress STAKING_CONTRACT)) 2 ;;
     if isApprovedForAll : bool then ret (Return true) else ret (Next isApprovedForAll))
    (fun approvalCheckError =>
       if JS.truthy approvalCheckError && JS.includes "Internal JSON-RPC error" approvalCheckError
       then ret (Return true)
       else ret (Next false)).

(** The [getApproved] check of one attempt; on falling through, the local
    [isIndividuallyApproved]. *)
Definition checkIndividualApproval (tokenId : string) : M World (Flow bool bool) :=
  tryCatch
    (approvedAddress <- retryRPCCall (ask (fun t => getApproved chain t (TokStr tokenId))) 2 ;;
     let isIndividuallyApproved :=
       JS.toLowerCase approvedAddress =? JS.toLowerCase STAKING_CONTRACT in
     if isIndividuallyApproved then ret (Return true) else ret (Next isIndividuallyApproved))
    (fun individualApprovalError => ret (Next false)).

Definition maxRetries : nat := 3.

(** One pass through the body of the [while] loop of
    [checkAndHandleApproval]: [Return b] is [return b], [Next tt] goes on to
    the next iteration with [attempt] incremented. *)
Definition approvalAttempt (walletAddress tokenId : string) (attempt : nat)
  : M World (Flow bool unit) :=
  tryCatch
    (blanket <- checkApprovedForAll walletAddress ;;
     match blanket with
     | Return r => ret (Return r)
     | Next isApprovedForAll =>
         individual <- checkIndividualApproval tokenId ;;
         match individual with
         | Return r => ret (Return r)
         | Next isIndividuallyApproved =>
             if negb isApprovedForAll && negb isIndividuallyApproved
             then ret (Return true)
             else
               approvalResult <- performAutomaticApproval walletAddress ;;
               if approvalResult : bool then ret (Return true)
               else
                 (if (S attempt <? maxRetries)%nat then sleep 2000 else ret tt) ;;;
                 ret (Next tt)
         end
     end)
    (fun error =>
       if JS.truthy error && (JS.includes "User denied" error || JS.includes "rejected" error)
       then ret (Return false)
       else if JS.truthy error && JS.includes "already approved" error
       then ret (Return true)
       else
         (if (S attempt <? maxRetries)%nat then sleep 3000 else ret tt) ;;;
         ret (Next tt)).

(** [while (attempt < maxRetries) { ... }] followed by [return false]. *)
Fixpoint approvalLoop (fuel : nat) (walletAddress tokenId : string) (attempt : nat)
  : M World bool :=
  if (attempt <? maxRetries)%nat then
    match fuel with
    | O => outOfFuel
    | S fuel' =>
        flow <- approvalAttempt walletAddress tokenId attempt ;;
        match flow with
        | Return r => ret r
        | Next _ => approvalLoop fuel' walletAddress tokenId (S attempt)
        end
    end
  else ret false.

(** [checkAndHandleApproval(walletAddress, tokenId)] *)
Definition checkAndHandleApproval (walletAddress tokenId : string) : M World bool :=
  validateConnectivity walletAddress tokenId ;;;
  approvalLoop maxRetries walletAddress tokenId 0.

(** *** Staking: the transaction and its confirmation *)

(** The result of a stake write: [{ transactionHash }]. *)
Record StakeTx : Type := mkStakeTx { txHash : string }.

(** The test on [contractError.message] that opens the recovery. *)
Definition isDecodeError (message : string) : bool :=
  JS.truthy message &&
  (JS.includes "Parameter decoding error" message ||
   JS.includes "ABI decoding" message ||
   JS.includes "decode" message).

(** [tx.from?.toLowerCase() === this.userAccount?.toLowerCase() &&
     tx.to?.toLowerCase() === this.stakingContract.options.address?.toLowerCase()];
    a missing [from] or [to] lower-cases to [undefined], which equals no
    string. *)
Definition isStakeTxOf (userAccount : string) (tx : TxInfo) : bool :=
  match tx_from tx, tx_to tx with
  | Some from, Some to =>
      (JS.toLowerCase from =? JS.toLowerCase userAccount) &&
      (JS.toLowerCase to =? JS.toLowerCase STAKING_CONTRACT)
  | _, _ => false
  end.

(** Strategy 1, the [for (blockOffset = 0; blockOffset <= 2; ...)] loop over
    the offsets still to visit: the value of [foundTxHash] at its end. *)
Fixpoint scanRecentBlocks (userAccount : string) (latestBlock : Z) (offsets : list Z)
  : M World (option string) :=
  match offsets with
  | [] => ret None
  | blockOffset :: rest =>
      let blockNumber := (latestBlock - blockOffset)%Z in
      block <- ask (fun t => getBlock chain t blockNumber) ;;
      match block with
      | None => throw "Cannot read properties of null (reading 'transactions')"
      | Some block =>
          match transactions block with
          | None => scanRecentBlocks userAccount latestBlock rest
          | Some txs =>
              match find (isStakeTxOf userAccount) txs with
              | Some recentTx => ret (Some (tx_hash recentTx))
              | None => scanRecentBlocks userAccount latestBlock rest
              end
          end
      end
  end.

(** [!foundTxHash] *)
Definition notFound (foundTxHash : option string) : bool :=
  match foundTxHash with
  | None => true
  | Some h => negb (JS.truthy h)
  end.

(** The recovery that follows a decode error of the contract call
    (the body of [if (contractError.message && ...)]). *)
Definition recoverStakeTransaction (userAccount : string) (numericTokenId : Z)
    (contractError : string) : M World StakeTx :=
  tryCatch
    (latestBlock <- ask (getBlockNumber chain) ;;
     foundTxHash <- scanRecentBlocks userAccount latestBlock [0; 1; 2]%Z ;;
     if notFound foundTxHash then
       sleep 2000 ;;;
       currentOwner <- ask (fun t => ownerOf chain t (TokNum numericTokenId)) ;;
       let isNowOwnedByContract :=
         JS.toLowerCase currentOwner =? JS.toLowerCase STAKING_CONTRACT in
       if isNowOwnedByContract
       then ret (mkStakeTx "success_via_ownership_check")
       else throw contractError
     else
       match foundTxHash with
       | Some h => ret (mkStakeTx h)
       | None => ret (mkStakeTx "")
       end)
    (fun recoveryError => throw contractError).

(** The write of one attempt: raw transaction first, contract method as the
    fallback, recovery on a decode error of the fallback. *)
Definition sendStakeTransaction (userAccount : string) (numericTokenId : Z)
  : M World StakeTx :=
  tryCatch
    (rawResult <- submit (RawStake userAccount numericTokenId)
                         (fun t => sendTransaction chain t userAccount numericTokenId) ;;
     ret (mkStakeTx rawResult))
    (fun rawError =>
       tryCatch
         (h <- submit (ContractStake userAccount numericTokenId)
                      (fun t => sendStake chain t userAccount numericTokenId) ;;
          ret (mkStakeTx h))
         (fun contractError =>
            if isDecodeError contractError
            then recoverStakeTransaction userAccount numericTokenId contractError
            else throw contractError)).

(** The final validation that precedes the write in each attempt. *)
Definition preTransactionValidation (userAccount : string) (numericTokenId : Z)
  : M World unit :=
  currentOwner <- ask (fun t => ownerOf chain t (TokNum numericTokenId)) ;;
  if negb (JS.toLowerCase currentOwner =? JS.toLowerCase userAccount) then
    if JS.toLowerCase currentOwner =? JS.toLowerCase STAKING_CONTRACT
    then throw ("Token #" ++ showZ numericTokenId
                ++ " is already staked by another user. The NFT is currently locked in the staking contract.")
    else throw ("NFT ownership changed! Current owner: " ++ currentOwner
                ++ ", Expected: " ++ userAccount)
  else
    isApproved <- ask (fun t => isApprovedForAll chain t userAccount STAKING_CONTRACT) ;;
    if negb isApproved then
      approvedAddress <- ask (fun t => getApproved chain t (TokNum numericTokenId)) ;;
      let individuallyApproved :=
        JS.toLowerCase approvedAddress =? JS.toLowerCase STAKING_CONTRACT in
      if negb individuallyApproved then
        autoApprovalResult <- performAutomaticApproval userAccount ;;
        if negb autoApprovalResult
        then throw "NFT approval was revoked or expired. Please re-approve the NFT for staking."
        else ret tt
      else ret tt
    else ret tt.

Definition maxTxRetries : nat := 2.

(** [for (let attempt = 1; attempt <= maxRetries; attempt++)] around the
    validation and the write; after the loop [result.transactionHash] is
    read. *)
Fixpoint stakeAttempts (fuel : nat) (userAccount : string) (numericTokenId : Z)
    (attempt : nat) : M World StakeTx :=
  if (attempt <=? maxTxRetries)%nat then
    match fuel with
    | O => outOfFuel
    | S fuel' =>
        flow <- tryCatch
                  (preTransactionValidation userAccount numericTokenId ;;;
                   result <- sendStakeTransaction userAccount numericTokenId ;;
                   ret (Return result))
                  (fun txError =>
                     if (attempt =? maxTxRetries)%nat then throw txError
                     else sleep 3000 ;;; ret (Next tt)) ;;
        match flow with
        | Return result => ret result
        | Next _ => stakeAttempts fuel' userAccount numericTokenId (S attempt)
        end
    end
  else throw "Cannot read properties of undefined (reading 'transactionHash')".

(** One poll of [waitForTransactionReceiptSafe]. *)
Definition pollReceipt (hash : string) : M World (Flow Receipt unit) :=
  tryCatch
    (receipt <- ask (fun t => getTransactionReceipt chain t hash) ;;
     match receipt with
     | Some receipt => ret (Return receipt)
     | None => sleep 2000 ;;; ret (Next tt)
     end)
    (fun error => sleep 2000 ;;; ret (Next tt)).

(** [while (Date.now() - startTime < timeoutMs) { ... }] and the timeout
    error that follows it. *)
Fixpoint waitForReceiptLoop (fuel : nat) (hash : string) (startTime timeoutMs : Z)
  : M World Receipt :=
  w <- get ;;
  if (clock w - startTime <? timeoutMs)%Z then
    match fuel with
    | O => outOfFuel
    | S fuel' =>
        flow <- pollReceipt hash ;;
        match flow with
        | Return receipt => ret receipt
        | Next _ => waitForReceiptLoop fuel' hash startTime timeoutMs
        end
    end
  else throw ("Transaction receipt timeout after " ++ showZ timeoutMs
              ++ "ms for tx: " ++ hash).

(** [waitForTransactionReceiptSafe(txHash, timeoutMs)]; each poll that does
    not return sleeps two seconds, which bounds the number of polls. *)
Definition waitForTransactionReceiptSafe (hash : string) (timeoutMs : Z) : M World Receipt :=
  w <- get ;;
  waitForReceiptLoop (S (Z.to_nat (timeoutMs / 2000))) hash (clock w) timeoutMs.

(** [!receipt.status || receipt.status === '0x0'] *)
Definition receiptFailed (receipt : Receipt) : bool :=
  match status receipt with
  | StatusBool b => negb b
  | StatusNum n => (n =? 0)%Z
  | StatusStr s => negb (JS.truthy s) || (s =? "0x0")
  end.

(** The message the [catch] of [stakeNFTOnChain] shows for an error. *)
Definition stakeUserMessage (message : string) : string :=
  if JS.includes "User denied" message then "Transaction was cancelled by user"
  else if JS.includes "insufficient funds" message then "Insufficient MATIC for gas fees"
  else if JS.includes "Contract mismatch" message
       then "Contract configuration error - please contact support"
  else if JS.includes "does not exist" message then "NFT does not exist on the blockchain"
  else if JS.includes "not approved" message
       then "NFT not approved for staking - please approve first"
  else if JS.includes "already staked" message then message
  else if JS.includes "don't own" message then message
  else if JS.includes "ownership mismatch" message then "You do not own this NFT"
  else message.

(** What [stakeNFTOnChain] resolves to. *)
Record StakeSuccess : Type := mkStakeSuccess {
  success : bool;
  verified : bool;
  resultHash : string;
  stakingSource : string;
  isStaked : bool
}.

(** [stakeNFTOnChain] from "Execute the stake transaction with retry
    mechanism" on: the attempts, the wait for the receipt, the check of its
    status, and the [catch] that closes the function.  The checks that come
    before (already staked, ownership, approval, contract state) have
    passed and the gas parameters are fixed when this part starts; the
    bookkeeping between the receipt and the [return] (metadata fetch,
    database record) only logs its failures and is left out. *)
Definition stakeNFTOnChain_transaction (userAccount : string) (numericTokenId : Z)
  : M World StakeSuccess :=
  tryCatch
    (result <- stakeAttempts maxTxRetries userAccount numericTokenId 1 ;;
     let hash := txHash result in
     receipt <- waitForTransactionReceiptSafe hash 60000 ;;
     if receiptFailed receipt then
       tryCatch (ask (fun t => getTransaction chain t (transactionHash receipt)))
                (fun txError => ret tt) ;;;
       throw ("Transaction failed on blockchain. Check explorer: " ++ BLOCK_EXPLORER
              ++ "/tx/" ++ transactionHash receipt)
     else
       ret (mkStakeSuccess true true (transactionHash receipt) "onchain" true))
    (fun error => throw ("Onchain staking failed: " ++ stakeUserMessage error)).

(** *** Reading the stake information *)

Record StakeInfo : Type := mkStakeInfo {
  stakedNFTs : list string;
  pendingRewards : string
}.

(** [stakeInfo._tokensStaked || stakeInfo[0] || []]: an array is truthy
    even when it is empty. *)
Definition stakedTokensOf (stakeInfo : RawStakeInfo) : list Z :=
  match _tokensStaked stakeInfo with
  | Some tokens => tokens
  | None => match at0 stakeInfo with
            | Some tokens => tokens
            | None => []
            end
  end.

(** [stakeInfo._rewards || stakeInfo[1] || '0']: a zero amount is falsy. *)
Definition pendingRewardsOf (stakeInfo : RawStakeInfo) : Z :=
  match _rewards stakeInfo with
  | Some r => if (r =? 0)%Z
              then match at1 stakeInfo with Some r1 => r1 | None => 0%Z end
              else r
  | None => match at1 stakeInfo with Some r1 => r1 | None => 0%Z end
  end.

(** The [try] block of [getStakeInfo]; [initializeContracts] either throws
    or leaves the contracts set. *)
Definition getStakeInfoRead (walletAddress : string) : M World StakeInfo :=
  ask (initializeContracts chain) ;;;
  formattedAddress <- liftReply (toChecksumAddress chain walletAddress) ;;
  stakeInfo <- ask (fun t => getStakeInfoCall chain t formattedAddress) ;;
  let stakedTokens := stakedTokensOf stakeInfo in
  let pendingRewards := pendingRewardsOf stakeInfo in
  ret (mkStakeInfo (map showZ stakedTokens) (fromWei chain pendingRewards)).

(** [getStakeInfo(walletAddress)] *)
Definition getStakeInfo (walletAddress : string) : M World StakeInfo :=
  tryCatch (getStakeInfoRead walletAddress)
           (fun error => ret (mkStakeInfo [] "0")).

(** What a caller sees of [getStakedNFTsOnChain]: one entry per staked
    token of [getStakeInfo]. *)
Definition getStakedNFTsOnChain (walletAddress : string) : M World (list string) :=
  tryCatch
    (stakeInfo <- getStakeInfo walletAddress ;;
     ret (map (fun tokenId => "onchain_" ++ tokenId) (stakedNFTs stakeInfo)))
    (fun error => ret []).

(** *** The staking ledger after an unstake *)

Record StakingResponse : Type := mkStakingResponse {
  response_success : bool;
  response_message : string
}.

Definition isLiveRecordOf (walletAddress nftId : string) (r : StakeRecord) : bool :=
  (Staking.walletAddress r =? JS.toLowerCase walletAddress) &&
  (nftRef r =? nftId) &&
  match unstakedAt r with None => true | Some _ => false end.

Definition markUnstaked (walletAddress nftId : string) (now : Z) (r : StakeRecord)
  : StakeRecord :=
  if isLiveRecordOf walletAddress nftId r
  then mkStakeRecord (nftRef r) (Staking.walletAddress r) (rarity r) (dailyReward r)
                     (stakedAt r) (Some now) (source r)
  else r.

(** Modelled from the spec: [unstakeNFT] of the off-chain staking service
    (EnhancedStakingService, whose source is not part of the repository
    files at hand).  Per the specification the reconciliation of an unstake
    "marks the StakeRecord.unstakedAt, never deletes", on the ledger "keyed
    by normalized wallet address (lower-cased) and asset id"; an asset
    without a live record is not staked.  A database round-trip may fail. *)
Definition unstakeNFT (walletAddress nftId : string) : M World StakingResponse :=
  fun w =>
    match databaseFault chain (tick w) with
    | Some e => (Throw e, advance w)
    | None =>
        if existsb (isLiveRecordOf walletAddress nftId) (staked_nfts w)
        then (Ret (mkStakingResponse true "NFT unstaked"),
              mkWorld (S (tick w)) (clock w) (readOnlyWeb3 w) (submitted w)
                      (map (markUnstaked walletAddress nftId (clock w)) (staked_nfts w)))
        else (Ret (mkStakingResponse false "NFT is not staked"), advance w)
    end.

Inductive StakeStatus : Type := StatusStaked | StatusUnstaked.

(** The [for (const id of possibleIds)] loop of
    [updateOffchainStakingRecord]: the value of [updated] at its end. *)
Fixpoint updateByPossibleIds (walletAddress : string) (status : StakeStatus)
    (possibleIds : list string) : M World bool :=
  match possibleIds with
  | [] => ret false
  | id :: rest =>
      flow <- tryCatch
                (match status with
                 | StatusUnstaked =>
                     result <- unstakeNFT walletAddress id ;;
                     if response_success result then ret (Return true) else ret (Next tt)
                 | StatusStaked => ret (Next tt)
                 end)
                (fun idError => ret (Next tt)) ;;
      match flow with
      | Return updated => ret updated
      | Next _ => updateByPossibleIds walletAddress status rest
      end
  end.

(** [updateOffchainStakingRecord(walletAddress, tokenId, status)], the step
    [unstakeNFTOnChain] runs once the receipt of the withdrawal is
    confirmed. *)
Definition updateOffchainStakingRecord (walletAddress tokenId : string)
    (status : StakeStatus) : M World unit :=
  tryCatch
    (let possibleIds :=
       ["onchain_" ++ tokenId; "blockchain_" ++ tokenId; tokenId; tokenId] in
     updated <- updateByPossibleIds walletAddress status possibleIds ;;
     ret tt)
    (fun error => ret tt).

End Service.

(** The fields of a ledger row that are written when the asset is staked:
    all of them but [unstakedAt]. *)
Definition sameStakeTimeFields (a b : StakeRecord) : Prop :=
  nftRef a = nftRef b /\ walletAddress a = walletAddress b /\
  rarity a = rarity b /\ dailyReward a = dailyReward b /\
  stakedAt a = stakedAt b /\ source a = source b.

(** What the placeholder of the ownership check makes the receipt wait
    end in. *)
Definition placeholderTimeout : string :=
  "Onchain staking failed: Transaction receipt timeout after 60000ms for tx: success_via_ownership_check".

(** *** Sample worlds *)

Definition userWallet : string := "0xAa00000000000000000000000000000000000001".

Definition zeroAddress : string := "0x0000000000000000000000000000000000000000".

Definition freshWorld : World := mkWorld 0 0 true [] [].

(** A chain that answers from a few scripts: the owner of a token, the
    blanket and the individual approval, what the two ways of sending the
    stake answer, the blocks, the receipts, and the stake information. *)
Definition scriptedChain
    (owner : nat -> Reply string)
    (approvedForAll : Reply bool)
    (approved : Reply string)
    (rawSend contractSend : Reply string)
    (receipts : string -> Reply (option Receipt))
    (stakeInfo : Reply RawStakeInfo) : Chain :=
  mkChain (fun _ => Ok tt)
          (fun t _ => owner t)
          (fun _ _ _ => approvedForAll)
          (fun _ _ => approved)
          (fun _ => Ok 2000000000%Z)
          (fun _ => Ok 80002%Z)
          (fun _ _ => Err "User denied transaction signature")
          (fun _ _ _ => rawSend)
          (fun _ _ _ => contractSend)
          (fun _ => Ok 1000%Z)
          (fun _ _ => Ok (Some (mkBlock (Some []))))
          (fun _ hash => receipts hash)
          (fun _ _ => Ok tt)
          (fun _ _ => stakeInfo)
          (fun a => Ok a)
          (fun wei => if (wei =? 0)%Z then "0" else showZ wei ++ " wei")
          (fun _ => None).

(** The wallet owns the token; both approval reads answer, and both say
    that nothing is approved. *)
Definition notApprovedChain : Chain :=
  scriptedChain (fun _ => Ok userWallet) (Ok false) (Ok zeroAddress)
                (Err "Internal JSON-RPC error") (Err "execution reverted")
                (fun _ => Ok None)
                (Err "Failed to fetch").



(** The raw send fails, the contract call raises a decode error, no block
    carries a matching transaction, and by the time of the ownership read
    (the ninth call) the token is with the staking contract.  A receipt is
    looked up by transaction hash; the node rejects anything else. *)
Definition decodeErrorChain : Chain :=
  scriptedChain (fun t => if (t <? 8)%nat then Ok userWallet else Ok STAKING_CONTRACT)
                (Ok true) (Ok zeroAddress)
                (Err "Internal JSON-RPC error")
                (Err "Parameter decoding error: Returned values aren't valid")
                (fun hash => Err ("invalid bytes32 value: " ++ hash))
                (Err "Failed to fetch").




(** A ledger with the row of the on-chain stake of token 42. *)
Definition sampleRecord : StakeRecord :=
  mkStakeRecord "onchain_42" "0xaa00000000000000000000000000000000000001"
                "Rare" 4 1000 None "onchain".

Definition ledgerWorld : World := mkWorld 0 5000 true [] [sampleRecord].

(** The stake information cannot be read. *)
Definition unreachableChain : Chain :=
  scriptedChain (fun _ => Ok userWallet) (Ok true) (Ok zeroAddress)
                (Err "Internal JSON-RPC error") (Err "Internal JSON-RPC error")
                (fun _ => Ok None)
                (Err "Failed to fetch").

(** The stake information is read, and the wallet has nothing staked. *)
Definition nothingStakedChain : Chain :=
  scriptedChain (fun _ => Ok userWallet) (Ok true) (Ok zeroAddress)
                (Err "Internal JSON-RPC error") (Err "Internal JSON-RPC error")
                (fun _ => Ok None)
                (Ok (mkRawStakeInfo (Some []) (Some []) (Some 0%Z) (Some 0%Z))).

End Staking.

(** ** Hybrid burn service *)

Module Burn.

Definition BURN_ADDRESS : string := "0x000000000000000000000000000000000000dEaD".

Inductive Store : Type := Offchain | Onchain.

Definition isOffchain (s : Store) : bool :=
  match s with Offchain => true | Onchain => false end.

Definition isOnchain (s : Store) : bool :=
  match s with Onchain => true | Offchain => false end.

Inductive StakingStatus : Type := Staked | Unstaked.

(** [NFTWithStatus], the fields the burn looks at. *)
Record NFTWithStatus : Type := mkNFT {
  id : string;
  rarity : string;
  status : Store;
  tokenId : option string;
  stakingStatus : option StakingStatus;
  isStaked : option bool
}.

Record BurnGroup : Type := mkBurnGroup {
  offchainNFTs : list NFTWithStatus;
  onchainNFTs : list NFTWithStatus;
  group_rarity : string;
  totalCount : Z
}.

(** [BurnRule] of the pool burn service; [resultingRarity] is
    [resultingNFT.rarity]. *)
Record BurnRule : Type := mkBurnRule {
  minRarity : string;
  requiredAmount : Z;
  resultingRarity : string
}.

Inductive BurnStrategy : Type := pure_offchain | pure_onchain | mixed.

Record Analysis : Type := mkAnalysis {
  burnGroups : list BurnGroup;
  burnStrategy : BurnStrategy;
  isValid : bool;
  applicableRule : option BurnRule
}.

(** [NFTData] of the result asset. *)
Record NFTData : Type := mkNFTData {
  nft_id : string;
  nft_name : string;
  nft_image : string;
  nft_rarity : string;
  nft_wallet_address : string;
  ipfs_hash : string;
  metadata_uri : string
}.

Record BurnResult : Type := mkBurnResult {
  success : bool;
  resultNFT : option NFTData;
  error : option string
}.

(** *** The database tables and the service state *)

Record DistributionRow : Type := mkDistributionRow {
  log_nft_id : string;
  log_wallet_address : string;
  log_rarity : string;
  log_cid : string
}.

Record PoolRow : Type := mkPoolRow {
  pool_id : Z;
  pool_rarity : string;
  is_distributed : bool;
  cid : string;
  image_url : string;
  metadata_cid : string;
  distributed_to_wallet : option string
}.

Record BurnTransactionRow : Type := mkBurnTransactionRow {
  bt_wallet_address : string;
  burned_nft_ids : list string;
  result_rarity : string;
  burn_type : string;
  transaction_hash : option string;
  onchain_nfts : nat;
  offchain_nfts : nat
}.

(** [transferFrom(from, to, tokenId).send(...)]; [None] is the [NaN] that
    [parseInt] gives for an id without a leading number. *)
Record Transfer : Type := mkTransfer {
  transfer_from : option string;
  transfer_to : string;
  transfer_token : option Z
}.

Record World : Type := mkWorld {
  tick : nat;                                   (* external calls answered so far *)
  userAccount : option string;                  (* set once the contracts are *)
  submitted : list Transfer;                    (* transfers sent, latest first *)
  nft_cid_distribution_log : list DistributionRow;
  nft_cid_pools : list PoolRow;
  burn_transactions : list BurnTransactionRow
}.

(** The wallet, the chain node, the database faults, and the helpers that
    live outside the service. *)
Record Env : Type := mkEnv {
  initializeContracts : nat -> Reply string;
  parseInt : string -> option Z;
  estimateGas : nat -> option Z -> Reply Z;
  getGasPrice : nat -> Reply Z;
  sendTransferFrom : nat -> option string -> option Z -> Reply string;
  databaseFault : nat -> option string;
  uuidv4 : nat -> string;
  getIPFSUrl : string -> string;
  getBurnRules : list BurnRule;
  burnNFTsOffChain : string -> list string -> M World BurnResult
}.

Definition advance (w : World) : World :=
  mkWorld (S (tick w)) (userAccount w) (submitted w)
          (nft_cid_distribution_log w) (nft_cid_pools w) (burn_transactions w).

Definition ask {A} (oracle : nat -> Reply A) : M World A :=
  fun w =>
    match oracle (tick w) with
    | Ok a => (Ret a, advance w)
    | Err e => (Throw e, advance w)
    end.

Definition setUserAccount (account : string) : M World unit :=
  modify (fun w => mkWorld (tick w) (Some account) (submitted w)
                           (nft_cid_distribution_log w) (nft_cid_pools w)
                           (burn_transactions w)).

Definition recordTransfer (t : Transfer) : M World unit :=
  modify (fun w => mkWorld (tick w) (userAccount w) (t :: submitted w)
                           (nft_cid_distribution_log w) (nft_cid_pools w)
                           (burn_transactions w)).

Definition setDistributionLog (rows : list DistributionRow) (w : World) : World :=
  mkWorld (tick w) (userAccount w) (submitted w) rows (nft_cid_pools w)
          (burn_transactions w).

Definition setPools (rows : list PoolRow) (w : World) : World :=
  mkWorld (tick w) (userAccount w) (submitted w) (nft_cid_distribution_log w) rows
          (burn_transactions w).

Definition setBurnTransactions (rows : list BurnTransactionRow) (w : World) : World :=
  mkWorld (tick w) (userAccount w) (submitted w) (nft_cid_distribution_log w)
          (nft_cid_pools w) rows.

Section Service.

Variable env : Env.

(** One round-trip to the database: [{ data, error }].  A fault of the
    round-trip leaves the tables as they are. *)
Definition dbRun {A} (statement : World -> Reply A * World) (w : World)
  : Reply A * World :=
  match databaseFault env (tick w) with
  | Some e => (Err e, advance w)
  | None => let (r, w') := statement w in (r, advance w')
  end.

Definition dbCall {A} (statement : World -> Reply A * World) : M World (Reply A) :=
  fun w => let (r, w') := dbRun statement w in (Ret r, w').

(** *** Analysis of the selection *)

Definition emptyGroup (rarity : string) : BurnGroup := mkBurnGroup [] [] rarity 0.

Definition addToGroup (nft : NFTWithStatus) (g : BurnGroup) : BurnGroup :=
  match status nft with
  | Offchain => mkBurnGroup (offchainNFTs g ++ [nft]) (onchainNFTs g)
                            (group_rarity g) (totalCount g + 1)
  | Onchain => mkBurnGroup (offchainNFTs g) (onchainNFTs g ++ [nft])
                           (group_rarity g) (totalCount g + 1)
  end.

(** [rarityGroups[rarity]] created when missing, then updated; the groups
    are kept in the order their keys were first inserted, which is the
    order of [Object.values] for keys that are not array indices. *)
Fixpoint addToRarityGroups (rarityGroups : list BurnGroup) (rarity : string)
    (nft : NFTWithStatus) : list BurnGroup :=
  match rarityGroups with
  | [] => [addToGroup nft (emptyGroup rarity)]
  | g :: rest =>
      if group_rarity g =? rarity then addToGroup nft g :: rest
      else g :: addToRarityGroups rest rarity nft
  end.

Definition groupByRarity (nfts : list NFTWithStatus) : list BurnGroup :=
  fold_left (fun rarityGroups nft =>
               addToRarityGroups rarityGroups (JS.toLowerCase (rarity nft)) nft)
            nfts [].

Definition ruleMatches (group : BurnGroup) (r : BurnRule) : bool :=
  (JS.toLowerCase (minRarity r) =? group_rarity group) &&
  (requiredAmount r =? totalCount group)%Z.

(** The [for (const group of burnGroups)] loop: the first group that has a
    rule decides. *)
Fixpoint findApplicableRule (burnRules : list BurnRule) (groups : list BurnGroup)
  : option BurnRule :=
  match groups with
  | [] => None
  | group :: rest =>
      match find (ruleMatches group) burnRules with
      | Some rule => Some rule
      | None => findApplicableRule burnRules rest
      end
  end.

(** [analyzeNFTSelection(nfts)] *)
Definition analyzeNFTSelection (nfts : list NFTWithStatus) : Analysis :=
  let burnGroups := groupByRarity nfts in
  let hasOffchain := existsb (fun nft => isOffchain (status nft)) nfts in
  let hasOnchain := existsb (fun nft => isOnchain (status nft)) nfts in
  let burnStrategy :=
    if hasOffchain && hasOnchain then mixed
    else if hasOnchain && negb hasOffchain then pure_onchain
    else pure_offchain in
  let burnRules := getBurnRules env in
  let applicableRule := findApplicableRule burnRules burnGroups in
  mkAnalysis burnGroups burnStrategy
             (match applicableRule with Some _ => true | None => false end)
             applicableRule.

(** *** The on-chain burn *)

(** [nft.tokenId || nft.id] *)
Definition tokenIdOrId (nft : NFTWithStatus) : string :=
  match tokenId nft with
  | Some t => JS.orElse t (id nft)
  | None => id nft
  end.

(** [`${tokenId}`] for the parsed token id. *)
Definition showToken (t : option Z) : string :=
  match t with Some n => showZ n | None => "NaN" end.

(** [nft.id.includes('staked_') || nft.stakingStatus === 'staked' ||
     nft.isStaked === true] *)
Definition looksStaked (nft : NFTWithStatus) : bool :=
  JS.includes "staked_" (id nft) ||
  match stakingStatus nft with Some Staked => true | _ => false end ||
  match isStaked nft with Some true => true | _ => false end.

(** The body of the [for] loop of [burnOnchainNFTs] for one token: the hash
    of its transfer to the burn address. *)
Definition burnOneOnchainNFT (nft : NFTWithStatus) : M World string :=
  tryCatch
    (let tokenId := parseInt env (tokenIdOrId nft) in
     if looksStaked nft
     then throw ("NFT " ++ showToken tokenId
                 ++ " is currently staked and cannot be burned. Please unstake it first.")
     else
       w <- get ;;
       gasLimit <- ask (fun t => estimateGas env t tokenId) ;;
       gasPrice <- ask (getGasPrice env) ;;
       recordTransfer (mkTransfer (userAccount w) BURN_ADDRESS tokenId) ;;;
       hash <- ask (fun t => sendTransferFrom env t (userAccount w) tokenId) ;;
       ret hash)
    (fun error => throw error).

Fixpoint burnEach (onchainNFTs : list NFTWithStatus) (burnHashes : list string)
  : M World (list string) :=
  match onchainNFTs with
  | [] => ret burnHashes
  | nft :: rest =>
      hash <- burnOneOnchainNFT nft ;;
      burnEach rest (burnHashes ++ [hash])
  end.

(** [burnOnchainNFTs(onchainNFTs)] *)
Definition burnOnchainNFTs (onchainNFTs : list NFTWithStatus) : M World (list string) :=
  w <- get ;;
  (match userAccount w with
   | Some _ => ret tt
   | None => account <- ask (initializeContracts env) ;; setUserAccount account
   end) ;;;
  burnEach onchainNFTs [].

(** *** The off-chain burn *)

Definition deleteDistributionRows (walletAddress : string) (nftIds : list string)
    (w : World) : Reply unit * World :=
  (Ok tt,
   setDistributionLog
     (filter (fun row =>
                negb ((log_wallet_address row =? JS.toLowerCase walletAddress) &&
                      existsb (String.eqb (log_nft_id row)) nftIds))
             (nft_cid_distribution_log w))
     w).

(** [burnOffchainNFTsInDatabase(walletAddress, nftIds)] *)
Definition burnOffchainNFTsInDatabase (walletAddress : string) (nftIds : list string)
  : M World unit :=
  tryCatch
    (r <- dbCall (deleteDistributionRows walletAddress nftIds) ;;
     match r with
     | Err message => throw ("Failed to burn offchain NFTs: " ++ message)
     | Ok _ => ret tt
     end)
    (fun error => throw error).

(** *** The result asset from the pool *)

Definition isAvailable (rarity : string) (row : PoolRow) : bool :=
  (pool_rarity row =? JS.toLowerCase rarity) && negb (is_distributed row).

(** [.select('*').eq('rarity', ...).eq('is_distributed', false).limit(1)
     .single()]: the first row that qualifies; no row is an error. *)
Definition selectAvailable (rarity : string) (w : World) : Reply PoolRow * World :=
  match find (isAvailable rarity) (nft_cid_pools w) with
  | Some row => (Ok row, w)
  | None => (Err "JSON object requested, multiple (or no) rows returned", w)
  end.

Definition syncUserCollection (w : World) : Reply unit * World := (Ok tt, w).

Definition insertDistributionRow (row : DistributionRow) (w : World)
  : Reply unit * World :=
  (Ok tt, setDistributionLog (nft_cid_distribution_log w ++ [row]) w).

(** [.update({ is_distributed: true, ..., distributed_to_wallet })
     .eq('id', id)]: keyed by the id alone. *)
Definition markRow (poolId : Z) (walletAddress : string) (row : PoolRow) : PoolRow :=
  if (pool_id row =? poolId)%Z
  then mkPoolRow (pool_id row) (pool_rarity row) true (cid row)
                 (image_url row) (metadata_cid row)
                 (Some (JS.toLowerCase walletAddress))
  else row.

Definition markDistributed (poolId : Z) (walletAddress : string) (w : World)
  : Reply unit * World :=
  (Ok tt, setPools (map (markRow poolId walletAddress) (nft_cid_pools w)) w).

(** [rarity.charAt(0).toUpperCase() + rarity.slice(1)] *)
Definition capitalizeFirst (s : string) : string :=
  JS.toUpperCase (JS.charAt0 s) ++ JS.slice1 s.

Definition makeResultNFT (walletAddress rarity : string) (cidPoolNFT : PoolRow)
    (uuid : string) : NFTData :=
  mkNFTData uuid
            ("NEFTIT " ++ capitalizeFirst rarity ++ " NFT")
            (JS.orElse (image_url cidPoolNFT) (getIPFSUrl env (cid cidPoolNFT)))
            rarity
            walletAddress
            (cid cidPoolNFT)
            (getIPFSUrl env (metadata_cid cidPoolNFT)).

(** [getResultNFTFromOffchainPool(walletAddress, rarity)] *)
Definition getResultNFTFromOffchainPool (walletAddress rarity : string)
  : M World NFTData :=
  tryCatch
    (selected <- dbCall (selectAvailable rarity) ;;
     match selected with
     | Err _ => throw ("No available " ++ rarity ++ " NFT found in CID pool")
     | Ok cidPoolNFT =>
         w <- get ;;
         let resultNFT := makeResultNFT walletAddress rarity cidPoolNFT (uuidv4 env (tick w)) in
         syncError <- dbCall syncUserCollection ;;
         inserted <- dbCall (insertDistributionRow
                               (mkDistributionRow (nft_id resultNFT)
                                                  (JS.toLowerCase walletAddress)
                                                  (nft_rarity resultNFT)
                                                  (ipfs_hash resultNFT))) ;;
         match inserted with
         | Err message => throw ("Failed to add result NFT: " ++ message)
         | Ok _ =>
             updateError <- dbCall (markDistributed (pool_id cidPoolNFT) walletAddress) ;;
             ret resultNFT
         end
     end)
    (fun error => throw error).

(** *** The audit row *)

Definition insertBurnTransaction (row : BurnTransactionRow) (w : World)
  : Reply unit * World :=
  (Ok tt, setBurnTransactions (burn_transactions w ++ [row]) w).

Definition burnTypeName (burnStrategy : BurnStrategy) : string :=
  match burnStrategy with
  | pure_onchain => "onchain"
  | _ => "hybrid"
  end.

(** [onchainBurnHashes[0] || undefined] *)
Definition firstHash (onchainBurnHashes : list string) : option string :=
  match onchainBurnHashes with
  | h :: _ => if JS.truthy h then Some h else None
  | [] => None
  end.

(** [logHybridBurnTransaction(walletAddress, transaction, burnedNFTs)];
    time stamps are not kept. *)
Definition logHybridBurnTransaction (walletAddress : string) (hash : option string)
    (resultRarity burnType : string) (burnedNFTs : list NFTWithStatus) : M World unit :=
  tryCatch
    (r <- dbCall (insertBurnTransaction
                    (mkBurnTransactionRow
                       (JS.toLowerCase walletAddress)
                       (map id burnedNFTs)
                       resultRarity
                       burnType
                       hash
                       (length (filter (fun n => isOnchain (status n)) burnedNFTs))
                       (length (filter (fun n => isOffchain (status n)) burnedNFTs)))) ;;
     ret tt)
    (fun error => ret tt).

(** *** The burn *)

(** [executeSmartHybridBurn(walletAddress, nfts)] *)
Definition executeSmartHybridBurn (walletAddress : string) (nfts : list NFTWithStatus)
  : M World BurnResult :=
  tryCatch
    (let analysis := analyzeNFTSelection nfts in
     match isValid analysis, applicableRule analysis with
     | true, Some applicableRule =>
         match burnStrategy analysis with
         | pure_offchain =>
             burnNFTsOffChain env walletAddress (map id nfts)
         | pure_onchain =>
             onchainBurnHashes <-
               burnOnchainNFTs (filter (fun n => isOnchain (status n)) nfts) ;;
             resultNFT <-
               getResultNFTFromOffchainPool walletAddress (resultingRarity applicableRule) ;;
             logHybridBurnTransaction walletAddress (firstHash onchainBurnHashes)
               (resultingRarity applicableRule) (burnTypeName pure_onchain) nfts ;;;
             ret (mkBurnResult true (Some resultNFT) None)
         | mixed =>
             let onchainNFTs := filter (fun n => isOnchain (status n)) nfts in
             onchainBurnHashes <-
               (if (0 <? length onchainNFTs)%nat then burnOnchainNFTs onchainNFTs
                else ret []) ;;
             let offchainNFTs := filter (fun n => isOffchain (status n)) nfts in
             (if (0 <? length offchainNFTs)%nat
              then burnOffchainNFTsInDatabase walletAddress (map id offchainNFTs)
              else ret tt) ;;;
             resultNFT <-
               getResultNFTFromOffchainPool walletAddress (resultingRarity applicableRule) ;;
             logHybridBurnTransaction walletAddress (firstHash onchainBurnHashes)
               (resultingRarity applicableRule) (burnTypeName mixed) nfts ;;;
             ret (mkBurnResult true (Some resultNFT) None)
         end
     | _, _ => throw "Invalid NFT combination for burning"
     end)
    (fun error => ret (mkBurnResult false None (Some error))).

(** *** The allocation, one await at a time

    [getResultNFTFromOffchainPool] gives the scheduler the hand at each of
    its four database round-trips.  [Allocation] is where one call of it
    stands between two of them, [allocationStep] runs it up to its next
    await, and [runSchedule] lets several calls take their steps in the
    order a schedule gives. *)

Inductive Allocation : Type :=
| Selecting
| Syncing (cidPoolNFT : PoolRow) (resultNFT : NFTData)
| Inserting (cidPoolNFT : PoolRow) (resultNFT : NFTData)
| Marking (cidPoolNFT : PoolRow) (resultNFT : NFTData)
| Allocated (resultNFT : NFTData)
| Rejected (message : string).

Definition allocationStep (walletAddress rarity : string) (a : Allocation) (w : World)
  : Allocation * World :=
  match a with
  | Selecting =>
      match dbRun (selectAvailable rarity) w with
      | (Ok cidPoolNFT, w') =>
          (Syncing cidPoolNFT
                   (makeResultNFT walletAddress rarity cidPoolNFT (uuidv4 env (tick w'))),
           w')
      | (Err _, w') =>
          (Rejected ("No available " ++ rarity ++ " NFT found in CID pool"), w')
      end
  | Syncing cidPoolNFT resultNFT =>
      let (_, w') := dbRun syncUserCollection w in
      (Inserting cidPoolNFT resultNFT, w')
  | Inserting cidPoolNFT resultNFT =>
      match dbRun (insertDistributionRow
                     (mkDistributionRow (nft_id resultNFT)
                                        (JS.toLowerCase walletAddress)
                                        (nft_rarity resultNFT)
                                        (ipfs_hash resultNFT))) w with
      | (Ok _, w') => (Marking cidPoolNFT resultNFT, w')
      | (Err message, w') => (Rejected ("Failed to add result NFT: " ++ message), w')
      end
  | Marking cidPoolNFT resultNFT =>
      let (_, w') := dbRun (markDistributed (pool_id cidPoolNFT) walletAddress) w in
      (Allocated resultNFT, w')
  | Allocated resultNFT => (Allocated resultNFT, w)
  | Rejected message => (Rejected message, w)
  end.

Fixpoint runAllocation (steps : nat) (walletAddress rarity : string) (a : Allocation)
    (w : World) : Allocation * World :=
  match steps with
  | O => (a, w)
  | S n =>
      let (a', w') := allocationStep walletAddress rarity a w in
      runAllocation n walletAddress rarity a' w'
  end.

(** One burn waiting for its result asset. *)
Record Burner : Type := mkBurner {
  burner_wallet : string;
  burner_rarity : string;
  burner_at : Allocation
}.

Fixpoint setBurner (i : nat) (b : Burner) (burners : list Burner) : list Burner :=
  match burners, i with
  | [], _ => []
  | _ :: rest, O => b :: rest
  | b0 :: rest, S j => b0 :: setBurner j b rest
  end.

(** The burners take one step each time their index comes up. *)
Fixpoint runSchedule (schedule : list nat) (burners : list Burner) (w : World)
  : list Burner * World :=
  match schedule with
  | [] => (burners, w)
  | i :: rest =>
      match nth_error burners i with
      | Some b =>
          let (a', w') :=
            allocationStep (burner_wallet b) (burner_rarity b) (burner_at b) w in
          runSchedule rest
            (setBurner i (mkBurner (burner_wallet b) (burner_rarity b) a') burners) w'
      | None => runSchedule rest burners w
      end
  end.

(** Burns that run one after the other, each to its end. *)
Fixpoint allocateInTurn (rarity : string) (wallets : list string)
  : M World (list NFTData) :=
  match wallets with
  | [] => ret []
  | walletAddress :: rest =>
      resultNFT <- getResultNFTFromOffchainPool walletAddress rarity ;;
      results <- allocateInTurn rarity rest ;;
      ret (resultNFT :: results)
  end.

End Service.



(** *** Sample worlds *)

(** The tables a claim speaks of. *)
Definition tables (w : World)
  : list DistributionRow * list PoolRow * list BurnTransactionRow :=
  (nft_cid_distribution_log w, nft_cid_pools w, burn_transactions w).

Definition availableCount (rarity : string) (pool : list PoolRow) : nat :=
  length (filter (isAvailable rarity) pool).

Definition distributedCount (pool : list PoolRow) : nat :=
  length (filter is_distributed pool).

Definition digitOf (c : ascii) : option Z :=
  let n := nat_of_ascii c in
  if (48 <=? n)%nat && (n <=? 57)%nat then Some (Z.of_nat (n - 48)) else None.

Fixpoint leadingDigits (s : string) (acc : option Z) : option Z :=
  match s with
  | EmptyString => acc
  | String c t =>
      match digitOf c with
      | Some d => leadingDigits t (Some (match acc with Some a => 10 * a + d | None => d end)%Z)
      | None => acc
      end
  end.

(** [parseInt] on the ids of the samples: the number its leading decimal
    digits spell, [NaN] when there is none. *)
Definition sampleParseInt (s : string) : option Z := leadingDigits s None.

Definition commonToRare : BurnRule := mkBurnRule "common" 3 "rare".

Definition burnerWallet : string := "0xBb00000000000000000000000000000000000002".

Definition otherWallet : string := "0xCc00000000000000000000000000000000000003".

(** An environment in which everything answers, but for the transfer to the
    burn address, which answers as [send] says. *)
Definition sampleEnv (send : Reply string) : Env :=
  mkEnv (fun _ => Ok burnerWallet)
        sampleParseInt
        (fun _ _ => Ok 60000%Z)
        (fun _ => Ok 2000000000%Z)
        (fun _ _ _ => send)
        (fun _ => None)
        (fun t => "uuid-" ++ showZ (Z.of_nat t))
        (fun c => "https://ipfs.io/ipfs/" ++ c)
        [commonToRare]
        (fun _ _ => ret (mkBurnResult false None (Some "pure offchain burn"))).

Definition offchainA : NFTWithStatus := mkNFT "nft-a" "Common" Offchain None None None.
Definition offchainB : NFTWithStatus := mkNFT "nft-b" "common" Offchain None None None.
Definition onchain7 : NFTWithStatus :=
  mkNFT "onchain_7" "Common" Onchain (Some "7") (Some Unstaked) (Some false).

Definition sampleSelection : list NFTWithStatus := [offchainA; onchain7; offchainB].

Definition rarePool : list PoolRow :=
  [mkPoolRow 1 "rare" false "cid-rare-1" "" "meta-rare-1" None;
   mkPoolRow 2 "rare" false "cid-rare-2" "" "meta-rare-2" None].

Definition sampleWorld : World :=
  mkWorld 0 None []
          [mkDistributionRow "nft-a" "0xbb00000000000000000000000000000000000002" "common" "cid-a";
           mkDistributionRow "nft-b" "0xbb00000000000000000000000000000000000002" "common" "cid-b";
           mkDistributionRow "nft-c" "0xbb00000000000000000000000000000000000002" "common" "cid-c"]
          rarePool
          [].

(** Two burns that wait for a rare result asset, and the schedule in which
    they take their four steps alternately. *)
Definition twoBurners : list Burner :=
  [mkBurner burnerWallet "rare" Selecting; mkBurner otherWallet "rare" Selecting].

Definition alternating : list nat := [0; 1; 0; 1; 0; 1; 0; 1]%nat.

Definition allocatedCid (b : Burner) : option string :=
  match burner_at b with
  | Allocated resultNFT => Some (ipfs_hash resultNFT)
  | _ => None
  end.

End Burn.

(** ** The optimistic view of the NFT context *)

Module View.

Inductive Store : Type := offchain | onchain.

Inductive StakingSource : Type := source_none | source_offchain | source_onchain.

(** [ContextNFT], the fields the optimistic updates read or write;
    [dailyReward] is counted in tenths. *)
Record ContextNFT : Type := mkContextNFT {
  id : string;
  rarity : string;
  status : Store;
  isStaked : bool;
  stakingSource : StakingSource;
  dailyReward : Z;
  stakeTimestamp : option Z;
  lastUpdated : option Z;
  optimisticUpdate : option bool
}.

(** [Partial<ContextNFT>]: a field is present or not; an optional field may
    be present with the value [undefined]. *)
Record PartialNFT : Type := mkPartialNFT {
  p_id : option string;
  p_rarity : option string;
  p_status : option Store;
  p_isStaked : option bool;
  p_stakingSource : option StakingSource;
  p_dailyReward : option Z;
  p_stakeTimestamp : option (option Z);
  p_lastUpdated : option (option Z);
  p_optimisticUpdate : option (option bool)
}.

(** The React state of the provider that the optimistic callbacks touch. *)
Record ViewState : Type := mkViewState {
  allNFTs : list ContextNFT;
  backupState : list ContextNFT;
  hasOptimisticUpdates : bool
}.

(** [getDailyRewardForRarity(rarity)], in tenths: [rewards[...] || 0.1]. *)
Definition getDailyRewardForRarity (rarity : string) : Z :=
  let r := JS.toLowerCase rarity in
  if r =? "common" then 1
  else if r =? "rare" then 4
  else if r =? "legendary" then 10
  else if r =? "platinum" then 25
  else if r =? "silver" then 80
  else if r =? "gold" then 300
  else 1.

(** [nftIds.includes(nft.id)] *)
Definition includesId (nftIds : list string) (nftId : string) : bool :=
  existsb (String.eqb nftId) nftIds.

(** [optimisticStake(nftIds, stakingSource)].  [rendered] is the
    [allNFTs] the callback closed over, the state argument carries the
    [prev] of the functional update; [now] is [Date.now()]. *)
Definition optimisticStake (rendered : list ContextNFT) (nftIds : list string)
    (stakingSource : StakingSource) (now : Z) (st : ViewState) : ViewState :=
  mkViewState
    (map (fun nft =>
            if includesId nftIds (id nft)
            then mkContextNFT (id nft) (rarity nft) (status nft) true stakingSource
                              (getDailyRewardForRarity (rarity nft)) (Some now)
                              (lastUpdated nft) (optimisticUpdate nft)
            else nft)
         (allNFTs st))
    rendered
    true.

(** [optimisticUnstake(nftIds)] *)
Definition optimisticUnstake (rendered : list ContextNFT) (nftIds : list string)
    (st : ViewState) : ViewState :=
  mkViewState
    (map (fun nft =>
            if includesId nftIds (id nft)
            then mkContextNFT (id nft) (rarity nft) (status nft) false source_none
                              (dailyReward nft) None
                              (lastUpdated nft) (optimisticUpdate nft)
            else nft)
         (allNFTs st))
    rendered
    true.

Definition orField {A} (update : option A) (current : A) : A :=
  match update with Some v => v | None => current end.

(** [{ ...nft, ...updates, lastUpdated: Date.now(), optimisticUpdate: true }] *)
Definition applyUpdates (updates : PartialNFT) (now : Z) (nft : ContextNFT) : ContextNFT :=
  mkContextNFT (orField (p_id updates) (id nft))
               (orField (p_rarity updates) (rarity nft))
               (orField (p_status updates) (status nft))
               (orField (p_isStaked updates) (isStaked nft))
               (orField (p_stakingSource updates) (stakingSource nft))
               (orField (p_dailyReward updates) (dailyReward nft))
               (orField (p_stakeTimestamp updates) (stakeTimestamp nft))
               (Some now)
               (Some true).

(** [updateNFTOptimistically(nftId, updates)] *)
Definition updateNFTOptimistically (rendered : list ContextNFT) (nftId : string)
    (updates : PartialNFT) (now : Z) (st : ViewState) : ViewState :=
  mkViewState
    (map (fun nft => if id nft =? nftId then applyUpdates updates now nft else nft)
         (allNFTs st))
    rendered
    true.

(** [revertOptimisticUpdate()]; [renderedBackup] is the [backupState] the
    callback closed over. *)
Definition revertOptimisticUpdate (renderedBackup : list ContextNFT) (st : ViewState)
  : ViewState :=
  if (0 <? length renderedBackup)%nat
  then mkViewState renderedBackup [] false
  else st.

(** [clearOptimisticUpdates()] *)
Definition clearOptimisticUpdates (st : ViewState) : ViewState :=
  mkViewState (allNFTs st) [] false.

(** A call of one of the callbacks of the context. *)
Inductive Call : Type :=
| CallStake (nftIds : list string) (stakingSource : StakingSource) (now : Z)
| CallUnstake (nftIds : list string)
| CallUpdate (nftId : string) (updates : PartialNFT) (now : Z)
| CallRevert
| CallClear.

(** A call made from the latest render: the callback closes over the state
    the call finds ([useCallback] renews it whenever that state changes). *)
Definition handle (c : Call) (st : ViewState) : ViewState :=
  match c with
  | CallStake nftIds stakingSource now =>
      optimisticStake (allNFTs st) nftIds stakingSource now st
  | CallUnstake nftIds => optimisticUnstake (allNFTs st) nftIds st
  | CallUpdate nftId updates now =>
      updateNFTOptimistically (allNFTs st) nftId updates now st
  | CallRevert => revertOptimisticUpdate (backupState st) st
  | CallClear => clearOptimisticUpdates st
  end.

(** A call made through the callbacks that the render [rendered] handed
    out: a mutation closes over that render's [allNFTs] and the revert over
    its [backupState] (the dependency lists of [useCallback]), whatever the
    state has become since; the functional updates read the state the call
    finds.  [handle c st] is [handleFrom st c st]. *)
Definition handleFrom (rendered : ViewState) (c : Call) (st : ViewState) : ViewState :=
  match c with
  | CallStake nftIds stakingSource now =>
      optimisticStake (allNFTs rendered) nftIds stakingSource now st
  | CallUnstake nftIds => optimisticUnstake (allNFTs rendered) nftIds st
  | CallUpdate nftId updates now =>
      updateNFTOptimistically (allNFTs rendered) nftId updates now st
  | CallRevert => revertOptimisticUpdate (backupState rendered) st
  | CallClear => clearOptimisticUpdates st
  end.

(** The calls that apply an optimistic mutation. *)
Definition isMutation (c : Call) : bool :=
  match c with
  | CallStake _ _ _ | CallUnstake _ | CallUpdate _ _ _ => true
  | CallRevert | CallClear => false
  end.

(** A view with one asset, not staked, and an optimistic stake of it. *)
Definition sampleNFT : ContextNFT :=
  mkContextNFT "nft-1" "Rare" offchain false source_none 4 None None None.

Definition sampleView : ViewState := mkViewState [sampleNFT] [] false.

Definition sampleStaked : ViewState :=
  handle (CallStake ["nft-1"] source_offchain 1000) sampleView.

Definition sampleUpdates : PartialNFT :=
  mkPartialNFT None None None None (Some source_onchain) None None None None.

End View.

(** ** The NFT context: derived lists, burn and batch updates, loading *)

Module ViewMore.

Import View.

(** [availableNFTs], [stakableNFTs] and [stakedNFTs] of the provider. *)
Definition availableNFTs (allNFTs : list ContextNFT) : list ContextNFT :=
  filter (fun nft => negb (isStaked nft)) allNFTs.

Definition stakableNFTs (allNFTs : list ContextNFT) : list ContextNFT :=
  filter (fun nft => negb (isStaked nft)) allNFTs.

Definition stakedNFTs (allNFTs : list ContextNFT) : list ContextNFT :=
  filter (fun nft => isStaked nft) allNFTs.

(** [optimisticBurn(nftIds, newNFT)]; like the other callbacks it closes
    over the rendered [allNFTs], and it leaves [hasOptimisticUpdates]
    alone. *)
Definition optimisticBurn (rendered : list ContextNFT) (nftIds : list string)
    (newNFT : option ContextNFT) (st : ViewState) : ViewState :=
  mkViewState
    (let updated := filter (fun nft => negb (includesId nftIds (id nft))) (allNFTs st) in
     match newNFT with
     | Some nft => updated ++ [nft]
     | None => updated
     end)
    rendered
    (hasOptimisticUpdates st).

(** [updates.find(u => u.id === nft.id)] *)
Definition findUpdate (updates : list (string * PartialNFT)) (nftId : string)
  : option (string * PartialNFT) :=
  find (fun u => fst u =? nftId) updates.

(** [batchUpdateNFTs(updates)] *)
Definition batchUpdateNFTs (rendered : list ContextNFT)
    (updates : list (string * PartialNFT)) (now : Z) (st : ViewState) : ViewState :=
  mkViewState
    (map (fun nft =>
            match findUpdate updates (id nft) with
            | Some update => applyUpdates (snd update) now nft
            | None => nft
            end)
         (allNFTs st))
    rendered
    true.

(** A batch update made from the latest render. *)
Definition batchNow (updates : list (string * PartialNFT)) (now : Z) (st : ViewState)
  : ViewState :=
  batchUpdateNFTs (allNFTs st) updates now st.

(** The state-exclusivity of an asset of the view: it is staked exactly
    when it has a staking source. *)
Definition consistent (nft : ContextNFT) : Prop :=
  isStaked nft = true <-> stakingSource nft <> source_none.

(** An NFT as the lifecycle service delivers it to [loadNFTData]: the
    fields the conversion to a [ContextNFT] reads.  [loaded_status] is the
    string of the service ('onchain', 'reward_tracking', ...). *)
Record LoadedNFT : Type := mkLoadedNFT {
  loaded_id : string;
  loaded_rarity : string;
  loaded_status : string;
  loaded_isStaked : option bool;
  loaded_stakeTimestamp : option Z;
  loaded_lastUpdated : option Z;
  loaded_optimisticUpdate : option bool
}.

(** [nft.isStaked || false] *)
Definition isStakedOrFalse (nft : LoadedNFT) : bool :=
  match loaded_isStaked nft with Some b => b | None => false end.

Section Loading.

(** [offChainStakingService.getDailyRewardForRarity], of the staking
    service that is not among the files at hand. *)
Variable serviceDailyReward : string -> Z.

(** The conversion of a loaded on-chain NFT in [loadNFTData]. *)
Definition toOnchainContextNFT (nft : LoadedNFT) : ContextNFT :=
  mkContextNFT (loaded_id nft) (loaded_rarity nft) onchain
               (isStakedOrFalse nft)
               (if isStakedOrFalse nft then source_onchain else source_none)
               (serviceDailyReward (loaded_rarity nft))
               (loaded_stakeTimestamp nft)
               (loaded_lastUpdated nft)
               (loaded_optimisticUpdate nft).

(** The conversion of a loaded off-chain NFT in [loadNFTData]. *)
Definition toOffchainContextNFT (nft : LoadedNFT) : ContextNFT :=
  mkContextNFT (loaded_id nft) (loaded_rarity nft) offchain
               (isStakedOrFalse nft)
               (if isStakedOrFalse nft then source_offchain else source_none)
               (serviceDailyReward (loaded_rarity nft))
               (loaded_stakeTimestamp nft)
               (loaded_lastUpdated nft)
               (loaded_optimisticUpdate nft).

(** The first step of [loadNFTData]: the off-chain NFTs that are
    'offchain' or 'claiming' replace the view, unless there is none. *)
Definition loadOffchainNFTs (offchainData : list LoadedNFT) (currentNFTs : list ContextNFT)
  : list ContextNFT :=
  let activeOffchainNFTs :=
    filter (fun nft => (loaded_status nft =? "offchain") || (loaded_status nft =? "claiming"))
           offchainData in
  if (0 <? length activeOffchainNFTs)%nat
  then map toOffchainContextNFT activeOffchainNFTs
  else currentNFTs.

(** The updater [currentNFTs => ...] that [loadNFTData] hands to
    [setAllNFTs] once [onchainData] is there. *)
Definition mergeOnchainNFTs (onchainData : list LoadedNFT) (currentNFTs : list ContextNFT)
  : list ContextNFT :=
  let newOnchainNFTs :=
    map toOnchainContextNFT
        (filter (fun nft =>
                   negb (existsb (fun existing => id existing =? loaded_id nft) currentNFTs) &&
                   negb (JS.includes "onchain_reward_" (loaded_id nft)) &&
                   negb (loaded_status nft =? "reward_tracking"))
                onchainData) in
  if (0 <? length newOnchainNFTs)%nat then currentNFTs ++ newOnchainNFTs
  else currentNFTs.

End Loading.

End ViewMore.

(** ** Hybrid burn service: what the properties below speak of *)

Module BurnMore.

Import Burn.

(** The NFTs of a selection that a rarity group holds. *)
Definition ofRarity (r : string) (nft : NFTWithStatus) : bool :=
  JS.toLowerCase (rarity nft) =? r.

(** A list of groups is the grouping of a selection: one group for each
    rarity that occurs, holding the off-chain and the on-chain NFTs of that
    rarity in the order of the selection, and their number. *)
Definition groupingOf (nfts : list NFTWithStatus) (groups : list BurnGroup) : Prop :=
  NoDup (map group_rarity groups) /\
  (forall n, In n nfts -> In (JS.toLowerCase (rarity n)) (map group_rarity groups)) /\
  (forall g, In g groups ->
     offchainNFTs g
       = filter (fun n => ofRarity (group_rarity g) n && isOffchain (status n)) nfts /\
     onchainNFTs g
       = filter (fun n => ofRarity (group_rarity g) n && isOnchain (status n)) nfts /\
     totalCount g = Z.of_nat (length (filter (ofRarity (group_rarity g)) nfts)) /\
     (0 < totalCount g)%Z).

(** [rarityGroups] is a plain object.  A key that starts with a digit may
    be an array index, and [Object.values] lists those first, in ascending
    order; a key that names a property every object inherits
    ("constructor" and "__proto__" are the lower-case ones) is found
    before it is ever added.  A rarity is ordinary when it is ASCII text,
    on which [JS.toLowerCase] is the case mapping of the source, and its
    lower-cased form is neither. *)
Definition ordinaryRarity (rarity : string) : bool :=
  JS.isAscii rarity &&
  match rarity with
  | String c _ => negb ((48 <=? nat_of_ascii c)%nat && (nat_of_ascii c <=? 57)%nat)
  | EmptyString => true
  end &&
  negb (JS.toLowerCase rarity =? "constructor") &&
  negb (JS.toLowerCase rarity =? "__proto__").

(** A selection all of whose rarities are ordinary, judged by rules whose
    rarities are ASCII text. *)
Definition ordinarySelection (env : Env) (nfts : list NFTWithStatus) : bool :=
  forallb (fun nft => ordinaryRarity (rarity nft)) nfts &&
  forallb (fun rule => JS.isAscii (minRarity rule)) (getBurnRules env).


(** The transfer [burnOnchainNFTs] sends for an NFT. *)
Definition transferOf (env : Env) (account : option string) (nft : NFTWithStatus)
  : Transfer :=
  mkTransfer account BURN_ADDRESS (parseInt env (tokenIdOrId nft)).

(** The row [getResultNFTFromOffchainPool] adds to the collection. *)
Definition resultRow (walletAddress : string) (resultNFT : NFTData) : DistributionRow :=
  mkDistributionRow (nft_id resultNFT) (JS.toLowerCase walletAddress)
                    (nft_rarity resultNFT) (ipfs_hash resultNFT).

(** Three on-chain commons. *)
Definition onchain8 : NFTWithStatus :=
  mkNFT "onchain_8" "common" Onchain (Some "8") None None.

Definition onchain9 : NFTWithStatus :=
  mkNFT "onchain_9" "COMMON" Onchain (Some "9") None None.

Definition onchainSelection : list NFTWithStatus := [onchain7; onchain8; onchain9].

(** A world whose pool has no rare entry left. *)
Definition exhaustedWorld : World :=
  mkWorld 0 None [] (nft_cid_distribution_log sampleWorld)
          [mkPoolRow 1 "rare" true "cid-rare-1" "" "meta-rare-1" (Some "0xdd");
           mkPoolRow 3 "legendary" false "cid-legendary-3" "" "meta-legendary-3" None]
          [].

(** The database answers, but for its fourth round-trip. *)
Definition markFaultEnv : Env :=
  mkEnv (fun _ => Ok burnerWallet) sampleParseInt
        (fun _ _ => Ok 60000%Z) (fun _ => Ok 2000000000%Z)
        (fun _ _ _ => Ok "0xhash7")
        (fun t => if (t =? 3)%nat then Some "connection reset" else None)
        (fun t => "uuid-" ++ showZ (Z.of_nat t))
        (fun c => "https://ipfs.io/ipfs/" ++ c)
        [commonToRare]
        (fun _ _ => ret (mkBurnResult false None (Some "pure offchain burn"))).

End BurnMore.

(** ** Staking service: ids, rarity keywords and the validation before a stake *)

Module StakingMore.

Import Staking.

(** *** Token ids *)

Definition isDigit (c : ascii) : bool :=
  let n := nat_of_ascii c in (48 <=? n)%nat && (n <=? 57)%nat.

(** The digits a string starts with. *)
Fixpoint digitsAtStart (s : string) : string :=
  match s with
  | EmptyString => EmptyString
  | String c t => if isDigit c then String c (digitsAtStart t) else EmptyString
  end.

(** [s.match(/\d+/)]: the first run of digits, [None] ([null]) when the
    string has no digit. *)
Fixpoint matchDigits (s : string) : option string :=
  match s with
  | EmptyString => None
  | String c t => if isDigit c then Some (digitsAtStart s) else matchDigits t
  end.

(** Every character of a string passes a test. *)
Fixpoint everyChar (p : ascii -> bool) (s : string) : bool :=
  match s with
  | EmptyString => true
  | String c t => p c && everyChar p t
  end.

Definition noDigit (s : string) : bool := everyChar (fun c => negb (isDigit c)) s.

(** A string does not start with a digit. *)
Definition digitFree (s : string) : bool :=
  match s with
  | EmptyString => true
  | String c _ => negb (isDigit c)
  end.

(** [extractTokenId(nftId)] *)
Definition extractTokenId (nftId : string) : Reply string :=
  match matchDigits nftId with
  | None => Err "Invalid NFT ID format"
  | Some digits => Ok digits
  end.

(** [s.replace(pattern, '')] for a string pattern: the first occurrence is
    removed. *)
Fixpoint removeFirst (pattern s : string) : string :=
  if String.prefix pattern s
  then substring (String.length pattern) (String.length s - String.length pattern) s
  else match s with
       | EmptyString => EmptyString
       | String c t => String c (removeFirst pattern t)
       end.

(** The token id [stakeNFTOnChain] works with:
    [nftId.replace('onchain_', '')]. *)
Definition tokenIdOfNftId (nftId : string) : string := removeFirst "onchain_" nftId.

(** *** Rarity keywords *)

Definition rarityKeywords : list string :=
  ["legendary"; "rare"; "common"; "platinum"; "gold"; "silver"; "epic";
   "ultra rare"; "super rare"].

(** [extractRarityFromText(text)]; [None] is [null]. *)
Definition extractRarityFromText (text : string) : option string :=
  if negb (JS.truthy text) then None
  else
    let lowerText := JS.toLowerCase text in
    find (fun keyword => JS.includes keyword lowerText) rarityKeywords.

(** *** The validation before a stake *)

(** [CONTRACT_ADDRESSES.NFT_CONTRACT] (abis/index.ts, default value). *)
Definition NFT_CONTRACT : string := "0x5Bb23220cC12585264fCd144C448eF222c8572A2".

(** The chain node with the reads of the staking contract that the
    validation adds. *)
Record Node : Type := mkNode {
  chain : Chain;
  stakingToken : nat -> Reply string;
  paused : nat -> Reply bool;
  stakingEnabled : nat -> Reply bool
}.

(** Two states of the service between which calls were answered and
    nothing else happened: no request to the wallet, no write to the
    ledger, no wait. *)
Definition onlyAsked (w w' : World) : Prop :=
  (tick w <= tick w')%nat /\ clock w' = clock w /\ readOnlyWeb3 w' = readOnlyWeb3 w /\
  submitted w' = submitted w /\ staked_nfts w' = staked_nfts w.

Section Validation.

Variable node : Node.

(** [validateContractState()] *)
Definition validateContractState : M World unit :=
  tryCatch
    (tryCatch
       (isPaused <- ask (paused node) ;;
        if isPaused : bool
        then throw "Staking contract is currently paused. Please try again later."
        else ret tt)
       (fun pausedError => ret tt) ;;;
     tryCatch
       (enabled <- ask (stakingEnabled node) ;;
        if negb enabled
        then throw "Staking is currently disabled on the contract. Please try again later."
        else ret tt)
       (fun enabledError => ret tt) ;;;
     tryCatch
       (stakingToken <- ask (stakingToken node) ;; ret tt)
       (fun connectivityError =>
          throw "Cannot connect to staking contract. Please check your network connection."))
    (fun error => throw error).

Definition mismatchMessage (stakingTokenAddress : string) : string :=
  "Contract mismatch: Staking contract expects " ++ stakingTokenAddress
  ++ ", but trying to stake from " ++ NFT_CONTRACT.

(** Step 1 of [validateStakingRequirements]: the staking contract is
    configured for the NFT contract. *)
Definition checkConfiguration : M World unit :=
  tryCatch
    (stakingTokenAddress <- retryRPCCall (ask (stakingToken node)) 2 ;;
     if negb (JS.toLowerCase stakingTokenAddress =? JS.toLowerCase NFT_CONTRACT)
     then throw (mismatchMessage stakingTokenAddress)
     else ret tt)
    (fun configError =>
       if JS.includes "Internal JSON-RPC error" configError then ret tt
       else throw ("Staking contract configuration error: " ++ configError)).

(** Step 3: the NFT exists and the wallet owns it. *)
Definition verifyOwnership (walletAddress tokenId : string) : M World unit :=
  tryCatch
    (owner <- ask (fun t => ownerOf (chain node) t (TokStr tokenId)) ;;
     if negb (JS.toLowerCase owner =? JS.toLowerCase walletAddress) then
       if JS.toLowerCase owner =? JS.toLowerCase STAKING_CONTRACT
       then throw ("Token #" ++ tokenId ++ " is already staked by another user")
       else throw ("You don't own token #" ++ tokenId ++ ". Current owner: " ++ owner)
     else ret tt)
    (fun ownerError =>
       if JS.includes "ERC721: invalid token ID" ownerError
       then throw ("Token #" ++ tokenId ++ " does not exist on the NFT contract")
       else if JS.includes "already staked" ownerError || JS.includes "don't own" ownerError
       then throw ownerError
       else throw ("Cannot verify NFT ownership: " ++ ownerError)).

(** The approval check, run unless [skipApprovalCheck]. *)
Definition verifyApproval (walletAddress tokenId : string) : M World unit :=
  tryCatch
    (isApprovedForAll <-
       ask (fun t => isApprovedForAll (chain node) t walletAddress STAKING_CONTRACT) ;;
     isApproved <-
       (if negb isApprovedForAll then
          approvedAddress <- ask (fun t => getApproved (chain node) t (TokStr tokenId)) ;;
          ret (JS.toLowerCase approvedAddress =? JS.toLowerCase STAKING_CONTRACT)
        else ret isApprovedForAll) ;;
     if negb isApproved
     then throw "NFT not approved for staking contract. Please approve first."
     else ret tt)
    (fun approvalError => throw ("Cannot verify NFT approval: " ++ approvalError)).

(** [stakedTokenStrings.includes(tokenId)] *)
Definition listedAsStaked (tokenId : string) (stakeInfo : RawStakeInfo) : bool :=
  existsb (String.eqb tokenId) (map showZ (stakedTokensOf stakeInfo)).

(** Step 4: the token is not staked already. *)
Definition checkNotStaked (walletAddress tokenId : string) : M World unit :=
  tryCatch
    (stakeInfo <- ask (fun t => getStakeInfoCall (chain node) t walletAddress) ;;
     if listedAsStaked tokenId stakeInfo
     then throw ("Token #" ++ tokenId ++ " is already staked")
     else ret tt)
    (fun stakeCheckError =>
       if JS.includes "already staked" stakeCheckError then throw stakeCheckError
       else ret tt).

(** [validateStakingRequirements(walletAddress, tokenId, skipApprovalCheck)] *)
Definition validateStakingRequirements (walletAddress tokenId : string)
    (skipApprovalCheck : bool) : M World unit :=
  checkConfiguration ;;;
  verifyOwnership walletAddress tokenId ;;;
  (if negb skipApprovalCheck then verifyApproval walletAddress tokenId else ret tt) ;;;
  checkNotStaked walletAddress tokenId.

End Validation.

(** *** Sample nodes *)

(** A node whose staking contract is paused and has staking disabled. *)
Definition pausedNode : Node :=
  mkNode nothingStakedChain (fun _ => Ok NFT_CONTRACT) (fun _ => Ok true) (fun _ => Ok false).

(** The wallet has token 42 staked. *)
Definition stakedChain : Chain :=
  scriptedChain (fun _ => Ok userWallet) (Ok true) (Ok zeroAddress)
                (Err "Internal JSON-RPC error") (Err "Internal JSON-RPC error")
                (fun _ => Ok None)
                (Ok (mkRawStakeInfo (Some [42%Z; 7%Z]) None None None)).

(** *** The on-chain unstake *)

(** A withdrawal handed to the wallet for signature: the raw transaction
    or the contract method. *)
Inductive Withdrawal : Type :=
| RawWithdraw (from : string) (token : Z)
| ContractWithdraw (from : string) (token : Z).

(** What the unstake needs beside the chain node: the wallet's answer to
    [eth_requestAccounts] inside [initializeContracts] (which throws, or
    leaves [accounts[0]] in [this.userAccount] and the contracts set),
    [parseInt], the gas estimate of the withdrawal and its two ways of
    being sent. *)
Record Vault : Type := mkVault {
  vault_chain : Chain;
  requestAccounts : nat -> Reply (option string);
  parseInt : string -> option Z;
  estimateWithdrawGas : nat -> Z -> Reply Z;
  sendRawWithdraw : nat -> string -> Z -> Reply string;
  sendWithdraw : nat -> string -> Z -> Reply string
}.

(** The state of the service and the withdrawals its wallet was asked to
    sign, latest first. *)
Record Desk : Type := mkDesk {
  world : World;
  withdrawals : list Withdrawal
}.

(** A step of the service that asks for no withdrawal. *)
Definition lift {A} (m : M World A) : M Desk A :=
  fun d => let (r, w') := m (world d) in (r, mkDesk w' (withdrawals d)).

(** A withdrawal: the request is handed to the wallet, then awaited. *)
Definition request {A} (withdrawal : Withdrawal) (oracle : nat -> Reply A) : M Desk A :=
  modify (fun d => mkDesk (world d) (withdrawal :: withdrawals d)) ;;;
  lift (ask oracle).

(** [StakingResponse] as [unstakeNFTOnChain] fills it. *)
Record UnstakeResponse : Type := mkUnstakeResponse {
  unstake_success : bool;
  unstake_message : string;
  unstake_error : option string;
  unstake_transactionHash : option string
}.

(** [userMessage] of the [catch] of [unstakeNFTOnChain]; its second test
    for 'not currently staked' follows the first. *)
Definition unstakeUserMessage (message : string) : string :=
  if JS.includes "User denied" message then "Transaction was cancelled by user"
  else if JS.includes "insufficient funds" message then "Insufficient MATIC for gas fees"
  else if JS.includes "Parameter decoding error" message || JS.includes "AbiError" message
       then "Contract parameter error - please try again or contact support"
  else if JS.includes "not currently staked" message then message
  else if JS.includes "not currently staked" message
       then "NFT is not currently staked onchain"
  else message.

Section Unstake.

Variable vault : Vault.

(** [stakedTokenStrings.includes(tokenId) ||
     stakedTokenStrings.includes(numericTokenId.toString()) ||
     stakedTokens.some(token => parseInt(token) === numericTokenId)] *)
Definition isStakedFor (tokenId : string) (numericTokenId : Z) (stakedTokens : list Z)
  : bool :=
  let stakedTokenStrings := map showZ stakedTokens in
  existsb (String.eqb tokenId) stakedTokenStrings ||
  existsb (String.eqb (showZ numericTokenId)) stakedTokenStrings ||
  existsb (fun token => match parseInt vault (showZ token) with
                        | Some n => (n =? numericTokenId)%Z
                        | None => false
                        end) stakedTokens.

Definition notStakedMessage (tokenId : string) (numericTokenId : Z) (stakedTokens : list Z)
  : string :=
  "Token #" ++ tokenId ++ " is not currently staked onchain. Staked tokens: ["
  ++ String.concat ", " (map showZ stakedTokens) ++ "]. Searched for: " ++ tokenId
  ++ ", " ++ showZ numericTokenId.

(** The gas parameters: the price and the estimate are read, and fixed
    values are used when a read fails; they only parameterise the
    request. *)
Definition withdrawGas (numericTokenId : Z) : M Desk unit :=
  tryCatch
    (lift (ask (getGasPrice (vault_chain vault))) ;;;
     lift (ask (fun t => estimateWithdrawGas vault t numericTokenId)) ;;;
     ret tt)
    (fun gasError => ret tt).

(** After a decode error of the contract call: the latest block is
    searched for a transaction of the account to the staking contract. *)
Definition findWithdrawTransaction (userAccount contractError : string) : M Desk string :=
  latestBlock <- lift (ask (getBlockNumber (vault_chain vault))) ;;
  block <- lift (ask (fun t => getBlock (vault_chain vault) t latestBlock)) ;;
  match block with
  | None => throw "Cannot read properties of null (reading 'transactions')"
  | Some block =>
      match transactions block with
      | None => throw contractError
      | Some txs =>
          match find (isStakeTxOf userAccount) txs with
          | Some recentTx => ret (tx_hash recentTx)
          | None => throw contractError
          end
      end
  end.

(** The write: raw transaction first, contract method as the fallback. *)
Definition sendWithdrawTransaction (userAccount : string) (numericTokenId : Z)
  : M Desk string :=
  tryCatch
    (request (RawWithdraw userAccount numericTokenId)
             (fun t => sendRawWithdraw vault t userAccount numericTokenId))
    (fun sendError =>
       tryCatch
         (request (ContractWithdraw userAccount numericTokenId)
                  (fun t => sendWithdraw vault t userAccount numericTokenId))
         (fun contractError =>
            if JS.truthy contractError &&
               JS.includes "Parameter decoding error" contractError
            then findWithdrawTransaction userAccount contractError
            else throw contractError)).

(** [unstakeNFTOnChain(walletAddress, tokenId)] *)
Definition unstakeNFTOnChain (walletAddress tokenId : string) : M Desk UnstakeResponse :=
  tryCatch
    (account <- lift (ask (requestAccounts vault)) ;;
     match account with
     | None => throw "Contracts not initialized or user not connected"
     | Some userAccount =>
         if negb (JS.truthy userAccount)
         then throw "Contracts not initialized or user not connected"
         else
           match parseInt vault tokenId with
           | None => throw ("Invalid token ID: " ++ tokenId ++ ". Must be a positive integer.")
           | Some numericTokenId =>
               if (numericTokenId <? 0)%Z
               then throw ("Invalid token ID: " ++ tokenId ++ ". Must be a positive integer.")
               else
                 formattedAddress <-
                   liftReply (toChecksumAddress (vault_chain vault) walletAddress) ;;
                 stakeInfo <-
                   lift (ask (fun t => getStakeInfoCall (vault_chain vault) t
                                                        formattedAddress)) ;;
                 let stakedTokens := stakedTokensOf stakeInfo in
                 if negb (isStakedFor tokenId numericTokenId stakedTokens)
                 then throw (notStakedMessage tokenId numericTokenId stakedTokens)
                 else
                   withdrawGas numericTokenId ;;;
                   txHash <- sendWithdrawTransaction userAccount numericTokenId ;;
                   receipt <-
                     lift (waitForTransactionReceiptSafe (vault_chain vault) txHash 60000) ;;
                   if receiptFailed receipt
                   then throw "Transaction failed on blockchain - check transaction on explorer for details"
                   else
                     lift (updateOffchainStakingRecord (vault_chain vault) walletAddress
                                                       tokenId StatusUnstaked) ;;;
                     ret (mkUnstakeResponse true "NFT unstaked successfully from blockchain"
                                            None (Some (transactionHash receipt)))
           end
     end)
    (fun error =>
       ret (mkUnstakeResponse false (unstakeUserMessage error) (Some error) None)).

End Unstake.

(** *** Recovering the on-chain stakes into the ledger *)

(** What [recoverOnchainStakedNFTs] resolves to. *)
Record RecoveryResult : Type := mkRecoveryResult {
  recovery_success : bool;
  recovered : nat;
  recovery_error : option string
}.

Section Recovery.

Variable chain : Chain.

(** [stakingContract.methods.stakes(tokenId).call()]: the time stamp of
    the stake ([stakeDetails.timestamp || stakeDetails[1]]), in seconds; a
    rejection stands for a read that failed or a time stamp of which
    [toISOString] makes no date. *)
Variable stakes : nat -> string -> Reply Z.

(** The rows of the wallet's on-chain stakes. *)
Definition isOnchainStakeOf (walletAddress : string) (r : StakeRecord) : bool :=
  (Staking.walletAddress r =? JS.toLowerCase walletAddress) && (source r =? "onchain").

(** [supabase.from('staked_nfts').select('nft_id').eq(...).eq(...)]
    followed by [existingStakes || []]: a failed select is logged and
    leaves no rows. *)
Definition selectOnchainStakes (walletAddress : string) : M World (list StakeRecord) :=
  fun w =>
    match databaseFault chain (tick w) with
    | Some fetchError => (Ret [], advance w)
    | None => (Ret (filter (isOnchainStakeOf walletAddress) (staked_nfts w)), advance w)
    end.

(** [supabase.from('staked_nfts').insert(stakeRecord)]: whether there was
    no [insertError]. *)
Definition insertStake (stakeRecord : StakeRecord) : M World bool :=
  fun w =>
    match databaseFault chain (tick w) with
    | Some insertError => (Ret false, advance w)
    | None =>
        (Ret true,
         mkWorld (S (tick w)) (clock w) (readOnlyWeb3 w) (submitted w)
                 (staked_nfts w ++ [stakeRecord]))
    end.

(** The record made for a token the ledger misses. *)
Definition recoveredRecord (walletAddress tokenId : string) (stakeTimestamp : Z)
  : StakeRecord :=
  mkStakeRecord ("onchain_" ++ tokenId) (JS.toLowerCase walletAddress) "Common" 0
                (stakeTimestamp * 1000) None "onchain".

(** [for (const tokenId of stakeInfo.stakedNFTs)]: the value of
    [recovered] at its end. *)
Fixpoint recoverEach (walletAddress : string) (existingTokenIds tokenIds : list string)
    (recovered : nat) : M World nat :=
  match tokenIds with
  | [] => ret recovered
  | tokenId :: rest =>
      if existsb (String.eqb tokenId) existingTokenIds
      then recoverEach walletAddress existingTokenIds rest recovered
      else
        inserted <- tryCatch
                      (stakeTimestamp <- ask (fun t => stakes t tokenId) ;;
                       insertStake (recoveredRecord walletAddress tokenId stakeTimestamp))
                      (fun tokenError => ret false) ;;
        recoverEach walletAddress existingTokenIds rest
                    (if inserted : bool then S recovered else recovered)
  end.

(** [recoverOnchainStakedNFTs(walletAddress)] *)
Definition recoverOnchainStakedNFTs (walletAddress : string) : M World RecoveryResult :=
  tryCatch
    (stakeInfo <- getStakeInfo chain walletAddress ;;
     if (length (stakedNFTs stakeInfo) =? 0)%nat
     then ret (mkRecoveryResult true 0 None)
     else
       existingStakes <- selectOnchainStakes walletAddress ;;
       let existingTokenIds :=
         map (fun stake => tokenIdOfNftId (nftRef stake)) existingStakes in
       recovered <- recoverEach walletAddress existingTokenIds (stakedNFTs stakeInfo) 0 ;;
       ret (mkRecoveryResult true recovered None))
    (fun error => ret (mkRecoveryResult false 0 (Some error))).

End Recovery.

(** A vault on [stakedChain]: the wallet answers with the user's account,
    and every send goes through. *)
Definition sampleVault : Vault :=
  mkVault stakedChain (fun _ => Ok (Some userWallet)) Burn.sampleParseInt
          (fun _ _ => Ok 90000%Z) (fun _ _ _ => Ok "0xwithdraw") (fun _ _ _ => Ok "0xwithdraw").

Definition freshDesk : Desk := mkDesk freshWorld [].




End StakingMore.

(** * Properties *)

(** ** Strings *)

Module JSFacts.

Lemma toUpperChar_idempotent (c : ascii) :
  JS.toUpperChar (JS.toUpperChar c) = JS.toUpperChar c.
Proof.
  destruct c as [[] [] [] [] [] [] [] []]; reflexivity.
Qed.




End JSFacts.

(** ** Rarity normalisation *)

Module NormalizeRarity.

Import Staking.
















End NormalizeRarity.

(** ** The optimistic view *)

Module ViewFacts.

Import View.

Lemma mutation_keeps_length (c : Call) (st : ViewState) :
  isMutation c = true -> length (allNFTs (handle c st)) = length (allNFTs st).
Proof.
  destruct c; simpl; intros H; try discriminate; apply length_map.
Qed.

Lemma mutation_snapshots_closure (rendered : ViewState) (c : Call) (st : ViewState) :
  isMutation c = true -> backupState (handleFrom rendered c st) = allNFTs rendered.
Proof.
  destruct c; cbn; intros H; try discriminate; reflexivity.
Qed.

Lemma mutation_view_ignores_closure (rendered : ViewState) (c : Call) (st : ViewState) :
  isMutation c = true -> allNFTs (handleFrom rendered c st) = allNFTs (handle c st).
Proof.
  destruct c; cbn; intros H; try discriminate; reflexivity.
Qed.

(** C7, as the specification has it, fails: taken from the render that
    also handed out the stake, the revert still holds the snapshot of that
    render, which is empty, and leaves the staked view as it is. *)
Lemma revert_of_the_same_render_does_nothing :
  backupState sampleView = [] /\
  allNFTs (handleFrom sampleView CallRevert
             (handleFrom sampleView (CallStake ["nft-1"] source_offchain 1000) sampleView))
    = allNFTs sampleStaked /\
  allNFTs sampleStaked <> allNFTs sampleView.
Proof.
  repeat split; try reflexivity. vm_compute. discriminate.
Qed.

(** C7, amended. For every cached view and every optimistic stake made
    through the callback of the current render, the revert callback of a
    render that follows the stake (one that holds the snapshot the stake
    saved) gives back the list of assets exactly as it was: every asset has
    its status, stake flag, staking source and stake time stamp of before
    the mutation. *)
Theorem stake_then_later_revert_restores
    (rendered later st : ViewState) (nftIds : list string)
    (stakingSource : StakingSource) (now : Z) :
  allNFTs rendered = allNFTs st ->
  backupState later
    = backupState (handleFrom rendered (CallStake nftIds stakingSource now) st) ->
  allNFTs (handleFrom later CallRevert
             (handleFrom rendered (CallStake nftIds stakingSource now) st))
  = allNFTs st.
Proof.
  intros Current Holds. cbn [handleFrom] in *. unfold revertOptimisticUpdate.
  rewrite Holds. unfold optimisticStake. cbn [backupState allNFTs]. rewrite Current.
  destruct (allNFTs st) as [|nft rest]; reflexivity.
Qed.

Lemma stake_then_later_revert_restores_witness :
  allNFTs (handleFrom sampleStaked CallRevert
             (handleFrom sampleView (CallStake ["nft-1"] source_offchain 1000) sampleView))
  = allNFTs sampleView.
Proof.
  apply (stake_then_later_revert_restores sampleView sampleStaked sampleView);
    reflexivity.
Defined.

(** C4, as the specification has it, fails: with an optimistic stake of
    "nft-1" outstanding, an optimistic update of the same asset changes the
    cached view and replaces the saved snapshot. *)
Lemma second_mutation_changes_view_and_snapshot :
  isMutation (CallStake ["nft-1"] source_offchain 1000) = true /\
  backupState sampleStaked = allNFTs sampleView /\
  allNFTs (handle (CallUpdate "nft-1" sampleUpdates 2000) sampleStaked)
    <> allNFTs sampleStaked /\
  backupState (handle (CallUpdate "nft-1" sampleUpdates 2000) sampleStaked)
    <> backupState sampleStaked.
Proof.
  repeat split; try reflexivity; vm_compute; discriminate.
Qed.

(** C4, amended. A second optimistic mutation made while one is
    outstanding is not rejected: whatever render its callback comes from,
    it is applied to the cached view as a first one would be, it keeps the
    list as long as it was and marks the state as holding optimistic
    updates.  The snapshot it saves, in place of the saved one, is the list
    its callback closed over. *)
Theorem second_mutation_is_applied
    (render1 render2 st : ViewState) (first second : Call) :
  isMutation first = true -> isMutation second = true ->
  let st1 := handleFrom render1 first st in
  let st2 := handleFrom render2 second st1 in
  allNFTs st2 = allNFTs (handle second st1) /\
  length (allNFTs st2) = length (allNFTs st) /\
  hasOptimisticUpdates st2 = true /\
  backupState st2 = allNFTs render2.
Proof.
  intros H1 H2 st1 st2. subst st1 st2.
  split; [now apply mutation_view_ignores_closure|].
  split.
  - rewrite (mutation_view_ignores_closure render2 second _ H2),
      (mutation_keeps_length second _ H2),
      (mutation_view_ignores_closure render1 first _ H1).
    now apply mutation_keeps_length.
  - split; [destruct second; try discriminate; reflexivity|].
    now apply mutation_snapshots_closure.
Qed.

Lemma second_mutation_is_applied_witness :
  allNFTs (handleFrom sampleView (CallUpdate "nft-1" sampleUpdates 2000) sampleStaked)
    = allNFTs (handle (CallUpdate "nft-1" sampleUpdates 2000) sampleStaked) /\
  backupState (handleFrom sampleView (CallUpdate "nft-1" sampleUpdates 2000) sampleStaked)
    = allNFTs sampleView.
Proof.
  destruct (second_mutation_is_applied sampleView sampleView sampleView
              (CallStake ["nft-1"] source_offchain 1000)
              (CallUpdate "nft-1" sampleUpdates 2000) eq_refl eq_refl)
    as (Applied & _ & _ & Saved).
  split; [exact Applied | exact Saved].
Defined.

End ViewFacts.

(** ** Staking service *)

Module StakingFacts.

Import Staking.

Ltac run :=
  cbv beta iota zeta
      delta [bind tryCatch ret throw outOfFuel get modify liftReply ask sleep submit
             negb] in *.

(** *** Reads *)

Lemma retryRPCCall_single_attempt {A} (operation : M World A) (n : nat) (w : World) :
  readOnlyWeb3 w = true -> retryRPCCall operation n w = operation w.
Proof.
  intros H. unfold retryRPCCall. run. rewrite H. cbn.
  destruct (operation w) as [[a|e|] w']; reflexivity.
Qed.

Lemma getStakeInfoRead_cases (chain : Chain) (wallet : string) (w : World) :
  exists r w', getStakeInfoRead chain wallet w = (r, w') /\
               r <> OutOfFuel /\ (tick w' <= tick w + 2)%nat.
Proof.
  unfold getStakeInfoRead. run.
  destruct (initializeContracts chain (tick w)) as [[]|e].
  - destruct (toChecksumAddress chain wallet) as [a|e]; run.
    + destruct (getStakeInfoCall chain (tick (advance w)) a) as [info|e];
        eexists; eexists; (split; [reflexivity | split; [discriminate | simpl; lia]]).
    + eexists; eexists; (split; [reflexivity | split; [discriminate | simpl; lia]]).
  - eexists; eexists; (split; [reflexivity | split; [discriminate | simpl; lia]]).
Qed.

(** C5, as the specification has it, fails: the stake information cannot
    be read on [unreachableChain], and [getStakeInfo] answers with the very
    value it gives for a wallet that has nothing staked. *)
Lemma read_failure_reported_as_nothing_staked :
  fst (getStakeInfoRead unreachableChain userWallet freshWorld) = Throw "Failed to fetch" /\
  fst (getStakeInfo unreachableChain userWallet freshWorld)
    = Ret (mkStakeInfo [] "0") /\
  fst (getStakeInfo unreachableChain userWallet freshWorld)
    = fst (getStakeInfo nothingStakedChain userWallet freshWorld) /\
  fst (getStakedNFTsOnChain unreachableChain userWallet freshWorld) = Ret [].
Proof.
  repeat split; reflexivity.
Qed.

(** C5, amended. [getStakeInfo] reads the contract at most once (it
    consults the outside world at most twice: to set the contracts up and
    for the one call), never throws, and answers a read that failed with
    the definite value "no staked tokens, rewards 0". *)
Theorem getStakeInfo_failure_is_empty (chain : Chain) (wallet : string) (w : World) :
  (exists info w', getStakeInfo chain wallet w = (Ret info, w') /\
                   (tick w' <= tick w + 2)%nat) /\
  (forall e w', getStakeInfoRead chain wallet w = (Throw e, w') ->
                getStakeInfo chain wallet w = (Ret (mkStakeInfo [] "0"), w')).
Proof.
  split.
  - destruct (getStakeInfoRead_cases chain wallet w) as (r & w' & E & Hr & Ht).
    unfold getStakeInfo, tryCatch. rewrite E.
    destruct r as [info|e|]; [| |contradiction]; eexists; eexists; split;
      try reflexivity; exact Ht.
  - intros e w' E. unfold getStakeInfo, tryCatch. now rewrite E.
Qed.

Lemma getStakeInfo_failure_is_empty_witness :
  exists w', getStakeInfo unreachableChain userWallet freshWorld
             = (Ret (mkStakeInfo [] "0"), w').
Proof.
  eexists.
  apply (proj2 (getStakeInfo_failure_is_empty unreachableChain userWallet freshWorld)
           "Failed to fetch").
  reflexivity.
Defined.

(** *** Approval *)

Section Approval.

Variable chain : Chain.
Variables walletAddress tokenId : string.

Ltac settle :=
  eexists; refine (conj _ (conj _ _));
  [ | | first [left; reflexivity | right; reflexivity] ];
  first [reflexivity | assumption | (simpl; assumption)].

Lemma checkApprovedForAll_cases (w : World) :
  exists w', submitted w' = submitted w /\ readOnlyWeb3 w' = readOnlyWeb3 w /\
    (checkApprovedForAll chain walletAddress w = (Ret (Return true), w') \/
     checkApprovedForAll chain walletAddress w = (Ret (Next false), w')).
Proof.
  unfold checkApprovedForAll, retryRPCCall. run.
  destruct (readOnlyWeb3 w) eqn:R; run; [|settle].
  destruct (isApprovedForAll chain (tick w) walletAddress STAKING_CONTRACT) as [[]|e];
    run; try settle.
  destruct (JS.truthy e && JS.includes "Internal JSON-RPC error" e); settle.
Qed.

Lemma checkIndividualApproval_cases (w : World) :
  exists w', submitted w' = submitted w /\ readOnlyWeb3 w' = readOnlyWeb3 w /\
    (checkIndividualApproval chain tokenId w = (Ret (Return true), w') \/
     checkIndividualApproval chain tokenId w = (Ret (Next false), w')).
Proof.
  unfold checkIndividualApproval, retryRPCCall. run.
  destruct (readOnlyWeb3 w) eqn:R; run; [|settle].
  destruct (getApproved chain (tick w) (TokStr tokenId)) as [a|e]; run; [|settle].
  destruct (JS.toLowerCase a =? JS.toLowerCase STAKING_CONTRACT) eqn:E; settle.
Qed.

(** Every pass through the loop ends in [return true], and asks the wallet
    for nothing. *)
Lemma approvalAttempt_returns_true (attempt : nat) (w : World) :
  exists w', approvalAttempt chain walletAddress tokenId attempt w
             = (Ret (Return true), w') /\
             submitted w' = submitted w.
Proof.
  unfold approvalAttempt.
  destruct (checkApprovedForAll_cases w) as (w1 & S1 & R1 & [E1 | E1]).
  - exists w1. split; [|exact S1]. unfold bind, tryCatch. rewrite E1. reflexivity.
  - destruct (checkIndividualApproval_cases w1) as (w2 & S2 & R2 & [E2 | E2]);
      exists w2; (split; [|congruence]);
      unfold bind, tryCatch; rewrite E1, E2; reflexivity.
Qed.

Lemma validateConnectivity_cases (w : World) :
  exists w', submitted w' = submitted w /\
    (validateConnectivity chain walletAddress tokenId w = (Ret tt, w') \/
     exists e, validateConnectivity chain walletAddress tokenId w
               = (Throw ("Contract validation failed: " ++ e), w')).
Proof.
  assert (finish : forall r w',
             submitted w' = submitted w ->
             (r = Ret tt \/ exists e, r = Throw ("Contract validation failed: " ++ e)) ->
             exists w'', submitted w'' = submitted w /\
               ((r, w') = (Ret tt, w'') \/
                exists e, (r, w') = (Throw ("Contract validation failed: " ++ e), w''))).
  { intros r w' S [-> | [e ->]]; exists w'; (split; [exact S|]);
      [left | right; exists e]; reflexivity. }
  unfold validateConnectivity, retryRPCCall. run.
  destruct (readOnlyWeb3 w); run.
  - destruct (ownerOf chain (tick w) (TokStr tokenId)) as [owner|e]; run.
    + destruct (JS.toLowerCase owner =? JS.toLowerCase walletAddress); cbn [negb]; run;
        apply finish; try reflexivity; [now left | right; eexists; reflexivity].
    + apply finish; [reflexivity | right; eexists; reflexivity].
  - apply finish; [reflexivity | right; eexists; reflexivity].
Qed.

End Approval.

(** Once neither read has confirmed an approval, the test that follows
    the two reads holds, whatever they answered: [checkAndHandleApproval]
    either throws out of its opening validation or returns [true], and in
    neither case has it asked the wallet for an approval. *)
Lemma checkAndHandleApproval_asks_the_wallet_for_nothing
    (chain : Chain) (walletAddress tokenId : string) (w w' : World) (r : Outcome bool) :
  checkAndHandleApproval chain walletAddress tokenId w = (r, w') ->
  submitted w' = submitted w /\
  (r = Ret true \/ exists e, r = Throw ("Contract validation failed: " ++ e)).
Proof.
  unfold checkAndHandleApproval, bind.
  destruct (validateConnectivity_cases chain walletAddress tokenId w)
    as (w1 & S1 & [E | [e E]]); rewrite E.
  - simpl.
    destruct (approvalAttempt_returns_true chain walletAddress tokenId 0 w1)
      as (w2 & E2 & S2).
    unfold bind. rewrite E2. unfold ret. intros H. inversion H; subst.
    split; [congruence | now left].
  - intros H. inversion H; subst. split; [exact S1 | right; now exists e].
Qed.

Example unapproved_token_passes_on_notApprovedChain :
  checkAndHandleApproval notApprovedChain userWallet "42" freshWorld
  = (Ret true, mkWorld 3 0 true [] []).
Proof. reflexivity. Qed.




(** *** The stake transaction *)

Section StakeTransaction.

Variable chain : Chain.
Variable hash : string.

Hypothesis no_receipt : forall t,
  getTransactionReceipt chain t hash = Ok None \/
  exists e, getTransactionReceipt chain t hash = Err e.

Lemma pollReceipt_sleeps (w : World) :
  exists w', pollReceipt chain hash w = (Ret (Next tt), w') /\
             clock w' = (clock w + 2000)%Z.
Proof.
  unfold pollReceipt. run.
  destruct (no_receipt (tick w)) as [E | [e E]]; rewrite E; run;
    eexists; split; reflexivity.
Qed.

Lemma waitForReceiptLoop_times_out (startTime timeoutMs : Z) (fuel : nat) :
  forall w,
    (timeoutMs - (clock w - startTime) <= 2000 * Z.of_nat fuel)%Z ->
    exists w', waitForReceiptLoop chain fuel hash startTime timeoutMs w
               = (Throw ("Transaction receipt timeout after " ++ showZ timeoutMs
                         ++ "ms for tx: " ++ hash), w').
Proof.
  induction fuel as [|fuel IH]; intros w H.
  - cbn [waitForReceiptLoop]. run.
    destruct (Z.ltb_spec (clock w - startTime) timeoutMs) as [L|L]; [lia|].
    eexists. reflexivity.
  - cbn [waitForReceiptLoop]. run.
    destruct (Z.ltb_spec (clock w - startTime) timeoutMs) as [L|L].
    + destruct (pollReceipt_sleeps w) as (w1 & E & C). rewrite E.
      apply IH. rewrite C. lia.
    + eexists. reflexivity.
Qed.

Lemma waitForTransactionReceiptSafe_times_out (timeoutMs : Z) (w : World) :
  exists w', waitForTransactionReceiptSafe chain hash timeoutMs w
             = (Throw ("Transaction receipt timeout after " ++ showZ timeoutMs
                       ++ "ms for tx: " ++ hash), w').
Proof.
  unfold waitForTransactionReceiptSafe. run.
  apply waitForReceiptLoop_times_out.
  destruct (Z.le_gt_cases 0 timeoutMs) as [P|N].
  - rewrite Nat2Z.inj_succ, Z2Nat.id by (apply Z.div_pos; lia).
    pose proof (Z.mul_succ_div_gt timeoutMs 2000 ltac:(lia)). lia.
  - lia.
Qed.

End StakeTransaction.

(** With the placeholder hash of the ownership check and no receipt under
    it, the wait for the receipt runs into its timeout and
    [stakeNFTOnChain] throws. *)
Lemma placeholder_hash_runs_into_the_timeout
    (chain : Chain) (userAccount : string) (numericTokenId : Z) (w w1 : World) :
  (forall t,
     getTransactionReceipt chain t "success_via_ownership_check" = Ok None \/
     exists e, getTransactionReceipt chain t "success_via_ownership_check" = Err e) ->
  stakeAttempts chain maxTxRetries userAccount numericTokenId 1 w
    = (Ret (mkStakeTx "success_via_ownership_check"), w1) ->
  exists w2,
    stakeNFTOnChain_transaction chain userAccount numericTokenId w
    = (Throw placeholderTimeout, w2).
Proof.
  intros no_receipt attempts.
  destruct (waitForTransactionReceiptSafe_times_out
              chain "success_via_ownership_check" no_receipt 60000 w1) as (w2 & E).
  exists w2. unfold stakeNFTOnChain_transaction. run.
  rewrite attempts. cbn [txHash]. rewrite E. reflexivity.
Qed.

Example placeholder_hash_on_decodeErrorChain :
  exists w2,
    stakeNFTOnChain_transaction decodeErrorChain userWallet 42 freshWorld
    = (Throw placeholderTimeout, w2).
Proof.
  apply (placeholder_hash_runs_into_the_timeout decodeErrorChain userWallet 42 freshWorld
           (snd (stakeAttempts decodeErrorChain maxTxRetries userWallet 42 1 freshWorld))).
  - intros t. right. eexists. reflexivity.
  - vm_compute. reflexivity.
Qed.

(** The recovery itself does what the comment above it says: with no
    matching transaction in the three latest blocks, an owner read that
    shows the staking contract makes the write count as done. *)
Lemma recovery_by_ownership (chain : Chain) (userAccount owner contractError : string)
    (numericTokenId latestBlock : Z) (w w1 : World) :
  getBlockNumber chain (tick w) = Ok latestBlock ->
  scanRecentBlocks chain userAccount latestBlock [0; 1; 2]%Z (advance w) = (Ret None, w1) ->
  ownerOf chain (tick w1) (TokNum numericTokenId) = Ok owner ->
  JS.toLowerCase owner = JS.toLowerCase STAKING_CONTRACT ->
  fst (recoverStakeTransaction chain userAccount numericTokenId contractError w)
  = Ret (mkStakeTx "success_via_ownership_check").
Proof.
  intros B S O L. unfold recoverStakeTransaction. run.
  rewrite B. rewrite S. cbn [notFound]. run. cbn [tick]. rewrite O. run.
  rewrite L, String.eqb_refl. reflexivity.
Qed.

Lemma recovery_by_scan (chain : Chain) (userAccount found contractError : string)
    (numericTokenId latestBlock : Z) (w w1 : World) :
  getBlockNumber chain (tick w) = Ok latestBlock ->
  scanRecentBlocks chain userAccount latestBlock [0; 1; 2]%Z (advance w)
    = (Ret (Some found), w1) ->
  found <> "" ->
  recoverStakeTransaction chain userAccount numericTokenId contractError w
  = (Ret (mkStakeTx found), w1).
Proof.
  intros B S F. unfold recoverStakeTransaction. run.
  rewrite B. rewrite S. cbn [notFound].
  destruct found; [contradiction | reflexivity].
Qed.

(** *** A decode error of the stake write *)

Section DecodeError.

Variable chain : Chain.
Variables userAccount owner rawError contractError : string.
Variable numericTokenId : Z.
Variable w : World.

Hypothesis Owner : ownerOf chain (tick w) (TokNum numericTokenId) = Ok owner.
Hypothesis Mine : JS.toLowerCase owner = JS.toLowerCase userAccount.
Hypothesis Approved :
  isApprovedForAll chain (S (tick w)) userAccount STAKING_CONTRACT = Ok true.
Hypothesis Raw :
  sendTransaction chain (S (S (tick w))) userAccount numericTokenId = Err rawError.
Hypothesis Contract :
  sendStake chain (S (S (S (tick w)))) userAccount numericTokenId = Err contractError.
Hypothesis Decode : isDecodeError contractError = true.




End DecodeError.





(** *** The staking ledger *)

Lemma markUnstaked_same_fields (walletAddress nftId : string) (now : Z) (r : StakeRecord) :
  sameStakeTimeFields r (markUnstaked walletAddress nftId now r).
Proof.
  unfold markUnstaked, sameStakeTimeFields.
  destruct (isLiveRecordOf walletAddress nftId r); simpl; repeat split.
Qed.

Lemma sameStakeTimeFields_refl (r : StakeRecord) : sameStakeTimeFields r r.
Proof. unfold sameStakeTimeFields. repeat split. Qed.

Lemma Forall2_same_refl (l : list StakeRecord) : Forall2 sameStakeTimeFields l l.
Proof. induction l; constructor; auto using sameStakeTimeFields_refl. Qed.

Lemma Forall2_same_mark (walletAddress nftId : string) (now : Z) (l : list StakeRecord) :
  Forall2 sameStakeTimeFields l (map (markUnstaked walletAddress nftId now) l).
Proof. induction l; simpl; constructor; auto using markUnstaked_same_fields. Qed.

Section Ledger.

Variable chain : Chain.
Variable walletAddress : string.

Lemma unstakeNFT_cases (nftId : string) (w : World) :
  exists r w', unstakeNFT chain walletAddress nftId w = (r, w') /\
    r <> OutOfFuel /\
    Forall2 sameStakeTimeFields (staked_nfts w) (staked_nfts w') /\
    (forall a, r = Ret a -> response_success a = false ->
               staked_nfts w' = staked_nfts w).
Proof.
  unfold unstakeNFT.
  destruct (databaseFault chain (tick w)) as [e|].
  - eexists; eexists; split; [reflexivity|]. split; [discriminate|].
    split; [apply Forall2_same_refl|]. intros a H. discriminate.
  - destruct (existsb (isLiveRecordOf walletAddress nftId) (staked_nfts w)).
    + eexists; eexists; split; [reflexivity|]. split; [discriminate|].
      split; [apply Forall2_same_mark|]. intros a H. inversion H; subst. discriminate.
    + eexists; eexists; split; [reflexivity|]. split; [discriminate|].
      split; [apply Forall2_same_refl|]. reflexivity.
Qed.

Lemma Forall2_same_trans (l1 l2 l3 : list StakeRecord) :
  Forall2 sameStakeTimeFields l1 l2 -> Forall2 sameStakeTimeFields l2 l3 ->
  Forall2 sameStakeTimeFields l1 l3.
Proof.
  intros H. revert l3. induction H as [|a b l1 l2 Hab H IH]; intros l3 H3.
  - inversion H3. constructor.
  - inversion H3 as [|b' c l2' l3' Hbc H']; subst. constructor; [|now apply IH].
    unfold sameStakeTimeFields in *. intuition congruence.
Qed.

Lemma updateByPossibleIds_keeps_records (status : StakeStatus) (ids : list string) :
  forall w, exists updated w',
    updateByPossibleIds chain walletAddress status ids w = (Ret updated, w') /\
    Forall2 sameStakeTimeFields (staked_nfts w) (staked_nfts w').
Proof.
  induction ids as [|id rest IH]; intros w.
  - exists false, w. split; [reflexivity | apply Forall2_same_refl].
  - cbn [updateByPossibleIds]. destruct status.
    + run. apply IH.
    + run.
      destruct (unstakeNFT_cases id w) as (r & w1 & E & NF & F & _). rewrite E.
      destruct r as [a|e|]; [| |contradiction].
      * destruct (response_success a).
        -- exists true, w1. split; [reflexivity | exact F].
        -- destruct (IH w1) as (u & w2 & E2 & F2). rewrite E2.
           exists u, w2. split; [reflexivity|]. eapply Forall2_same_trans; eassumption.
      * destruct (IH w1) as (u & w2 & E2 & F2). rewrite E2.
        exists u, w2. split; [reflexivity|]. eapply Forall2_same_trans; eassumption.
Qed.

End Ledger.




End StakingFacts.

(** ** Hybrid burn service *)

Module BurnFacts.

Import Burn.

Ltac run :=
  cbv beta iota zeta
      delta [bind tryCatch ret throw outOfFuel get modify liftReply
             Burn.ask setUserAccount recordTransfer dbCall negb] in *.

(** *** The on-chain burn writes to no table *)

Section Frame.

Variable env : Env.

Lemma burnOneOnchainNFT_frame (nft : NFTWithStatus) (w w' : World) (r : Outcome string) :
  burnOneOnchainNFT env nft w = (r, w') -> tables w' = tables w.
Proof.
  unfold burnOneOnchainNFT. run.
  destruct (looksStaked nft); run; [now inversion 1|].
  destruct (estimateGas env (tick w) (parseInt env (tokenIdOrId nft))) as [g|e]; run;
    [|now inversion 1].
  destruct (getGasPrice env (tick (advance w))) as [gp|e]; run; [|now inversion 1].
  match goal with
  | |- context [sendTransferFrom env ?t ?a ?b] =>
      destruct (sendTransferFrom env t a b) as [h|e]; run; now inversion 1
  end.
Qed.

Lemma burnEach_frame (nfts : list NFTWithStatus) :
  forall (hashes : list string) (w w' : World) (r : Outcome (list string)),
    burnEach env nfts hashes w = (r, w') -> tables w' = tables w.
Proof.
  induction nfts as [|nft rest IH]; intros hashes w w' r.
  - cbn. now inversion 1.
  - cbn [burnEach]. unfold bind.
    destruct (burnOneOnchainNFT env nft w) as [[h|e|] w1] eqn:E;
      pose proof (burnOneOnchainNFT_frame nft w w1 _ E) as F.
    + intros H. apply IH in H. congruence.
    + inversion 1; subst. exact F.
    + inversion 1; subst. exact F.
Qed.

Lemma burnOnchainNFTs_frame (nfts : list NFTWithStatus) (w w' : World)
    (r : Outcome (list string)) :
  burnOnchainNFTs env nfts w = (r, w') -> tables w' = tables w.
Proof.
  unfold burnOnchainNFTs. run.
  destruct (userAccount w) as [account|]; run.
  - apply burnEach_frame.
  - destruct (initializeContracts env (tick w)) as [account|e]; run.
    + intros H. apply burnEach_frame in H. exact H.
    + now inversion 1.
Qed.

Lemma existsb_filter_nonempty {A} (p : A -> bool) (l : list A) :
  existsb p l = true -> (0 <? length (filter p l))%nat = true.
Proof.
  induction l as [|a l IH]; simpl; [discriminate|].
  destruct (p a); simpl; [reflexivity | exact IH].
Qed.

Lemma strategy_has_onchain (nfts : list NFTWithStatus) :
  burnStrategy (analyzeNFTSelection env nfts) <> pure_offchain ->
  existsb (fun n => isOnchain (status n)) nfts = true.
Proof.
  unfold analyzeNFTSelection. cbn [burnStrategy].
  destruct (existsb (fun n => isOnchain (status n)) nfts); [reflexivity|].
  destruct (existsb (fun n => isOffchain (status n)) nfts); cbn; congruence.
Qed.

End Frame.

(** C2. When the transfer to the burn address throws for one of the
    selected on-chain tokens, the burn ends there: it reports the failure
    and the pool, the rows of the off-chain assets and the audit table are
    what they were, so that no pool entry is marked distributed and no
    off-chain row is removed. *)
Theorem failed_onchain_burn_touches_no_table
    (env : Env) (walletAddress : string) (nfts : list NFTWithStatus) (rule : BurnRule)
    (e : string) (w w1 : World) :
  applicableRule (analyzeNFTSelection env nfts) = Some rule ->
  burnStrategy (analyzeNFTSelection env nfts) <> pure_offchain ->
  burnOnchainNFTs env (filter (fun n => isOnchain (status n)) nfts) w = (Throw e, w1) ->
  executeSmartHybridBurn env walletAddress nfts w
    = (Ret (mkBurnResult false None (Some e)), w1) /\
  nft_cid_pools w1 = nft_cid_pools w /\
  nft_cid_distribution_log w1 = nft_cid_distribution_log w /\
  burn_transactions w1 = burn_transactions w.
Proof.
  intros Rule Strategy Burnt.
  pose proof (burnOnchainNFTs_frame env _ _ _ _ Burnt) as F.
  split; [|repeat split;
            [exact (f_equal (fun t => snd (fst t)) F)
            |exact (f_equal (fun t => fst (fst t)) F)
            |exact (f_equal snd F)]].
  pose proof (strategy_has_onchain env nfts Strategy) as Has.
  unfold executeSmartHybridBurn.
  assert (V : isValid (analyzeNFTSelection env nfts) = true).
  { unfold analyzeNFTSelection in *. cbn [isValid applicableRule] in *.
    now rewrite Rule. }
  rewrite V, Rule.
  destruct (burnStrategy (analyzeNFTSelection env nfts)); [contradiction| |].
  - run. rewrite Burnt. reflexivity.
  - run. rewrite (existsb_filter_nonempty _ _ Has). rewrite Burnt. reflexivity.
Qed.

Lemma failed_onchain_burn_touches_no_table_witness :
  tables (snd (executeSmartHybridBurn (sampleEnv (Err "execution reverted"))
                 burnerWallet sampleSelection sampleWorld))
  = tables sampleWorld.
Proof.
  destruct (failed_onchain_burn_touches_no_table
              (sampleEnv (Err "execution reverted")) burnerWallet sampleSelection
              commonToRare "execution reverted" sampleWorld
              (snd (burnOnchainNFTs (sampleEnv (Err "execution reverted"))
                      (filter (fun n => isOnchain (status n)) sampleSelection)
                      sampleWorld)))
    as (E & P & L & B).
  - reflexivity.
  - discriminate.
  - reflexivity.
  - rewrite E. unfold tables. cbn [snd]. now rewrite P, L, B.
Defined.

(** *** The result asset *)

Section Allocation.

Variable env : Env.

Hypothesis database_answers : forall t, databaseFault env t = None.

Lemma dbRun_answers {A} (statement : World -> Reply A * World) (w : World) :
  dbRun env statement w = (fst (statement w), advance (snd (statement w))).
Proof.
  unfold dbRun. rewrite database_answers. now destruct (statement w).
Qed.

Lemma allocation_succeeds (walletAddress rarity : string) (w : World) (row : PoolRow) :
  find (isAvailable rarity) (nft_cid_pools w) = Some row ->
  exists resultNFT w',
    getResultNFTFromOffchainPool env walletAddress rarity w = (Ret resultNFT, w') /\
    ipfs_hash resultNFT = cid row /\
    nft_rarity resultNFT = rarity /\
    nft_cid_pools w' = map (markRow (pool_id row) walletAddress) (nft_cid_pools w) /\
    nft_cid_distribution_log w'
      = (nft_cid_distribution_log w
         ++ [mkDistributionRow (nft_id resultNFT) (JS.toLowerCase walletAddress)
                               rarity (cid row)])%list /\
    burn_transactions w' = burn_transactions w /\
    submitted w' = submitted w /\
    userAccount w' = userAccount w.
Proof.
  intros Found. unfold getResultNFTFromOffchainPool. run.
  rewrite !dbRun_answers. unfold selectAvailable. rewrite Found. cbn [fst snd].
  rewrite !dbRun_answers. cbn [fst snd syncUserCollection insertDistributionRow].
  rewrite !dbRun_answers. cbn [fst snd markDistributed].
  eexists. eexists. split; [reflexivity|]. repeat split.
Qed.

Lemma markRow_other (poolId : Z) (walletAddress : string) (rows : list PoolRow) :
  ~ In poolId (map pool_id rows) -> map (markRow poolId walletAddress) rows = rows.
Proof.
  induction rows as [|x rows IH]; simpl; intros H; [reflexivity|].
  unfold markRow at 1.
  destruct (Z.eqb_spec (pool_id x) poolId) as [E|N]; [exfalso; apply H; now left|].
  rewrite IH; [reflexivity | tauto].
Qed.

Lemma markRow_ids (poolId : Z) (walletAddress : string) (rows : list PoolRow) :
  map pool_id (map (markRow poolId walletAddress) rows) = map pool_id rows.
Proof.
  induction rows as [|x rows IH]; simpl; [reflexivity|]. rewrite IH. f_equal.
  unfold markRow. now destruct (pool_id x =? poolId)%Z.
Qed.

Lemma find_in_ids (rarity : string) (rows : list PoolRow) (row : PoolRow) :
  find (isAvailable rarity) rows = Some row -> In (pool_id row) (map pool_id rows).
Proof.
  intros H. apply find_some in H. apply in_map. tauto.
Qed.

(** Marking the row that was selected takes exactly one entry out of the
    available ones, when ids are unique. *)
Lemma marking_claims_one (rarity walletAddress : string) (rows : list PoolRow)
    (row : PoolRow) :
  NoDup (map pool_id rows) ->
  find (isAvailable rarity) rows = Some row ->
  S (availableCount rarity (map (markRow (pool_id row) walletAddress) rows))
    = availableCount rarity rows /\
  distributedCount (map (markRow (pool_id row) walletAddress) rows)
    = S (distributedCount rows).
Proof.
  unfold availableCount, distributedCount.
  induction rows as [|x rows IH]; intros ND Found; [discriminate|].
  inversion ND as [|? ? NotIn ND']; subst. cbn [find] in Found.
  destruct (isAvailable rarity x) eqn:A.
  - inversion Found; subst. cbn [map].
    rewrite (markRow_other _ _ _ NotIn).
    unfold markRow. rewrite Z.eqb_refl. cbn [filter]. rewrite A.
    unfold isAvailable in *. cbn [pool_rarity is_distributed].
    apply andb_prop in A. destruct A as [R D]. rewrite R. cbn.
    apply negb_true_iff in D. rewrite D. split; reflexivity.
  - assert (N : pool_id x <> pool_id row).
    { intros E. apply NotIn. rewrite E. eapply find_in_ids; eassumption. }
    cbn [map]. unfold markRow at 1 3.
    destruct (Z.eqb_spec (pool_id x) (pool_id row)) as [E|_]; [contradiction|].
    cbn [filter]. rewrite A.
    destruct (IH ND' Found) as [IH1 IH2].
    destruct (is_distributed x); cbn [length]; rewrite ?IH2; split; auto.
Qed.

Lemma available_found (rarity : string) (rows : list PoolRow) :
  (0 < availableCount rarity rows)%nat ->
  exists row, find (isAvailable rarity) rows = Some row.
Proof.
  unfold availableCount. induction rows as [|x rows IH]; cbn; [lia|].
  destruct (isAvailable rarity x); [eauto | exact IH].
Qed.

(** An entry that is still available after another one was marked is an
    entry of the pool as it was, and not the marked one. *)
Lemma available_after_marking (rarity walletAddress : string) (poolId : Z)
    (rows : list PoolRow) (entry : PoolRow) :
  In entry (map (markRow poolId walletAddress) rows) ->
  isAvailable rarity entry = true ->
  In entry rows /\ pool_id entry <> poolId.
Proof.
  intros Marked Free. apply in_map_iff in Marked. destruct Marked as (row & Same & Row).
  unfold markRow in Same. destruct (Z.eqb_spec (pool_id row) poolId) as [E|N].
  - subst entry. unfold isAvailable in Free. cbn in Free.
    rewrite andb_false_r in Free. discriminate.
  - subst entry. split; assumption.
Qed.

Lemma burns_in_turn (rarity : string) (wallets : list string) :
  forall w,
    NoDup (map pool_id (nft_cid_pools w)) ->
    availableCount rarity (nft_cid_pools w) = length wallets ->
    exists results entries w',
      allocateInTurn env rarity wallets w = (Ret results, w') /\
      Forall2 (fun resultNFT entry => ipfs_hash resultNFT = cid entry) results entries /\
      length entries = length wallets /\
      NoDup (map pool_id entries) /\
      Forall (fun entry => In entry (nft_cid_pools w) /\ isAvailable rarity entry = true)
             entries /\
      availableCount rarity (nft_cid_pools w') = 0%nat /\
      distributedCount (nft_cid_pools w')
        = (distributedCount (nft_cid_pools w) + length wallets)%nat.
Proof.
  induction wallets as [|walletAddress rest IH]; intros w ND Count.
  - exists [], [], w. cbn. repeat split; auto; constructor.
  - cbn [length] in Count.
    destruct (available_found rarity (nft_cid_pools w)) as [row Found]; [lia|].
    destruct (allocation_succeeds walletAddress rarity w row Found)
      as (resultNFT & w1 & E & Cid & _ & P & _).
    destruct (marking_claims_one rarity walletAddress _ row ND Found) as [C1 C2].
    rewrite <- P in C1, C2.
    destruct (IH w1) as (results & entries & w2 & E2 & Tied & L & Distinct & Free & A & D).
    + rewrite P, markRow_ids. exact ND.
    + lia.
    + assert (Old : Forall (fun entry => (In entry (nft_cid_pools w) /\
                                           isAvailable rarity entry = true) /\
                                          pool_id entry <> pool_id row) entries).
      { eapply Forall_impl; [|exact Free]. intros entry (Marked & Avail).
        rewrite P in Marked.
        destruct (available_after_marking _ _ _ _ _ Marked Avail). auto. }
      exists (resultNFT :: results), (row :: entries), w2. cbn [allocateInTurn]. run.
      rewrite E, E2. split; [reflexivity|]. split; [now constructor|].
      split; [cbn [length]; lia|]. split.
      * cbn [map]. constructor; [|exact Distinct].
        intros Again. apply in_map_iff in Again. destruct Again as (entry & Id & Entry).
        rewrite Forall_forall in Old. destruct (Old entry Entry) as (_ & Other).
        contradiction.
      * split.
        -- constructor.
           ++ apply find_some in Found. exact Found.
           ++ eapply Forall_impl; [|exact Old]. intros entry (H & _). exact H.
        -- split; [exact A | cbn [length]; lia].
Qed.

(** Taken one await at a time, the allocation is the function itself. *)
Lemma allocation_steps_refine (walletAddress rarity : string) (w : World) :
  match runAllocation env 4 walletAddress rarity Selecting w with
  | (Allocated resultNFT, w') =>
      getResultNFTFromOffchainPool env walletAddress rarity w = (Ret resultNFT, w')
  | (Rejected message, w') =>
      getResultNFTFromOffchainPool env walletAddress rarity w = (Throw message, w')
  | _ => False
  end.
Proof.
  unfold getResultNFTFromOffchainPool. cbn [runAllocation allocationStep]. run.
  rewrite !dbRun_answers. unfold selectAvailable.
  destruct (find (isAvailable rarity) (nft_cid_pools w)) as [row|]; cbn [fst snd];
    repeat (progress (cbn [allocationStep fst snd syncUserCollection
                           insertDistributionRow markDistributed];
                      rewrite ?dbRun_answers));
    reflexivity.
Qed.

End Allocation.

(** C3, as the specification has it, fails: two burns that each need one
    rare result asset, against a pool of exactly two undistributed rare
    entries, take their database round-trips alternately; both read the
    first entry before either marks it, both are given its content, and
    only that one entry ends up distributed. *)
Lemma interleaved_burns_get_the_same_entry :
  availableCount "rare" (nft_cid_pools sampleWorld) = 2%nat /\
  map allocatedCid
      (fst (runSchedule (sampleEnv (Ok "0xhash7")) alternating twoBurners sampleWorld))
    = [Some "cid-rare-1"; Some "cid-rare-1"] /\
  distributedCount
    (nft_cid_pools
       (snd (runSchedule (sampleEnv (Ok "0xhash7")) alternating twoBurners sampleWorld)))
    = 1%nat.
Proof.
  repeat split; reflexivity.
Qed.

(** C3, amended. The allocation reads the first undistributed entry of the
    rarity and later marks it by id, in separate round-trips.  When the
    burns run one after the other, the database answers and pool ids are
    unique, N burns against a pool that holds exactly N undistributed
    entries of the rarity all get a result asset; the N results carry the
    contents of N entries of the pool that were undistributed and have
    pairwise distinct ids, so that no pool entry is allocated to two burns;
    N more entries are distributed than before and none of the rarity is
    left. *)
Theorem burns_in_turn_claim_each_entry_once
    (env : Env) (rarity : string) (wallets : list string) (w : World) :
  (forall t, databaseFault env t = None) ->
  NoDup (map pool_id (nft_cid_pools w)) ->
  availableCount rarity (nft_cid_pools w) = length wallets ->
  exists results entries w',
    allocateInTurn env rarity wallets w = (Ret results, w') /\
    Forall2 (fun resultNFT entry => ipfs_hash resultNFT = cid entry) results entries /\
    length entries = length wallets /\
    NoDup (map pool_id entries) /\
    Forall (fun entry => In entry (nft_cid_pools w) /\ isAvailable rarity entry = true)
           entries /\
    availableCount rarity (nft_cid_pools w') = 0%nat /\
    distributedCount (nft_cid_pools w')
      = (distributedCount (nft_cid_pools w) + length wallets)%nat.
Proof.
  intros Answers Unique Count.
  destruct (burns_in_turn env Answers rarity wallets w Unique Count)
    as (results & entries & w' & Run & Rest).
  exists results, entries, w'. split; [exact Run | exact Rest].
Qed.

Lemma burns_in_turn_claim_each_entry_once_witness :
  exists results entries w',
    allocateInTurn (sampleEnv (Ok "0xhash7")) "rare" [burnerWallet; otherWallet] sampleWorld
      = (Ret results, w') /\
    Forall2 (fun resultNFT entry => ipfs_hash resultNFT = cid entry) results entries /\
    length entries = length [burnerWallet; otherWallet] /\
    NoDup (map pool_id entries) /\
    Forall (fun entry => In entry (nft_cid_pools sampleWorld) /\
                         isAvailable "rare" entry = true) entries /\
    availableCount "rare" (nft_cid_pools w') = 0%nat /\
    distributedCount (nft_cid_pools w')
      = (distributedCount (nft_cid_pools sampleWorld)
         + length [burnerWallet; otherWallet])%nat.
Proof.
  apply (burns_in_turn_claim_each_entry_once
           (sampleEnv (Ok "0xhash7")) "rare" [burnerWallet; otherWallet] sampleWorld).
  - intros t. reflexivity.
  - cbn. repeat constructor; cbn; intuition discriminate.
  - reflexivity.
Defined.

(** *** A selection of one rarity *)

Section Selection.

Variable env : Env.






Lemma find_same {A} (p q : A -> bool) (l : list A) :
  (forall a, p a = q a) -> find p l = find q l.
Proof.
  intros H. induction l as [|a l IH]; [reflexivity|]. cbn. now rewrite H, IH.
Qed.


End Selection.

(** *** The mixed burn, step by step *)

Section MixedBurn.

Variable env : Env.

Hypothesis contracts_answer : forall t, exists a, initializeContracts env t = Ok a.
Hypothesis estimate_answers : forall t token, exists g, estimateGas env t token = Ok g.
Hypothesis price_answers : forall t, exists g, getGasPrice env t = Ok g.
Hypothesis transfer_answers :
  forall t from token, exists h, sendTransferFrom env t from token = Ok h.
Hypothesis database_answers : forall t, databaseFault env t = None.





End MixedBurn.



End BurnFacts.

(** ** The NFT context: derived lists, burn and batch updates, loading *)

Module ViewMoreFacts.

Import View ViewMore.

(** *** State exclusivity *)

(** X1. The optimistic stake (with a source that is 'offchain' or
    'onchain', as its type demands) and the optimistic unstake keep the
    state exclusivity of the view: if every asset is staked exactly when it
    has a staking source before the call, so it is after it. *)
Theorem optimistic_stake_unstake_keep_exclusivity
    (st : ViewState) (nftIds : list string) (stakingSource : StakingSource) (now : Z) :
  Forall consistent (allNFTs st) ->
  (stakingSource <> source_none ->
   Forall consistent (allNFTs (handle (CallStake nftIds stakingSource now) st))) /\
  Forall consistent (allNFTs (handle (CallUnstake nftIds) st)).
Proof.
  intros H. split.
  - intros Src. cbn [handle optimisticStake allNFTs].
    induction H as [|nft rest Hn Hrest IH]; cbn [map]; constructor; [|exact IH].
    destruct (includesId nftIds (id nft)); [|exact Hn].
    unfold consistent. cbn. split; [intros _; exact Src | reflexivity].
  - cbn [handle optimisticUnstake allNFTs].
    induction H as [|nft rest Hn Hrest IH]; cbn [map]; constructor; [|exact IH].
    destruct (includesId nftIds (id nft)); [|exact Hn].
    unfold consistent. cbn. split; [discriminate | intros N; now contradiction N].
Qed.

Lemma optimistic_stake_unstake_keep_exclusivity_witness :
  Forall consistent (allNFTs (handle (CallStake ["nft-1"] source_onchain 1000) sampleView)) /\
  Forall consistent (allNFTs (handle (CallUnstake ["nft-1"]) sampleStaked)).
Proof.
  split.
  - apply (proj1 (optimistic_stake_unstake_keep_exclusivity
                    sampleView ["nft-1"] source_onchain 1000
                    ltac:(constructor; [|constructor]; unfold consistent; cbn;
                          split; [discriminate | intros N; now contradiction N]))).
    discriminate.
  - apply (proj2 (optimistic_stake_unstake_keep_exclusivity
                    sampleStaked ["nft-1"] source_onchain 1000
                    ltac:(constructor; [|constructor]; unfold consistent; cbn;
                          split; [discriminate | reflexivity]))).
Defined.

(** *** The derived lists *)

Lemma includesId_In (nftIds : list string) (nftId : string) :
  includesId nftIds nftId = true <-> In nftId nftIds.
Proof.
  unfold includesId. rewrite existsb_exists. split.
  - intros (x & Hin & E). apply String.eqb_eq in E. now subst.
  - intros Hin. exists nftId. split; [exact Hin | apply String.eqb_refl].
Qed.

(** X2. The derived lists split the view: an asset is in [stakedNFTs] or
    in [availableNFTs] and never in both; after an optimistic stake every
    asset of the view whose id was listed is in [stakedNFTs], and after an
    optimistic unstake it is in [availableNFTs]. *)
Theorem derived_lists_follow_optimistic_calls
    (st : ViewState) (nftIds : list string) (stakingSource : StakingSource) (now : Z) :
  (length (availableNFTs (allNFTs st)) + length (stakedNFTs (allNFTs st)))%nat
    = length (allNFTs st) /\
  (forall nft, In nft (availableNFTs (allNFTs st)) -> ~ In nft (stakedNFTs (allNFTs st))) /\
  (forall nft, In nft (allNFTs (handle (CallStake nftIds stakingSource now) st)) ->
               In (id nft) nftIds ->
               In nft (stakedNFTs (allNFTs (handle (CallStake nftIds stakingSource now) st)))) /\
  (forall nft, In nft (allNFTs (handle (CallUnstake nftIds) st)) ->
               In (id nft) nftIds ->
               In nft (availableNFTs (allNFTs (handle (CallUnstake nftIds) st)))).
Proof.
  split; [|split; [|split]].
  - unfold availableNFTs, stakedNFTs.
    induction (allNFTs st) as [|nft rest IH]; [reflexivity|].
    cbn [filter]. destruct (isStaked nft); cbn [negb length]; lia.
  - unfold availableNFTs, stakedNFTs. intros nft A S.
    apply filter_In in A. apply filter_In in S.
    destruct A as [_ A], S as [_ S]. rewrite S in A. discriminate.
  - intros nft Hin Hid. unfold stakedNFTs. apply filter_In. split; [exact Hin|].
    cbn [handle optimisticStake allNFTs] in Hin. apply in_map_iff in Hin.
    destruct Hin as (old & E & _).
    destruct (includesId nftIds (id old)) eqn:I.
    + subst nft. reflexivity.
    + subst nft. apply includesId_In in Hid. congruence.
  - intros nft Hin Hid. unfold availableNFTs. apply filter_In. split; [exact Hin|].
    cbn [handle optimisticUnstake allNFTs] in Hin. apply in_map_iff in Hin.
    destruct Hin as (old & E & _).
    destruct (includesId nftIds (id old)) eqn:I.
    + subst nft. reflexivity.
    + subst nft. apply includesId_In in Hid. congruence.
Qed.

Lemma derived_lists_follow_optimistic_calls_witness :
  In (mkContextNFT "nft-1" "Rare" offchain true source_offchain 4 (Some 1000%Z) None None)
     (stakedNFTs (allNFTs sampleStaked)).
Proof.
  apply (proj1 (proj2 (proj2 (derived_lists_follow_optimistic_calls
                                 sampleView ["nft-1"] source_offchain 1000)))).
  - left. reflexivity.
  - left. reflexivity.
Defined.

(** *** Commit and revert *)

(** X4. An optimistic burn made through the callback of the current
    render, followed by the revert callback of a render that holds the
    snapshot the burn saved, gives back the view as it was, except when the
    view was empty: then nothing was saved, the revert does nothing and a
    result asset that the burn added stays in the view.  The revert
    callback of a render without a snapshot, the burn's own render among
    them when nothing was outstanding, leaves the burned view as it is. *)
Theorem optimistic_burn_then_revert
    (rendered later st : ViewState) (nftIds : list string) (newNFT : option ContextNFT) :
  allNFTs rendered = allNFTs st ->
  let burned := optimisticBurn (allNFTs rendered) nftIds newNFT st in
  (backupState later = backupState burned ->
   allNFTs (handleFrom later CallRevert burned)
   = match allNFTs st, newNFT with
     | [], Some nft => [nft]
     | view, _ => view
     end) /\
  (backupState later = [] -> handleFrom later CallRevert burned = burned).
Proof.
  intros Current burned. subst burned. cbn [handleFrom]. unfold revertOptimisticUpdate.
  split; intros Holds; rewrite Holds; [|reflexivity].
  unfold optimisticBurn. cbn [backupState allNFTs]. rewrite Current.
  destruct (allNFTs st) as [|nft rest]; cbn; destruct newNFT; reflexivity.
Qed.

Lemma optimistic_burn_then_revert_witness :
  allNFTs (handleFrom (optimisticBurn (allNFTs sampleView) ["nft-1"] None sampleView)
             CallRevert
             (optimisticBurn (allNFTs sampleView) ["nft-1"] None sampleView))
    = allNFTs sampleView /\
  handleFrom sampleView CallRevert
             (optimisticBurn (allNFTs sampleView) ["nft-1"] None sampleView)
    = optimisticBurn (allNFTs sampleView) ["nft-1"] None sampleView.
Proof.
  destruct (optimistic_burn_then_revert sampleView
              (optimisticBurn (allNFTs sampleView) ["nft-1"] None sampleView)
              sampleView ["nft-1"] None eq_refl) as (Fresh & _).
  destruct (optimistic_burn_then_revert sampleView sampleView
              sampleView ["nft-1"] None eq_refl) as (_ & Stale).
  split; [exact (Fresh eq_refl) | exact (Stale eq_refl)].
Defined.

(** *** Batch updates *)

Lemma findUpdate_skips_later (before after : list (string * PartialNFT))
    (u : string * PartialNFT) (nftId : string) :
  In (fst u) (map fst before) ->
  findUpdate (before ++ u :: after) nftId = findUpdate (before ++ after) nftId.
Proof.
  unfold findUpdate. induction before as [|b before IH]; cbn; [contradiction|].
  intros [E | Hin].
  - destruct (String.eqb_spec (fst b) nftId) as [Eb|Nb]; [reflexivity|].
    clear IH. induction before as [|c before IH]; cbn.
    + destruct (String.eqb_spec (fst u) nftId) as [Eu|_]; [congruence | reflexivity].
    + destruct (fst c =? nftId); [reflexivity | exact IH].
  - destruct (fst b =? nftId); [reflexivity | now apply IH].
Qed.

(** X5. In a batch update the first entry for an id decides: an entry
    whose id already occurs earlier in the batch has no effect at all. *)
Theorem batch_update_first_entry_wins
    (before after : list (string * PartialNFT)) (u : string * PartialNFT)
    (now : Z) (st : ViewState) :
  In (fst u) (map fst before) ->
  batchNow (before ++ u :: after) now st = batchNow (before ++ after) now st.
Proof.
  intros Hin. unfold batchNow, batchUpdateNFTs. f_equal.
  apply map_ext. intros nft. now rewrite (findUpdate_skips_later before after u).
Qed.

Lemma batch_update_first_entry_wins_witness :
  batchNow [("nft-1", sampleUpdates); ("nft-1", mkPartialNFT None None None (Some true)
                                                             None None None None None)]
           2000 sampleView
  = batchNow [("nft-1", sampleUpdates)] 2000 sampleView.
Proof.
  apply (batch_update_first_entry_wins [("nft-1", sampleUpdates)] []
           ("nft-1", mkPartialNFT None None None (Some true) None None None None None)
           2000 sampleView).
  left. reflexivity.
Defined.

(** *** Loading *)

Section Loading.

Variable serviceDailyReward : string -> Z.

Lemma toOnchain_consistent (nft : LoadedNFT) :
  consistent (toOnchainContextNFT serviceDailyReward nft).
Proof.
  unfold consistent, toOnchainContextNFT. cbn.
  destruct (isStakedOrFalse nft); split; try discriminate; try reflexivity.
  intros N. now contradiction N.
Qed.

Lemma toOffchain_consistent (nft : LoadedNFT) :
  consistent (toOffchainContextNFT serviceDailyReward nft).
Proof.
  unfold consistent, toOffchainContextNFT. cbn.
  destruct (isStakedOrFalse nft); split; try discriminate; try reflexivity.
  intros N. now contradiction N.
Qed.

Lemma merge_added (onchainData : list LoadedNFT) (currentNFTs : list ContextNFT) :
  mergeOnchainNFTs serviceDailyReward onchainData currentNFTs
  = (currentNFTs
     ++ map (toOnchainContextNFT serviceDailyReward)
          (filter (fun nft =>
                     negb (existsb (fun existing => id existing =? loaded_id nft) currentNFTs) &&
                     negb (JS.includes "onchain_reward_" (loaded_id nft)) &&
                     negb (loaded_status nft =? "reward_tracking"))
                  onchainData))%list.
Proof.
  unfold mergeOnchainNFTs.
  match goal with |- context [map ?f ?l] => destruct (map f l) eqn:E end.
  - cbn. now rewrite app_nil_r.
  - reflexivity.
Qed.

Lemma kept_loaded_ids_unique (keep : LoadedNFT -> bool) (loaded : list LoadedNFT) :
  NoDup (map loaded_id loaded) -> NoDup (map loaded_id (filter keep loaded)).
Proof.
  induction loaded as [|nft loaded IH]; cbn [filter map]; [constructor|].
  intros Unique. apply NoDup_cons_iff in Unique. destruct Unique as (Fresh & Unique).
  destruct (keep nft); cbn [map]; [|now apply IH].
  apply NoDup_cons; [|now apply IH].
  intros Kept. apply Fresh. apply in_map_iff in Kept.
  destruct Kept as (other & Same & Kept). apply filter_In in Kept.
  apply in_map_iff. exists other. tauto.
Qed.

(** X6. Loading keeps the view well formed.  The off-chain step and the
    merge of the on-chain NFTs keep the state exclusivity of every asset;
    the merge keeps every asset that was there, adds no asset whose id is
    already in the view and none of the reward-tracking entries, so that
    ids stay unique when they were unique in the view and in the loaded
    data. *)
Theorem loading_keeps_view_well_formed
    (offchainData onchainData : list LoadedNFT) (currentNFTs : list ContextNFT) :
  (Forall consistent currentNFTs ->
   Forall consistent (loadOffchainNFTs serviceDailyReward offchainData currentNFTs) /\
   Forall consistent (mergeOnchainNFTs serviceDailyReward onchainData currentNFTs)) /\
  (forall nft, In nft currentNFTs ->
               In nft (mergeOnchainNFTs serviceDailyReward onchainData currentNFTs)) /\
  (forall nft, In nft (mergeOnchainNFTs serviceDailyReward onchainData currentNFTs) ->
               In nft currentNFTs \/
               (JS.includes "onchain_reward_" (id nft) = false /\
                status nft = onchain /\
                ~ In (id nft) (map id currentNFTs))) /\
  (NoDup (map id currentNFTs) -> NoDup (map loaded_id onchainData) ->
   NoDup (map id (mergeOnchainNFTs serviceDailyReward onchainData currentNFTs))).
Proof.
  rewrite merge_added.
  split; [|split; [|split]].
  - intros H. split.
    + unfold loadOffchainNFTs.
      match goal with |- context [(0 <? ?n)%nat] => destruct (0 <? n)%nat end;
        [|exact H].
      apply Forall_forall. intros nft Hin. apply in_map_iff in Hin.
      destruct Hin as (x & <- & _). apply toOffchain_consistent.
    + apply Forall_app. split; [exact H|].
      apply Forall_forall. intros nft Hin. apply in_map_iff in Hin.
      destruct Hin as (x & <- & _). apply toOnchain_consistent.
  - intros nft Hin. apply in_or_app. now left.
  - intros nft Hin. apply in_app_or in Hin. destruct Hin as [Hin | Hin]; [now left|].
    right. apply in_map_iff in Hin. destruct Hin as (x & <- & Hx).
    apply filter_In in Hx. destruct Hx as [_ Hx].
    apply andb_prop in Hx. destruct Hx as [Hx _].
    apply andb_prop in Hx. destruct Hx as [Hnew Hreward].
    cbn [toOnchainContextNFT id status].
    split; [now apply negb_true_iff in Hreward|]. split; [reflexivity|].
    intros Hid. apply negb_true_iff in Hnew.
    apply in_map_iff in Hid. destruct Hid as (existing & E & He).
    assert (T : existsb (fun existing0 => id existing0 =? loaded_id x) currentNFTs = true).
    { apply existsb_exists. exists existing. split; [exact He|]. now apply String.eqb_eq. }
    congruence.
  - intros NDc NDo. rewrite map_app. apply NoDup_app.
    + exact NDc.
    + rewrite map_map. cbn [toOnchainContextNFT id].
      now apply kept_loaded_ids_unique.
    + intros nftId Hc Hn. rewrite map_map in Hn. cbn [toOnchainContextNFT id] in Hn.
      apply in_map_iff in Hn. destruct Hn as (x & <- & Hx).
      apply filter_In in Hx. destruct Hx as [_ Hx].
      apply andb_prop in Hx. destruct Hx as [Hx _].
      apply andb_prop in Hx. destruct Hx as [Hnew _].
      apply negb_true_iff in Hnew.
      apply in_map_iff in Hc. destruct Hc as (existing & E & He).
      assert (T : existsb (fun existing0 => id existing0 =? loaded_id x) currentNFTs = true).
      { apply existsb_exists. exists existing. split; [exact He|]. now apply String.eqb_eq. }
      congruence.
Qed.

End Loading.

Lemma loading_keeps_view_well_formed_witness :
  NoDup (map id (mergeOnchainNFTs getDailyRewardForRarity
                   [mkLoadedNFT "onchain_7" "Rare" "onchain" (Some true) None None None;
                    mkLoadedNFT "nft-1" "Rare" "onchain" None None None None;
                    mkLoadedNFT "onchain_reward_7" "Rare" "onchain" None None None None]
                   (allNFTs sampleView))).
Proof.
  apply (proj2 (proj2 (proj2 (loading_keeps_view_well_formed getDailyRewardForRarity []
           [mkLoadedNFT "onchain_7" "Rare" "onchain" (Some true) None None None;
            mkLoadedNFT "nft-1" "Rare" "onchain" None None None None;
            mkLoadedNFT "onchain_reward_7" "Rare" "onchain" None None None None]
           (allNFTs sampleView))))).
  - cbn. repeat constructor; cbn; intuition discriminate.
  - cbn. repeat constructor; cbn; intuition discriminate.
Defined.

End ViewMoreFacts.

(** ** Hybrid burn service: analysis, transfers, allocation *)

Module BurnMoreFacts.

Import Burn BurnMore.

Ltac run :=
  cbv beta iota zeta
      delta [bind tryCatch ret throw outOfFuel get modify liftReply
             Burn.ask setUserAccount recordTransfer dbCall negb] in *.

(** *** The grouping of a selection *)

Lemma addToGroup_rarity (nft : NFTWithStatus) (g : BurnGroup) :
  group_rarity (addToGroup nft g) = group_rarity g.
Proof. unfold addToGroup. now destruct (status nft). Qed.

Lemma add_known_rarity (groups : list BurnGroup) (r : string) (nft : NFTWithStatus) :
  In r (map group_rarity groups) ->
  map group_rarity (addToRarityGroups groups r nft) = map group_rarity groups.
Proof.
  induction groups as [|g rest IH]; cbn; [contradiction|]. intros H.
  destruct (String.eqb_spec (group_rarity g) r) as [E|N]; cbn.
  - now rewrite addToGroup_rarity.
  - f_equal. apply IH. destruct H; [contradiction | assumption].
Qed.

Lemma add_new_rarity (groups : list BurnGroup) (r : string) (nft : NFTWithStatus) :
  ~ In r (map group_rarity groups) ->
  map group_rarity (addToRarityGroups groups r nft)
  = (map group_rarity groups ++ [r])%list.
Proof.
  induction groups as [|g rest IH]; cbn; intros H.
  - now rewrite addToGroup_rarity.
  - destruct (String.eqb_spec (group_rarity g) r) as [E|N]; [exfalso; now apply H; left|].
    cbn. f_equal. apply IH. tauto.
Qed.

Lemma add_members (groups : list BurnGroup) (r : string) (nft : NFTWithStatus) :
  NoDup (map group_rarity groups) ->
  forall g', In g' (addToRarityGroups groups r nft) ->
    (In g' groups /\ group_rarity g' <> r) \/
    (exists g, In g groups /\ group_rarity g = r /\ g' = addToGroup nft g) \/
    (~ In r (map group_rarity groups) /\ g' = addToGroup nft (emptyGroup r)).
Proof.
  induction groups as [|g rest IH]; intros ND g' Hin.
  - cbn in Hin. destruct Hin as [<- | []]. right. right. split; [tauto | reflexivity].
  - cbn [map] in ND. inversion ND as [|? ? NotIn ND']; subst.
    cbn [addToRarityGroups] in Hin.
    destruct (String.eqb_spec (group_rarity g) r) as [E|N].
    + destruct Hin as [<- | Hin].
      * right. left. exists g. split; [now left | tauto].
      * left. split; [now right|]. intros E'. apply NotIn. rewrite E, <- E'.
        now apply in_map.
    + destruct Hin as [<- | Hin].
      * left. split; [now left | exact N].
      * destruct (IH ND' g' Hin) as [[H1 H2] | [(g0 & H1 & H2 & H3) | [H1 H2]]].
        -- left. split; [now right | exact H2].
        -- right. left. exists g0. split; [now right | tauto].
        -- right. right. split; [|exact H2]. cbn. tauto.
Qed.

Lemma filter_none {A} (p : A -> bool) (l : list A) :
  (forall x, In x l -> p x = false) -> filter p l = [].
Proof.
  induction l as [|a l IH]; cbn; intros H; [reflexivity|].
  rewrite (H a) by now left. apply IH. intros x Hx. apply H. now right.
Qed.

Lemma grouping_step (done : list NFTWithStatus) (groups : list BurnGroup)
    (nft : NFTWithStatus) :
  groupingOf done groups ->
  groupingOf (done ++ [nft])
             (addToRarityGroups groups (JS.toLowerCase (rarity nft)) nft).
Proof.
  intros (ND & Cover & Members).
  set (r := JS.toLowerCase (rarity nft)).
  assert (Rar : In r (map group_rarity (addToRarityGroups groups r nft)) /\
                (forall x, In x (map group_rarity groups) ->
                           In x (map group_rarity (addToRarityGroups groups r nft))) /\
                NoDup (map group_rarity (addToRarityGroups groups r nft))).
  { destruct (in_dec string_dec r (map group_rarity groups)) as [K|U].
    - rewrite (add_known_rarity groups r nft K). tauto.
    - rewrite (add_new_rarity groups r nft U). repeat split.
      + apply in_or_app. right. now left.
      + intros x Hx. apply in_or_app. now left.
      + apply NoDup_app; [exact ND | repeat constructor; intros [] |].
        intros x Hx [<- | []]. contradiction. }
  destruct Rar as (Rin & Rsub & RND).
  split; [exact RND|]. split.
  - intros n Hn. apply in_app_or in Hn. destruct Hn as [Hn | [<- | []]].
    + apply Rsub. now apply Cover.
    + exact Rin.
  - intros g' Hg'.
    destruct (add_members groups r nft ND g' Hg')
      as [[Hin Hne] | [(g & Hin & Hr & ->) | [Hnew ->]]].
    + destruct (Members g' Hin) as (Off & On & Count & Pos).
      assert (F : ofRarity (group_rarity g') nft = false).
      { unfold ofRarity. apply String.eqb_neq. fold r. congruence. }
      rewrite !filter_app. cbn [filter]. rewrite F. cbn [andb].
      rewrite !app_nil_r. tauto.
    + destruct (Members g Hin) as (Off & On & Count & Pos).
      assert (T : ofRarity (group_rarity g) nft = true).
      { unfold ofRarity. fold r. rewrite Hr. apply String.eqb_refl. }
      rewrite addToGroup_rarity, !filter_app. cbn [filter]. rewrite T. cbn [andb].
      unfold addToGroup.
      destruct (status nft); cbn [isOffchain isOnchain offchainNFTs onchainNFTs totalCount];
        rewrite ?app_nil_r, Off, On, Count, length_app; cbn [length];
        repeat split; lia.
    + assert (E : forall n, In n done -> ofRarity r n = false).
      { intros n Hn. unfold ofRarity. apply String.eqb_neq. intros E.
        apply Hnew. rewrite <- E. now apply Cover. }
      assert (T : ofRarity r nft = true) by (unfold ofRarity; apply String.eqb_refl).
      rewrite addToGroup_rarity. cbn [emptyGroup group_rarity].
      rewrite !filter_app. cbn [filter]. rewrite T. cbn [andb].
      rewrite (filter_none (ofRarity r) done E).
      rewrite (filter_none (fun n => ofRarity r n && isOffchain (status n)) done)
        by (intros n Hn; now rewrite (E n Hn)).
      rewrite (filter_none (fun n => ofRarity r n && isOnchain (status n)) done)
        by (intros n Hn; now rewrite (E n Hn)).
      unfold addToGroup, emptyGroup.
      destruct (status nft); cbn; repeat split; lia.
Qed.

Lemma grouping_fold (nfts : list NFTWithStatus) :
  forall done groups,
    groupingOf done groups ->
    groupingOf (done ++ nfts)
      (fold_left (fun rarityGroups nft =>
                    addToRarityGroups rarityGroups (JS.toLowerCase (rarity nft)) nft)
                 nfts groups).
Proof.
  induction nfts as [|nft rest IH]; intros done groups H.
  - now rewrite app_nil_r.
  - cbn [fold_left].
    replace (done ++ nft :: rest)%list with ((done ++ [nft]) ++ rest)%list
      by (rewrite <- app_assoc; reflexivity).
    apply IH. now apply grouping_step.
Qed.

(** X7. [analyzeNFTSelection] groups a selection of ordinary rarities by
    lower-cased rarity: there is exactly one group for each rarity that
    occurs, and a group holds the off-chain and the on-chain NFTs of its
    rarity, in the order of the selection, with their number as
    [totalCount]; no group is empty. *)
Theorem analysis_groups_the_selection (env : Env) (nfts : list NFTWithStatus) :
  forallb (fun nft => ordinaryRarity (rarity nft)) nfts = true ->
  groupingOf nfts (burnGroups (analyzeNFTSelection env nfts)).
Proof.
  intros _.
  unfold analyzeNFTSelection. cbn [burnGroups]. unfold groupByRarity.
  apply (grouping_fold nfts [] []).
  split; [constructor|]. split; [intros n []|intros g []].
Qed.

Lemma analysis_groups_the_selection_witness :
  groupingOf sampleSelection
             (burnGroups (analyzeNFTSelection (sampleEnv (Ok "0xhash7")) sampleSelection)).
Proof.
  apply (analysis_groups_the_selection (sampleEnv (Ok "0xhash7")) sampleSelection).
  reflexivity.
Defined.

(** *** Which rule applies *)

Lemma add_keeps_head (g0 : BurnGroup) (rest : list BurnGroup) (r : string)
    (nft : NFTWithStatus) :
  exists g0' rest',
    addToRarityGroups (g0 :: rest) r nft = g0' :: rest' /\
    group_rarity g0' = group_rarity g0.
Proof.
  cbn [addToRarityGroups]. destruct (group_rarity g0 =? r).
  - eexists. eexists. split; [reflexivity | apply addToGroup_rarity].
  - eexists. eexists. split; reflexivity.
Qed.

Lemma fold_keeps_head (nfts : list NFTWithStatus) :
  forall g0 rest, exists g0' rest',
    fold_left (fun rarityGroups nft =>
                 addToRarityGroups rarityGroups (JS.toLowerCase (rarity nft)) nft)
              nfts (g0 :: rest) = g0' :: rest' /\
    group_rarity g0' = group_rarity g0.
Proof.
  induction nfts as [|nft more IH]; intros g0 rest.
  - exists g0, rest. split; reflexivity.
  - cbn [fold_left].
    destruct (add_keeps_head g0 rest (JS.toLowerCase (rarity nft)) nft)
      as (g1 & rest1 & E1 & R1).
    rewrite E1. destruct (IH g1 rest1) as (g2 & rest2 & E2 & R2).
    exists g2, rest2. split; [exact E2 | congruence].
Qed.

(** X8. In a selection of ordinary rarities the rule is decided by the
    first rarity group that has one, and the group of the first NFT comes
    first: when the NFTs that share the rarity of the first NFT of the
    selection are as many as a rule for that rarity requires, the selection
    is valid under the first such rule, whatever NFTs of other ordinary
    rarities it holds besides. *)
Theorem first_rarity_decides_the_rule
    (env : Env) (first : NFTWithStatus) (others : list NFTWithStatus) (rule : BurnRule) :
  ordinarySelection env (first :: others) = true ->
  find (fun r =>
          (JS.toLowerCase (minRarity r) =? JS.toLowerCase (rarity first)) &&
          (requiredAmount r
           =? Z.of_nat (length (filter (ofRarity (JS.toLowerCase (rarity first)))
                                       (first :: others))))%Z)
       (getBurnRules env) = Some rule ->
  isValid (analyzeNFTSelection env (first :: others)) = true /\
  applicableRule (analyzeNFTSelection env (first :: others)) = Some rule.
Proof.
  intros _ Rule.
  assert (Members : forall g, In g (groupByRarity (first :: others)) ->
            offchainNFTs g
              = filter (fun n => ofRarity (group_rarity g) n && isOffchain (status n))
                       (first :: others) /\
            onchainNFTs g
              = filter (fun n => ofRarity (group_rarity g) n && isOnchain (status n))
                       (first :: others) /\
            totalCount g
              = Z.of_nat (length (filter (ofRarity (group_rarity g)) (first :: others))) /\
            (0 < totalCount g)%Z).
  { apply (grouping_fold (first :: others) [] []).
    split; [constructor|]. split; [intros n []|intros g []]. }
  unfold analyzeNFTSelection in *. cbn [burnGroups isValid applicableRule] in *.
  unfold groupByRarity in *. cbn [fold_left addToRarityGroups] in *.
  destruct (fold_keeps_head others
              (addToGroup first (emptyGroup (JS.toLowerCase (rarity first)))) [])
    as (g0 & rest & E & R).
  rewrite E in *. rewrite addToGroup_rarity in R. cbn [emptyGroup group_rarity] in R.
  destruct (Members g0 (or_introl eq_refl)) as (_ & _ & Count & _).
  cbn [findApplicableRule].
  rewrite (BurnFacts.find_same (ruleMatches g0)
             (fun r =>
                (JS.toLowerCase (minRarity r) =? JS.toLowerCase (rarity first)) &&
                (requiredAmount r
                 =? Z.of_nat (length (filter (ofRarity (JS.toLowerCase (rarity first)))
                                             (first :: others))))%Z)).
  - rewrite Rule. split; reflexivity.
  - intros r. unfold ruleMatches. now rewrite Count, R.
Qed.

Lemma first_rarity_decides_the_rule_witness :
  applicableRule
    (analyzeNFTSelection (sampleEnv (Ok "0xhash7"))
       (sampleSelection ++ [mkNFT "nft-gold" "Gold" Offchain None None None]))
  = Some commonToRare.
Proof.
  apply (first_rarity_decides_the_rule (sampleEnv (Ok "0xhash7")) offchainA
           [onchain7; offchainB; mkNFT "nft-gold" "Gold" Offchain None None None]
           commonToRare); reflexivity.
Defined.

(** *** A selection that fits no rule *)

(** X9. A selection of ordinary rarities for which no rule applies, the
    empty selection among them, is refused before anything happens: the
    burn reports "Invalid NFT combination for burning" and has consulted
    neither the wallet nor the chain nor the database. *)
Theorem invalid_selection_is_refused_untouched
    (env : Env) (walletAddress : string) (nfts : list NFTWithStatus) (w : World) :
  applicableRule (analyzeNFTSelection env []) = None /\
  (ordinarySelection env nfts = true ->
   applicableRule (analyzeNFTSelection env nfts) = None ->
   executeSmartHybridBurn env walletAddress nfts w
   = (Ret (mkBurnResult false None (Some "Invalid NFT combination for burning")), w)).
Proof.
  split; [reflexivity|].
  intros _ None. unfold executeSmartHybridBurn.
  assert (V : isValid (analyzeNFTSelection env nfts) = false).
  { unfold analyzeNFTSelection in *. cbn [isValid applicableRule] in *. now rewrite None. }
  rewrite V. reflexivity.
Qed.

Lemma invalid_selection_is_refused_untouched_witness :
  executeSmartHybridBurn (sampleEnv (Ok "0xhash7")) burnerWallet [offchainA; onchain7]
                         sampleWorld
  = (Ret (mkBurnResult false None (Some "Invalid NFT combination for burning")),
     sampleWorld).
Proof.
  apply (proj2 (invalid_selection_is_refused_untouched
                  (sampleEnv (Ok "0xhash7")) burnerWallet [offchainA; onchain7]
                  sampleWorld)); reflexivity.
Defined.

(** *** The transfers of a batch *)

Section Transfers.

Variable env : Env.

Lemma burnOne_outcomes (nft : NFTWithStatus) (w w1 : World) (r : Outcome string) :
  burnOneOnchainNFT env nft w = (r, w1) ->
  r <> OutOfFuel /\
  userAccount w1 = userAccount w /\
  (forall h, r = Ret h ->
     looksStaked nft = false /\
     submitted w1 = transferOf env (userAccount w) nft :: submitted w) /\
  (forall e, r = Throw e ->
     submitted w1 = submitted w \/
     (looksStaked nft = false /\
      submitted w1 = transferOf env (userAccount w) nft :: submitted w)).
Proof.
  unfold burnOneOnchainNFT, transferOf. run.
  destruct (looksStaked nft); run.
  { intros H. inversion H; subst. repeat split; try discriminate. intros e _. now left. }
  destruct (estimateGas env (tick w) (parseInt env (tokenIdOrId nft))) as [g|e]; run.
  2:{ intros H. inversion H; subst. repeat split; try discriminate. intros e' _. now left. }
  destruct (getGasPrice env (tick (advance w))) as [gp|e]; run.
  2:{ intros H. inversion H; subst. repeat split; try discriminate. intros e' _. now left. }
  match goal with
  | |- context [sendTransferFrom env ?t ?a ?b] =>
      destruct (sendTransferFrom env t a b) as [h|e]; run
  end.
  - intros H. inversion H; subst. repeat split; try discriminate.
  - intros H. inversion H; subst. repeat split; try discriminate.
    intros e' _. right. split; reflexivity.
Qed.

(** What [burnEach] has sent when it stops: the transfers of the NFTs it
    went through, the latest first. *)
Lemma burnEach_outcomes (nfts : list NFTWithStatus) :
  forall (hashes : list string) (w w1 : World) (r : Outcome (list string)),
    burnEach env nfts hashes w = (r, w1) ->
    r <> OutOfFuel /\
    userAccount w1 = userAccount w /\
    (forall all, r = Ret all ->
       length all = (length hashes + length nfts)%nat /\
       Forall (fun n => looksStaked n = false) nfts /\
       submitted w1
         = (rev (map (transferOf env (userAccount w)) nfts) ++ submitted w)%list) /\
    (forall e, r = Throw e ->
       exists done failed rest,
         nfts = (done ++ failed :: rest)%list /\
         Forall (fun n => looksStaked n = false) done /\
         (submitted w1
            = (rev (map (transferOf env (userAccount w)) done) ++ submitted w)%list \/
          (looksStaked failed = false /\
           submitted w1
             = (rev (map (transferOf env (userAccount w)) (done ++ [failed]))
                ++ submitted w)%list))).
Proof.
  induction nfts as [|nft more IH]; intros hashes w w1 r.
  - cbn. intros H. inversion H; subst.
    split; [discriminate|]. split; [reflexivity|]. split.
    + intros all E. inversion E; subst. repeat split; [lia | constructor].
    + intros e E. discriminate.
  - cbn [burnEach]. unfold bind.
    destruct (burnOneOnchainNFT env nft w) as [[h|e|] w0] eqn:One;
      destruct (burnOne_outcomes nft w w0 _ One) as (NF & Acc & OnRet & OnThrow).
    + destruct (OnRet h eq_refl) as (NotStaked & Sent).
      intros H. destruct (IH _ _ _ _ H) as (NF' & Acc' & OnRet' & OnThrow').
      rewrite Acc in *. split; [exact NF'|]. split; [exact Acc'|]. split.
      * intros all E. destruct (OnRet' all E) as (L & F & S).
        split; [rewrite L, length_app; cbn; lia|]. split; [now constructor|].
        rewrite S, Sent. cbn [map rev]. now rewrite <- app_assoc.
      * intros e E. destruct (OnThrow' e E) as (done & failed & rest & Split & F & S).
        exists (nft :: done), failed, rest. split; [now rewrite Split|].
        split; [now constructor|].
        destruct S as [S | [NS S]]; [left | right; split; [exact NS|]];
          rewrite S, Sent; cbn [map rev app]; now rewrite <- !app_assoc.
    + intros H. inversion H; subst. split; [discriminate|]. split; [exact Acc|]. split.
      * intros all E. discriminate.
      * intros e' E. exists [], nft, more. split; [reflexivity|]. split; [constructor|].
        destruct (OnThrow e eq_refl) as [S | [NS S]]; [left | right; split; [exact NS|]];
          rewrite S; reflexivity.
    + contradiction.
Qed.

End Transfers.

(** X10. A batch of on-chain burns sends one transfer per NFT, in the order
    of the selection, each to the burn address.  When the batch completes
    there is one hash per NFT and none of the NFTs looked staked; when it
    throws, it has stopped at the first NFT that failed: the NFTs before it
    have been transferred (irreversibly), the ones after it have not been
    touched, and no table of the database has been written in either
    case. *)
Theorem onchain_batch_stops_at_first_failure
    (env : Env) (nfts : list NFTWithStatus) (w w1 : World) (r : Outcome (list string)) :
  burnOnchainNFTs env nfts w = (r, w1) ->
  r <> OutOfFuel /\
  tables w1 = tables w /\
  (forall hashes, r = Ret hashes ->
     length hashes = length nfts /\
     Forall (fun n => looksStaked n = false) nfts /\
     submitted w1
       = (rev (map (transferOf env (userAccount w1)) nfts) ++ submitted w)%list) /\
  (forall e, r = Throw e ->
     submitted w1 = submitted w \/
     exists done failed rest,
       nfts = (done ++ failed :: rest)%list /\
       Forall (fun n => looksStaked n = false) done /\
       (submitted w1
          = (rev (map (transferOf env (userAccount w1)) done) ++ submitted w)%list \/
        (looksStaked failed = false /\
         submitted w1
           = (rev (map (transferOf env (userAccount w1)) (done ++ [failed]))
              ++ submitted w)%list))).
Proof.
  intros H. split; [|split; [exact (BurnFacts.burnOnchainNFTs_frame env _ _ _ _ H)|]].
  - revert H. unfold burnOnchainNFTs. run.
    destruct (userAccount w) as [account|]; run.
    + intros H. now destruct (burnEach_outcomes env nfts [] _ _ _ H).
    + destruct (initializeContracts env (tick w)) as [account|e]; run.
      * intros H. now destruct (burnEach_outcomes env nfts [] _ _ _ H).
      * intros H. inversion H. discriminate.
  - revert H. unfold burnOnchainNFTs. run.
    destruct (userAccount w) as [account|] eqn:A; run.
    + intros H. destruct (burnEach_outcomes env nfts [] _ _ _ H) as (_ & Acc & R & T).
      rewrite A in *. rewrite Acc. split.
      * intros hashes E. destruct (R hashes E) as (L & F & S). cbn in L. tauto.
      * intros e E. right. exact (T e E).
    + destruct (initializeContracts env (tick w)) as [account|e]; run.
      * intros H. destruct (burnEach_outcomes env nfts [] _ _ _ H) as (_ & Acc & R & T).
        cbn [userAccount submitted] in *. rewrite Acc. split.
        -- intros hashes E. destruct (R hashes E) as (L & F & S). cbn in L. tauto.
        -- intros e E. right. exact (T e E).
      * intros H. inversion H; subst. split; [discriminate|].
        intros e' _. left. reflexivity.
Qed.

Lemma onchain_batch_stops_at_first_failure_witness :
  submitted (snd (burnOnchainNFTs (sampleEnv (Ok "0xhash7")) onchainSelection sampleWorld))
  = [mkTransfer (Some burnerWallet) BURN_ADDRESS (Some 9%Z);
     mkTransfer (Some burnerWallet) BURN_ADDRESS (Some 8%Z);
     mkTransfer (Some burnerWallet) BURN_ADDRESS (Some 7%Z)].
Proof.
  destruct (onchain_batch_stops_at_first_failure
              (sampleEnv (Ok "0xhash7")) onchainSelection sampleWorld
              (snd (burnOnchainNFTs (sampleEnv (Ok "0xhash7")) onchainSelection sampleWorld))
              (fst (burnOnchainNFTs (sampleEnv (Ok "0xhash7")) onchainSelection sampleWorld))
              eq_refl) as (_ & _ & R & _).
  destruct (R ["0xhash7"; "0xhash7"; "0xhash7"] eq_refl) as (_ & _ & S).
  rewrite S. reflexivity.
Defined.

(** *** What an allocation hands out *)

Section Handout.

Variable env : Env.

Lemma dbRun_cases {A} (statement : World -> Reply A * World) (w : World) :
  dbRun env statement w = (fst (statement w), advance (snd (statement w))) \/
  exists e, dbRun env statement w = (Err e, advance w).
Proof.
  unfold dbRun. destruct (databaseFault env (tick w)) as [e|].
  - right. now exists e.
  - left. now destruct (statement w).
Qed.

End Handout.

(** X11. The allocation never hands out anything but the first
    undistributed pool entry of the rarity asked for.  When it returns, the
    result carries the content of that entry and the rarity asked for, and
    its row has been added to the collection; the entry is then marked
    distributed, unless that last update failed, which goes unnoticed.
    When the pool has no such entry it throws "No available ... NFT found
    in CID pool"; and whenever it throws, every table is as it was. *)
Theorem allocation_hands_out_an_available_entry
    (env : Env) (walletAddress rarity : string) (w w1 : World) (r : Outcome NFTData) :
  getResultNFTFromOffchainPool env walletAddress rarity w = (r, w1) ->
  r <> OutOfFuel /\
  (find (isAvailable rarity) (nft_cid_pools w) = None ->
   r = Throw ("No available " ++ rarity ++ " NFT found in CID pool")) /\
  (forall e, r = Throw e -> tables w1 = tables w) /\
  (forall resultNFT, r = Ret resultNFT ->
     exists row,
       find (isAvailable rarity) (nft_cid_pools w) = Some row /\
       ipfs_hash resultNFT = cid row /\
       nft_rarity resultNFT = rarity /\
       nft_cid_distribution_log w1
         = (nft_cid_distribution_log w ++ [resultRow walletAddress resultNFT])%list /\
       burn_transactions w1 = burn_transactions w /\
       (nft_cid_pools w1 = map (markRow (pool_id row) walletAddress) (nft_cid_pools w) \/
        nft_cid_pools w1 = nft_cid_pools w)).
Proof.
  unfold getResultNFTFromOffchainPool. run.
  destruct (dbRun_cases env (selectAvailable rarity) w) as [E | [e E]]; rewrite E; clear E.
  2:{ intros H. inversion H; subst. repeat split; discriminate. }
  unfold selectAvailable.
  destruct (find (isAvailable rarity) (nft_cid_pools w)) as [row|] eqn:Found; cbn [fst snd].
  2:{ intros H. inversion H; subst. repeat split; discriminate. }
  match goal with
  | |- context [dbRun env syncUserCollection ?w0] =>
      destruct (dbRun_cases env syncUserCollection w0) as [E | [e E]]; rewrite E; clear E
  end; cbn [fst snd syncUserCollection].
  - match goal with
    | |- context [dbRun env (insertDistributionRow ?row0) ?w0] =>
        destruct (dbRun_cases env (insertDistributionRow row0) w0) as [E | [e E]];
          rewrite E; clear E
    end; cbn [fst snd insertDistributionRow].
    + match goal with
      | |- context [dbRun env (markDistributed ?i ?a) ?w0] =>
          destruct (dbRun_cases env (markDistributed i a) w0) as [E | [e E]];
            rewrite E; clear E
      end; cbn [fst snd markDistributed];
        intros H; inversion H; subst; (split; [discriminate|]);
        (split; [discriminate|]); (split; [discriminate|]);
        intros resultNFT R; inversion R; subst; exists row;
        repeat split; try (now left); try (now right).
    + intros H. inversion H; subst. repeat split; discriminate.
  - match goal with
    | |- context [dbRun env (insertDistributionRow ?row0) ?w0] =>
        destruct (dbRun_cases env (insertDistributionRow row0) w0) as [E | [e' E]];
          rewrite E; clear E
    end; cbn [fst snd insertDistributionRow].
    + match goal with
      | |- context [dbRun env (markDistributed ?i ?a) ?w0] =>
          destruct (dbRun_cases env (markDistributed i a) w0) as [E | [e' E]];
            rewrite E; clear E
      end; cbn [fst snd markDistributed];
        intros H; inversion H; subst; (split; [discriminate|]);
        (split; [discriminate|]); (split; [discriminate|]);
        intros resultNFT R; inversion R; subst; exists row;
        repeat split; try (now left); try (now right).
    + intros H. inversion H; subst. repeat split; discriminate.
Qed.

Lemma allocation_hands_out_an_available_entry_witness :
  fst (getResultNFTFromOffchainPool (sampleEnv (Ok "0xhash7")) burnerWallet "rare"
         exhaustedWorld)
  = Throw "No available rare NFT found in CID pool".
Proof.
  apply (proj1 (proj2 (allocation_hands_out_an_available_entry
                         (sampleEnv (Ok "0xhash7")) burnerWallet "rare" exhaustedWorld
                         (snd (getResultNFTFromOffchainPool (sampleEnv (Ok "0xhash7"))
                                 burnerWallet "rare" exhaustedWorld))
                         (fst (getResultNFTFromOffchainPool (sampleEnv (Ok "0xhash7"))
                                 burnerWallet "rare" exhaustedWorld))
                         eq_refl))).
  reflexivity.
Defined.

(** *** A failed marking goes unnoticed *)

Section MarkFailure.

Variable env : Env.

Lemma dbRun_ok {A} (statement : World -> Reply A * World) (w : World) :
  databaseFault env (tick w) = None ->
  dbRun env statement w = (fst (statement w), advance (snd (statement w))).
Proof.
  intros H. unfold dbRun. rewrite H. now destruct (statement w).
Qed.

Lemma dbRun_fault {A} (statement : World -> Reply A * World) (w : World) (e : string) :
  databaseFault env (tick w) = Some e ->
  dbRun env statement w = (Err e, advance w).
Proof.
  intros H. unfold dbRun. now rewrite H.
Qed.

Lemma allocation_with_three_answers (walletAddress rarity : string) (w : World)
    (row : PoolRow) :
  databaseFault env (tick w) = None ->
  databaseFault env (S (tick w)) = None ->
  databaseFault env (S (S (tick w))) = None ->
  find (isAvailable rarity) (nft_cid_pools w) = Some row ->
  exists w1,
    getResultNFTFromOffchainPool env walletAddress rarity w
      = (Ret (makeResultNFT env walletAddress rarity row (uuidv4 env (S (tick w)))), w1) /\
    tick w1 = S (S (S (S (tick w)))) /\
    (databaseFault env (S (S (S (tick w)))) = None ->
     nft_cid_pools w1 = map (markRow (pool_id row) walletAddress) (nft_cid_pools w)) /\
    (forall e, databaseFault env (S (S (S (tick w)))) = Some e ->
               nft_cid_pools w1 = nft_cid_pools w).
Proof.
  intros A0 A1 A2 Found. unfold getResultNFTFromOffchainPool. run.
  rewrite (dbRun_ok _ w A0). unfold selectAvailable. rewrite Found. cbn [fst snd].
  rewrite (dbRun_ok _ (advance w)) by exact A1. cbn [fst snd syncUserCollection].
  rewrite (dbRun_ok _ (advance (advance w))) by exact A2.
  cbn [fst snd insertDistributionRow].
  match goal with
  | |- context [dbRun env ?stmt ?w0] =>
      destruct (databaseFault env (tick w0)) as [e|] eqn:A3;
        [rewrite (dbRun_fault stmt w0 e A3) | rewrite (dbRun_ok stmt w0 A3)]
  end; cbn [fst snd markDistributed]; eexists; (split; [reflexivity|]);
    (split; [reflexivity|]); cbn in A3; split; intros; congruence || reflexivity.
Qed.

End MarkFailure.

(** X12. When the update that marks the pool entry fails, the allocation
    still returns its result and the entry stays undistributed: the next
    burn, even one that starts only after the first has ended, is given the
    same pool entry. *)
Theorem unmarked_entry_is_handed_out_again
    (env : Env) (firstWallet secondWallet rarity e : string) (w : World) (row : PoolRow) :
  databaseFault env (tick w) = None ->
  databaseFault env (S (tick w)) = None ->
  databaseFault env (S (S (tick w))) = None ->
  databaseFault env (S (S (S (tick w)))) = Some e ->
  (forall t, (S (S (S (tick w))) < t)%nat -> databaseFault env t = None) ->
  find (isAvailable rarity) (nft_cid_pools w) = Some row ->
  exists first w1 second w2,
    getResultNFTFromOffchainPool env firstWallet rarity w = (Ret first, w1) /\
    getResultNFTFromOffchainPool env secondWallet rarity w1 = (Ret second, w2) /\
    ipfs_hash first = cid row /\
    ipfs_hash second = cid row.
Proof.
  intros A0 A1 A2 A3 Later Found.
  destruct (allocation_with_three_answers env firstWallet rarity w row A0 A1 A2 Found)
    as (w1 & E1 & T1 & _ & Same).
  specialize (Same e A3).
  destruct (allocation_with_three_answers env secondWallet rarity w1 row)
    as (w2 & E2 & _); try (apply Later; lia); [now rewrite Same|].
  eexists. exists w1. eexists. exists w2. repeat split; eassumption || reflexivity.
Qed.

Lemma unmarked_entry_is_handed_out_again_witness :
  exists first w1 second w2,
    getResultNFTFromOffchainPool markFaultEnv burnerWallet "rare" sampleWorld
      = (Ret first, w1) /\
    getResultNFTFromOffchainPool markFaultEnv otherWallet "rare" w1 = (Ret second, w2) /\
    ipfs_hash first = "cid-rare-1" /\
    ipfs_hash second = "cid-rare-1".
Proof.
  apply (unmarked_entry_is_handed_out_again markFaultEnv burnerWallet otherWallet "rare"
           "connection reset" sampleWorld
           (mkPoolRow 1 "rare" false "cid-rare-1" "" "meta-rare-1" None));
    try reflexivity.
  intros t H. cbn in H. cbn.
  destruct t as [|[|[|[|t]]]]; try lia; reflexivity.
Defined.

(** *** Burns that go through on chain *)

Section Through.

Variable env : Env.

Hypothesis contracts_answer : forall t, exists a, initializeContracts env t = Ok a.
Hypothesis estimate_answers : forall t token, exists g, estimateGas env t token = Ok g.
Hypothesis price_answers : forall t, exists g, getGasPrice env t = Ok g.
Hypothesis transfer_answers :
  forall t from token, exists h, sendTransferFrom env t from token = Ok h.

Hypothesis database_answers : forall t, databaseFault env t = None.









End Through.





End BurnMoreFacts.

(** ** Staking service: ids, rarity keywords and the validation before a stake *)

Module StakingMoreFacts.

Import Staking StakingMore.

Ltac run :=
  cbv beta iota zeta
      delta [bind tryCatch ret throw outOfFuel get modify liftReply ask sleep submit
             negb] in *.

(** *** Token ids *)

Lemma digitsAtStart_split (s : string) :
  exists rest, s = digitsAtStart s ++ rest /\
               everyChar isDigit (digitsAtStart s) = true /\ digitFree rest = true.
Proof.
  induction s as [|c t (rest & E & D & F)]; cbn [digitsAtStart].
  - exists "". repeat split.
  - destruct (isDigit c) eqn:C.
    + exists rest. cbn. rewrite C, D. rewrite <- E. repeat split. exact F.
    + exists (String c t). cbn. rewrite C. repeat split.
Qed.

Lemma digitsAtStart_all (s : string) :
  everyChar isDigit s = true -> digitsAtStart s = s.
Proof.
  induction s as [|c t IH]; cbn; [reflexivity|].
  destruct (isDigit c); cbn; [|discriminate]. intros H. now rewrite IH.
Qed.

Lemma matchDigits_all (s : string) :
  s <> "" -> everyChar isDigit s = true -> matchDigits s = Some s.
Proof.
  destruct s as [|c t]; [congruence|]. intros _ H.
  cbn [matchDigits]. pose proof H as H'. cbn in H'.
  destruct (isDigit c); [|discriminate]. now rewrite digitsAtStart_all.
Qed.

Lemma uint_digits (d : Decimal.uint) :
  everyChar isDigit (NilEmpty.string_of_uint d) = true.
Proof.
  induction d; cbn; try reflexivity; exact IHd.
Qed.

Lemma showZ_digits (n : Z) :
  (0 <= n)%Z -> showZ n <> "" /\ everyChar isDigit (showZ n) = true.
Proof.
  intros H. unfold showZ. destruct n as [|p|p]; [split; [discriminate | reflexivity] | | lia].
  cbn [Z.to_int NilZero.string_of_int]. unfold NilZero.string_of_uint.
  destruct (Pos.to_uint p) eqn:E; try (split; [discriminate | apply (uint_digits (_ u))]).
  split; [discriminate | reflexivity].
Qed.

Lemma substring_all (s : string) : substring 0 (String.length s) s = s.
Proof.
  induction s as [|c t IH]; cbn; [reflexivity | now rewrite IH].
Qed.

(** X15. [extractTokenId] reads the first run of digits of an id: what it
    returns is not empty, is made of digits, is preceded in the id by no
    digit and followed by none; it throws, with 'Invalid NFT ID format',
    exactly when the id has no digit at all. *)
Theorem extractTokenId_reads_the_first_digits (nftId : string) :
  match extractTokenId nftId with
  | Ok digits =>
      exists before after,
        nftId = before ++ digits ++ after /\
        noDigit before = true /\
        digits <> "" /\ everyChar isDigit digits = true /\
        digitFree after = true
  | Err message => message = "Invalid NFT ID format" /\ noDigit nftId = true
  end.
Proof.
  unfold extractTokenId, noDigit.
  induction nftId as [|c t IH]; cbn [matchDigits].
  - split; reflexivity.
  - destruct (isDigit c) eqn:C.
    + destruct (digitsAtStart_split (String c t)) as (rest & E & D & F).
      exists "", rest. split; [exact E|]. split; [reflexivity|].
      split; [cbn; rewrite C; discriminate|]. split; assumption.
    + destruct (matchDigits t) as [digits|].
      * destruct IH as (before & after & E & N & NE & D & F).
        exists (String c before), after. cbn. rewrite C, N, <- E.
        repeat split; assumption.
      * destruct IH as (E & N). cbn. rewrite C, N. split; [exact E | reflexivity].
Qed.

Lemma extract_after_prefix (digits : string) :
  digits <> "" -> everyChar isDigit digits = true ->
  extractTokenId ("onchain_" ++ digits) = Ok digits.
Proof.
  intros NE D. unfold extractTokenId.
  change (matchDigits ("onchain_" ++ digits)) with (matchDigits digits).
  now rewrite matchDigits_all.
Qed.

Lemma remove_prefix (tokenId : string) : tokenIdOfNftId ("onchain_" ++ tokenId) = tokenId.
Proof.
  unfold tokenIdOfNftId. cbn.
  replace (prefix "" tokenId) with true by (now destruct tokenId).
  rewrite Nat.sub_0_r. apply substring_all.
Qed.

(** X16. The id the service gives a staked token, 'onchain_' followed by
    the decimal token id, is read back by both ways the service has of
    taking the token id out of it: [extractTokenId] and the
    [replace('onchain_', '')] of [stakeNFTOnChain] return the token id. *)
Theorem onchain_id_is_read_back (token : Z) :
  (0 <= token)%Z ->
  extractTokenId ("onchain_" ++ showZ token) = Ok (showZ token) /\
  tokenIdOfNftId ("onchain_" ++ showZ token) = showZ token.
Proof.
  intros H. destruct (showZ_digits token H) as (NE & D).
  split; [now apply extract_after_prefix | apply remove_prefix].
Qed.

Lemma onchain_id_is_read_back_witness :
  extractTokenId ("onchain_" ++ showZ 42) = Ok (showZ 42) /\
  tokenIdOfNftId ("onchain_" ++ showZ 42) = showZ 42.
Proof.
  apply (onchain_id_is_read_back 42). lia.
Defined.

(** *** Rarity keywords *)

Lemma prefix_app_includes (a b s : string) :
  String.prefix (a ++ b) s = true -> JS.includes b s = true.
Proof.
  revert s. induction a as [|c a IH]; intros s H.
  - cbn [append] in H. destruct s; cbn [JS.includes]; rewrite H; reflexivity.
  - destruct s as [|c' s]; [discriminate|]. cbn in H.
    destruct (ascii_dec c c'); [|discriminate].
    cbn [JS.includes]. rewrite (IH s H). apply orb_true_r.
Qed.

Lemma includes_app (a b s : string) :
  JS.includes (a ++ b) s = true -> JS.includes b s = true.
Proof.
  induction s as [|c s IH]; cbn [JS.includes]; intros H.
  - apply orb_true_iff in H. destruct H as [H|H]; [|discriminate].
    apply (prefix_app_includes a b "" H).
  - apply orb_true_iff in H. destruct H as [H|H].
    + apply (prefix_app_includes a b _ H).
    + rewrite (IH H). apply orb_true_r.
Qed.

(** X17. [extractRarityFromText] returns one of seven keywords, which the
    lower-cased text contains.  The keywords 'ultra rare' and 'super rare'
    are never returned: a text that contains one of them contains 'rare',
    which is tested first, so that such a text is read as 'legendary' or as
    'rare', and the rarity [normalizeRarity] makes of the keyword is one of
    the six spellings of the database. *)
Theorem text_rarity_is_one_of_seven (text : string) :
  (forall keyword, extractRarityFromText text = Some keyword ->
     In keyword ["legendary"; "rare"; "common"; "platinum"; "gold"; "silver"; "epic"] /\
     JS.includes keyword (JS.toLowerCase text) = true) /\
  (JS.includes "ultra rare" (JS.toLowerCase text) = true \/
   JS.includes "super rare" (JS.toLowerCase text) = true ->
   extractRarityFromText text = Some "legendary" \/
   extractRarityFromText text = Some "rare") /\
  In (normalizeRarity (extractRarityFromText text))
     ["Common"; "Rare"; "Legendary"; "Platinum"; "Silver"; "Gold"].
Proof.
  assert (Rare : JS.includes "ultra rare" (JS.toLowerCase text) = true \/
                 JS.includes "super rare" (JS.toLowerCase text) = true ->
                 JS.includes "rare" (JS.toLowerCase text) = true).
  { intros [H|H]; [apply (includes_app "ultra " "rare" _ H)
                  | apply (includes_app "super " "rare" _ H)]. }
  unfold extractRarityFromText, rarityKeywords.
  destruct text as [|c t]; [cbn; repeat split; try discriminate; auto;
                            intros [H|H]; discriminate|].
  cbn [JS.truthy negb find].
  destruct (JS.includes "legendary" _) eqn:K1;
    [split; [intros k E; inversion E; subst; split; [cbn; auto | exact K1]
            | split; [auto | cbn; auto]]|].
  destruct (JS.includes "rare" _) eqn:K2;
    [split; [intros k E; inversion E; subst; split; [cbn; auto | exact K2]
            | split; [auto | cbn; auto]]|].
  assert (No : ~ (JS.includes "ultra rare" (JS.toLowerCase (String c t)) = true \/
                  JS.includes "super rare" (JS.toLowerCase (String c t)) = true))
    by (intros H; specialize (Rare H); congruence).
  destruct (JS.includes "common" _) eqn:K3;
    [split; [intros k E; inversion E; subst; split; [cbn; auto | exact K3]
            | split; [intros H; now destruct No | cbn; auto]]|].
  destruct (JS.includes "platinum" _) eqn:K4;
    [split; [intros k E; inversion E; subst; split; [cbn; auto | exact K4]
            | split; [intros H; now destruct No | cbn; auto]]|].
  destruct (JS.includes "gold" _) eqn:K5;
    [split; [intros k E; inversion E; subst; split; [cbn; auto 10 | exact K5]
            | split; [intros H; now destruct No | cbn; auto 10]]|].
  destruct (JS.includes "silver" _) eqn:K6;
    [split; [intros k E; inversion E; subst; split; [cbn; auto 10 | exact K6]
            | split; [intros H; now destruct No | cbn; auto 10]]|].
  destruct (JS.includes "epic" _) eqn:K7;
    [split; [intros k E; inversion E; subst; split; [cbn; auto 10 | exact K7]
            | split; [intros H; now destruct No | cbn; auto 10]]|].
  destruct (JS.includes "ultra rare" _) eqn:K8; [exfalso; apply No; now left|].
  destruct (JS.includes "super rare" _) eqn:K9; [exfalso; apply No; now right|].
  split; [intros k E; discriminate|]. split; [intros H; now destruct No | cbn; auto].
Qed.

(** *** The validation before a stake *)

(** X18. What [paused()] and [stakingEnabled()] answer has no effect on
    [validateContractState]: the errors thrown for a paused contract and
    for disabled staking are caught by the handlers meant for contracts
    without these functions.  The validation makes its three reads and
    passes exactly when the [stakingToken()] read answers, so that a paused
    contract passes. *)
Theorem contract_state_validation_only_tests_connectivity (node : Node) (w : World) :
  exists w',
    validateContractState node w
      = (match stakingToken node (S (S (tick w))) with
         | Ok _ => Ret tt
         | Err _ =>
             Throw "Cannot connect to staking contract. Please check your network connection."
         end, w') /\
    tick w' = S (S (S (tick w))) /\
    onlyAsked w w'.
Proof.
  unfold validateContractState, onlyAsked. run.
  destruct (paused node (tick w)) as [[]|e];
    destruct (stakingEnabled node (tick (advance w))) as [[]|e'];
    cbn [advance tick];
    destruct (stakingToken node (S (S (tick w)))) as [a|e''];
    eexists; (split; [reflexivity|]); cbn; repeat split; lia.
Qed.

Lemma onlyAsked_refl (w : World) : onlyAsked w w.
Proof. unfold onlyAsked. auto 10. Qed.

Lemma onlyAsked_advance (w : World) : onlyAsked w (advance w).
Proof. unfold onlyAsked. cbn. repeat split. lia. Qed.

Lemma onlyAsked_trans (w1 w2 w3 : World) :
  onlyAsked w1 w2 -> onlyAsked w2 w3 -> onlyAsked w1 w3.
Proof.
  unfold onlyAsked. intros (T1 & C1 & R1 & S1 & L1) (T2 & C2 & R2 & S2 & L2).
  repeat split; try congruence. lia.
Qed.

Lemma prefix_self_app (n b : string) : String.prefix n (n ++ b) = true.
Proof.
  induction n as [|c n IH]; cbn; [now destruct b|].
  destruct (ascii_dec c c); [exact IH | congruence].
Qed.

Lemma includes_skip (n a s : string) :
  JS.includes n s = true -> JS.includes n (a ++ s) = true.
Proof.
  intros H. induction a as [|c a IH]; cbn [append JS.includes]; [exact H|].
  rewrite IH. apply orb_true_r.
Qed.

Lemma already_staked_message (tokenId : string) :
  JS.includes "already staked" ("Token #" ++ tokenId ++ " is already staked") = true.
Proof.
  apply (includes_skip _ "Token #"), includes_skip, (includes_skip _ " is ").
  reflexivity.
Qed.

Section Requirements.

Variable node : Node.

Lemma checkConfiguration_cases (w w' : World) (r : Outcome unit) :
  checkConfiguration node w = (r, w') ->
  r <> OutOfFuel /\ onlyAsked w w'.
Proof.
  unfold checkConfiguration, retryRPCCall. run.
  destruct (readOnlyWeb3 w); cbn [negb].
  - destruct (stakingToken node (tick w)) as [a|e].
    + destruct (JS.toLowerCase a =? JS.toLowerCase NFT_CONTRACT).
      * intros H. inversion H; subst. split; [discriminate | apply onlyAsked_advance].
      * destruct (JS.includes "Internal JSON-RPC error" (mismatchMessage a));
          intros H; inversion H; subst; (split; [discriminate | apply onlyAsked_advance]).
    + destruct (JS.includes "Internal JSON-RPC error" e);
        intros H; inversion H; subst; (split; [discriminate | apply onlyAsked_advance]).
  - destruct (JS.includes "Internal JSON-RPC error" _);
      intros H; inversion H; subst; (split; [discriminate | apply onlyAsked_refl]).
Qed.

Lemma verifyOwnership_cases (walletAddress tokenId : string) (w w' : World)
    (r : Outcome unit) :
  verifyOwnership node walletAddress tokenId w = (r, w') ->
  r <> OutOfFuel /\ onlyAsked w w' /\
  (r = Ret tt ->
   exists owner, ownerOf (chain node) (tick w) (TokStr tokenId) = Ok owner /\
                 JS.toLowerCase owner = JS.toLowerCase walletAddress).
Proof.
  unfold verifyOwnership. run.
  destruct (ownerOf (chain node) (tick w) (TokStr tokenId)) as [owner|e].
  - destruct (JS.toLowerCase owner =? JS.toLowerCase walletAddress) eqn:Own.
    + intros H. inversion H; subst. split; [discriminate|].
      split; [apply onlyAsked_advance|]. intros _. exists owner.
      split; [reflexivity | now apply String.eqb_eq].
    + destruct (JS.toLowerCase owner =? JS.toLowerCase STAKING_CONTRACT);
        match goal with
        | |- context [JS.includes "ERC721: invalid token ID" ?m] =>
            destruct (JS.includes "ERC721: invalid token ID" m);
              [|destruct (JS.includes "already staked" m || JS.includes "don't own" m)]
        end;
        intros H; inversion H; subst;
          (split; [discriminate | split; [apply onlyAsked_advance | discriminate]]).
  - destruct (JS.includes "ERC721: invalid token ID" e);
      [|destruct (JS.includes "already staked" e || JS.includes "don't own" e)];
      intros H; inversion H; subst;
        (split; [discriminate | split; [apply onlyAsked_advance | discriminate]]).
Qed.

Lemma verifyApproval_cases (walletAddress tokenId : string) (w w' : World)
    (r : Outcome unit) :
  verifyApproval node walletAddress tokenId w = (r, w') ->
  r <> OutOfFuel /\ onlyAsked w w' /\
  (r = Ret tt ->
   isApprovedForAll (chain node) (tick w) walletAddress STAKING_CONTRACT = Ok true \/
   exists approved,
     getApproved (chain node) (S (tick w)) (TokStr tokenId) = Ok approved /\
     JS.toLowerCase approved = JS.toLowerCase STAKING_CONTRACT).
Proof.
  unfold verifyApproval. run.
  destruct (isApprovedForAll (chain node) (tick w) walletAddress STAKING_CONTRACT)
    as [[]|e].
  - intros H. inversion H; subst. split; [discriminate|].
    split; [apply onlyAsked_advance|]. intros _. now left.
  - cbn [advance tick].
    destruct (getApproved (chain node) (S (tick w)) (TokStr tokenId)) as [approved|e].
    + destruct (JS.toLowerCase approved =? JS.toLowerCase STAKING_CONTRACT) eqn:A;
        intros H; inversion H; subst; (split; [discriminate|]);
          (split; [apply (onlyAsked_trans _ _ _ (onlyAsked_advance w)),
                         (onlyAsked_advance (advance w))|]).
      * intros _. right. exists approved. split; [reflexivity | now apply String.eqb_eq].
      * discriminate.
    + intros H. inversion H; subst. split; [discriminate|].
      split; [apply (onlyAsked_trans _ _ _ (onlyAsked_advance w)),
                    (onlyAsked_advance (advance w)) | discriminate].
  - intros H. inversion H; subst. split; [discriminate|].
    split; [apply onlyAsked_advance | discriminate].
Qed.

Lemma checkNotStaked_cases (walletAddress tokenId : string) (w w' : World)
    (r : Outcome unit) :
  checkNotStaked node walletAddress tokenId w = (r, w') ->
  r <> OutOfFuel /\ onlyAsked w w' /\
  (r = Ret tt ->
   match getStakeInfoCall (chain node) (tick w) walletAddress with
   | Ok stakeInfo => listedAsStaked tokenId stakeInfo = false
   | Err e => JS.includes "already staked" e = false
   end).
Proof.
  unfold checkNotStaked. run.
  destruct (getStakeInfoCall (chain node) (tick w) walletAddress) as [info|e].
  - destruct (listedAsStaked tokenId info).
    + rewrite already_staked_message. intros H. inversion H; subst.
      split; [discriminate | split; [apply onlyAsked_advance | discriminate]].
    + intros H. inversion H; subst.
      split; [discriminate | split; [apply onlyAsked_advance | reflexivity]].
  - destruct (JS.includes "already staked" e); intros H; inversion H; subst;
      (split; [discriminate | split; [apply onlyAsked_advance|]]);
      [discriminate | reflexivity].
Qed.

End Requirements.

(** X19. When [validateStakingRequirements] passes, the owner read of the
    token answered with the wallet's address (up to the case of the
    letters); unless the approval check was skipped, the blanket approval
    read answered true or the token's approved address is the staking
    contract; and the stake information either does not list the token or
    could not be read: a failure of that read is let through.  The
    validation only reads: it sends nothing to the wallet, writes nothing
    to the ledger and does not wait. *)
Theorem validation_passes_only_for_the_owner
    (node : Node) (walletAddress tokenId : string) (skipApprovalCheck : bool)
    (w w' : World) :
  validateStakingRequirements node walletAddress tokenId skipApprovalCheck w = (Ret tt, w') ->
  (exists t owner,
     ownerOf (chain node) t (TokStr tokenId) = Ok owner /\
     JS.toLowerCase owner = JS.toLowerCase walletAddress) /\
  (skipApprovalCheck = false ->
   exists t,
     isApprovedForAll (chain node) t walletAddress STAKING_CONTRACT = Ok true \/
     exists approved,
       getApproved (chain node) (S t) (TokStr tokenId) = Ok approved /\
       JS.toLowerCase approved = JS.toLowerCase STAKING_CONTRACT) /\
  (exists t,
     match getStakeInfoCall (chain node) t walletAddress with
     | Ok stakeInfo => listedAsStaked tokenId stakeInfo = false
     | Err e => JS.includes "already staked" e = false
     end) /\
  onlyAsked w w'.
Proof.
  unfold validateStakingRequirements, bind.
  destruct (checkConfiguration node w) as [[[]|e|] w1] eqn:E1; try discriminate.
  destruct (checkConfiguration_cases node _ _ _ E1) as (_ & F1).
  destruct (verifyOwnership node walletAddress tokenId w1) as [[[]|e|] w2] eqn:E2;
    try discriminate.
  destruct (verifyOwnership_cases node _ _ _ _ _ E2) as (_ & F2 & Own).
  destruct (Own eq_refl) as (owner & O1 & O2).
  destruct skipApprovalCheck; cbn [negb].
  - unfold ret at 1.
    destruct (checkNotStaked node walletAddress tokenId w2) as [[[]|e|] w3] eqn:E3;
      try discriminate.
    destruct (checkNotStaked_cases node _ _ _ _ _ E3) as (_ & F3 & Listed).
    intros H. inversion H; subst.
    split; [now exists (tick w1), owner|]. split; [discriminate|].
    split; [exists (tick w2); now apply Listed|].
    eapply onlyAsked_trans; [exact F1|]. eapply onlyAsked_trans; eassumption.
  - destruct (verifyApproval node walletAddress tokenId w2) as [[[]|e|] w3] eqn:E3;
      try discriminate.
    destruct (verifyApproval_cases node _ _ _ _ _ E3) as (_ & F3 & Approved).
    destruct (checkNotStaked node walletAddress tokenId w3) as [[[]|e|] w4] eqn:E4;
      try discriminate.
    destruct (checkNotStaked_cases node _ _ _ _ _ E4) as (_ & F4 & Listed).
    intros H. inversion H; subst.
    split; [now exists (tick w1), owner|].
    split; [intros _; exists (tick w2); now apply Approved|].
    split; [exists (tick w3); now apply Listed|].
    eapply onlyAsked_trans; [exact F1|]. eapply onlyAsked_trans; [exact F2|].
    eapply onlyAsked_trans; eassumption.
Qed.

Lemma validation_passes_only_for_the_owner_witness :
  (exists t owner,
     ownerOf (chain pausedNode) t (TokStr "42") = Ok owner /\
     JS.toLowerCase owner = JS.toLowerCase userWallet) /\
  (false = false ->
   exists t,
     isApprovedForAll (chain pausedNode) t userWallet STAKING_CONTRACT = Ok true \/
     exists approved,
       getApproved (chain pausedNode) (S t) (TokStr "42") = Ok approved /\
       JS.toLowerCase approved = JS.toLowerCase STAKING_CONTRACT) /\
  (exists t,
     match getStakeInfoCall (chain pausedNode) t userWallet with
     | Ok stakeInfo => listedAsStaked "42" stakeInfo = false
     | Err e => JS.includes "already staked" e = false
     end) /\
  onlyAsked freshWorld
            (snd (validateStakingRequirements pausedNode userWallet "42" false freshWorld)).
Proof.
  apply (validation_passes_only_for_the_owner pausedNode userWallet "42" false freshWorld).
  reflexivity.
Defined.

(** *** The staked tokens, as ids *)

(** X20. [getStakedNFTsOnChain] never throws and only reads.  When the
    contract reports token ids that are not negative, every id of the list
    it returns is 'onchain_' followed by a token id, and [extractTokenId]
    and the [replace] of [stakeNFTOnChain] both take that token id out of
    it again. *)
Theorem staked_ids_are_read_back (chain : Chain) (walletAddress : string) (w : World) :
  (forall t address stakeInfo,
     getStakeInfoCall chain t address = Ok stakeInfo ->
     Forall (fun token => (0 <= token)%Z) (stakedTokensOf stakeInfo)) ->
  exists ids w',
    getStakedNFTsOnChain chain walletAddress w = (Ret ids, w') /\
    onlyAsked w w' /\
    Forall (fun id => exists tokenId,
                        id = "onchain_" ++ tokenId /\
                        extractTokenId id = Ok tokenId /\
                        tokenIdOfNftId id = tokenId) ids.
Proof.
  intros NonNegative.
  unfold getStakedNFTsOnChain, getStakeInfo, getStakeInfoRead. run.
  destruct (initializeContracts chain (tick w)) as [[]|e];
    [|eexists; eexists; split; [reflexivity|]; split;
      [apply onlyAsked_advance | constructor]].
  destruct (toChecksumAddress chain walletAddress) as [address|e]; run;
    [|eexists; eexists; split; [reflexivity|]; split;
      [apply onlyAsked_advance | constructor]].
  destruct (getStakeInfoCall chain (tick (advance w)) address) as [stakeInfo|e] eqn:Read;
    [|eexists; eexists; split; [reflexivity|]; split;
      [apply (onlyAsked_trans _ _ _ (onlyAsked_advance w)), onlyAsked_advance
      | constructor]].
  eexists; eexists; split; [reflexivity|]. split;
    [apply (onlyAsked_trans _ _ _ (onlyAsked_advance w)), onlyAsked_advance|].
  cbn [stakedNFTs]. specialize (NonNegative _ _ _ Read).
  induction NonNegative as [|token tokens H _ IH]; cbn [map]; constructor; [|exact IH].
  destruct (showZ_digits token H) as (NE & D).
  exists (showZ token). split; [reflexivity|].
  split; [now apply extract_after_prefix | apply remove_prefix].
Qed.

Lemma staked_ids_are_read_back_witness :
  exists ids w',
    getStakedNFTsOnChain stakedChain userWallet freshWorld = (Ret ids, w') /\
    onlyAsked freshWorld w' /\
    Forall (fun id => exists tokenId,
                        id = "onchain_" ++ tokenId /\
                        extractTokenId id = Ok tokenId /\
                        tokenIdOfNftId id = tokenId) ids.
Proof.
  apply (staked_ids_are_read_back stakedChain userWallet freshWorld).
  intros t address stakeInfo H. cbn in H. inversion H; subst. cbn.
  repeat constructor; lia.
Defined.

(** *** Waiting for a receipt *)

Section ReceiptWait.

Variable chain : Chain.
Variable hash : string.

Lemma pollReceipt_cases (w : World) :
  (exists receipt,
     getTransactionReceipt chain (tick w) hash = Ok (Some receipt) /\
     pollReceipt chain hash w = (Ret (Return receipt), advance w)) \/
  (getTransactionReceipt chain (tick w) hash <> Ok None ->
   exists e, getTransactionReceipt chain (tick w) hash = Err e) /\
  (forall receipt, getTransactionReceipt chain (tick w) hash <> Ok (Some receipt)) /\
  pollReceipt chain hash w
    = (Ret (Next tt),
       mkWorld (S (tick w)) (clock w + 2000) (readOnlyWeb3 w) (submitted w) (staked_nfts w)).
Proof.
  unfold pollReceipt. run.
  destruct (getTransactionReceipt chain (tick w) hash) as [[receipt|]|e].
  - left. exists receipt. split; reflexivity.
  - right. split; [congruence|]. split; [discriminate | reflexivity].
  - right. split; [intros _; now exists e|]. split; [discriminate | reflexivity].
Qed.

Lemma waitForReceiptLoop_bounded (startTime timeoutMs : Z) :
  forall (fuel : nat) (w : World),
    (timeoutMs - (clock w - startTime) <= 2000 * Z.of_nat fuel)%Z ->
    exists r w',
      waitForReceiptLoop chain fuel hash startTime timeoutMs w = (r, w') /\
      r <> OutOfFuel /\
      (tick w <= tick w' <= tick w + fuel)%nat /\
      submitted w' = submitted w /\ staked_nfts w' = staked_nfts w /\
      (forall receipt, r = Ret receipt ->
         getTransactionReceipt chain (pred (tick w')) hash = Ok (Some receipt) /\
         (tick w < tick w')%nat /\
         clock w' = (clock w + 2000 * Z.of_nat (pred (tick w' - tick w)))%Z) /\
      (forall e, r = Throw e ->
         e = "Transaction receipt timeout after " ++ showZ timeoutMs
             ++ "ms for tx: " ++ hash /\
         (timeoutMs <= clock w' - startTime)%Z /\
         clock w' = (clock w + 2000 * Z.of_nat (tick w' - tick w))%Z) /\
      (forall t receipt, (tick w <= t < pred (tick w'))%nat ->
         getTransactionReceipt chain t hash <> Ok (Some receipt)).
Proof.
  induction fuel as [|fuel IH]; intros w Enough; cbn [waitForReceiptLoop]; run.
  - destruct (clock w - startTime <? timeoutMs)%Z eqn:Within;
      [apply Z.ltb_lt in Within; lia|].
    apply Z.ltb_ge in Within.
    eexists; eexists; split; [reflexivity|]. split; [discriminate|].
    split; [lia|]. split; [reflexivity|]. split; [reflexivity|].
    split; [discriminate|]. split; [|intros; lia].
    intros e E. inversion E; subst. split; [reflexivity|]. split; [exact Within|].
    rewrite Nat.sub_diag. cbn. lia.
  - destruct (clock w - startTime <? timeoutMs)%Z eqn:Within.
    + destruct (pollReceipt_cases w) as [(receipt & Found & Poll) | (_ & None & Poll)];
        fold (pollReceipt chain hash w); rewrite Poll.
      * eexists; eexists; split; [reflexivity|]. split; [discriminate|].
        cbn [advance tick clock submitted staked_nfts].
        split; [lia|]. split; [reflexivity|]. split; [reflexivity|].
        split; [|split; [discriminate | intros; lia]].
        intros r E. inversion E; subst. cbn [pred]. split; [exact Found|].
        split; [lia|]. replace (S (tick w) - tick w)%nat with 1%nat by lia. cbn. lia.
      * match goal with
        | |- context [waitForReceiptLoop chain fuel hash startTime timeoutMs ?w0] =>
            destruct (IH w0) as (r & w' & E & NF & T & Sub & L & OnRet & OnThrow & Before);
              [cbn [clock]; lia|]
        end.
        cbn [tick clock submitted staked_nfts] in *.
        exists r, w'. split; [exact E|]. split; [exact NF|]. split; [lia|].
        split; [exact Sub|]. split; [exact L|]. split; [|split].
        -- intros receipt R. destruct (OnRet receipt R) as (Found & Lt & C).
           split; [exact Found|]. split; [lia|]. rewrite C.
           replace (pred (tick w' - tick w)) with (S (pred (tick w' - S (tick w)))) by lia.
           lia.
        -- intros e R. destruct (OnThrow e R) as (Msg & Late & C).
           split; [exact Msg|]. split; [exact Late|]. rewrite C.
           replace (tick w' - tick w)%nat with (S (tick w' - S (tick w))) by lia. lia.
        -- intros t receipt Range.
           destruct (Nat.eq_dec t (tick w)) as [->|Other]; [apply None|].
           apply Before. lia.
    + apply Z.ltb_ge in Within.
      eexists; eexists; split; [reflexivity|]. split; [discriminate|].
      split; [lia|]. split; [reflexivity|]. split; [reflexivity|].
      split; [discriminate|]. split; [|intros; lia].
      intros e E. inversion E; subst. split; [reflexivity|]. split; [exact Within|].
      rewrite Nat.sub_diag. cbn. lia.
Qed.

End ReceiptWait.

(** X21. The wait for a receipt ends.  [waitForTransactionReceiptSafe]
    polls at most [timeoutMs / 2000 + 1] times, sleeping two seconds after
    each poll that has no receipt, and sends nothing.  It returns the first
    receipt the node has, at the poll that found it, and throws its timeout
    error only once at least [timeoutMs] have gone by. *)
Theorem receipt_wait_is_bounded (chain : Chain) (hash : string) (timeoutMs : Z) (w : World) :
  exists r w',
    waitForTransactionReceiptSafe chain hash timeoutMs w = (r, w') /\
    r <> OutOfFuel /\
    (tick w <= tick w' <= tick w + S (Z.to_nat (timeoutMs / 2000)))%nat /\
    submitted w' = submitted w /\ staked_nfts w' = staked_nfts w /\
    (forall receipt, r = Ret receipt ->
       getTransactionReceipt chain (pred (tick w')) hash = Ok (Some receipt) /\
       (tick w < tick w')%nat /\
       clock w' = (clock w + 2000 * Z.of_nat (pred (tick w' - tick w)))%Z) /\
    (forall e, r = Throw e ->
       e = "Transaction receipt timeout after " ++ showZ timeoutMs
           ++ "ms for tx: " ++ hash /\
       (timeoutMs <= clock w' - clock w)%Z /\
       clock w' = (clock w + 2000 * Z.of_nat (tick w' - tick w))%Z) /\
    (forall t receipt, (tick w <= t < pred (tick w'))%nat ->
       getTransactionReceipt chain t hash <> Ok (Some receipt)).
Proof.
  unfold waitForTransactionReceiptSafe. run.
  apply waitForReceiptLoop_bounded.
  rewrite Z.sub_diag, Z.sub_0_r, Nat2Z.inj_succ.
  destruct (Z.le_gt_cases 0 timeoutMs) as [NonNeg|Neg].
  - rewrite Z2Nat.id by (apply Z.div_pos; lia).
    pose proof (Z.mul_succ_div_gt timeoutMs 2000 ltac:(lia)). lia.
  - pose proof (Zle_0_nat (Z.to_nat (timeoutMs / 2000))). lia.
Qed.

(** *** The automatic approval *)

(** X22. [performAutomaticApproval] never throws, and every call of it
    hands exactly one [setApprovalForAll] request to the wallet, whatever
    the gas price reads answer.  It returns true only when the approval
    read that follows the request answered true, or when the request or
    that read failed with an error that mentions 'already approved'. *)
Theorem automatic_approval_asks_the_wallet_once
    (chain : Chain) (walletAddress : string) (w : World) :
  exists approved w',
    performAutomaticApproval chain walletAddress w = (Ret approved, w') /\
    submitted w' = SetApprovalForAll walletAddress :: submitted w /\
    staked_nfts w' = staked_nfts w /\
    (approved = true ->
     (exists t, isApprovedForAll chain t walletAddress STAKING_CONTRACT = Ok true) \/
     (exists t e,
        JS.includes "already approved" e = true /\
        (sendSetApprovalForAll chain t walletAddress = Err e \/
         isApprovedForAll chain t walletAddress STAKING_CONTRACT = Err e))).
Proof.
  assert (Gas : exists w0, getGasPriceWithFallback chain w = (Ret tt, w0) /\
                           submitted w0 = submitted w /\ staked_nfts w0 = staked_nfts w).
  { unfold getGasPriceWithFallback. run.
    destruct (getGasPrice chain (tick w)); [|destruct (netGetId chain (tick (advance w)))];
      eexists; repeat split. }
  destruct Gas as (w0 & G & S0 & L0).
  unfold performAutomaticApproval, retryRPCCall. run. rewrite G.
  cbn [tick clock readOnlyWeb3 submitted staked_nfts].
  destruct (sendSetApprovalForAll chain (tick w0) walletAddress) as [tx|e] eqn:Send.
  - cbn [advance tick clock readOnlyWeb3 submitted staked_nfts].
    destruct (readOnlyWeb3 w0);
      cbn [negb advance tick clock readOnlyWeb3 submitted staked_nfts].
    + destruct (isApprovedForAll chain (S (tick w0)) walletAddress STAKING_CONTRACT)
        as [[]|e] eqn:Read.
      * eexists; eexists; split; [reflexivity|]. cbn. rewrite S0, L0.
        repeat split. intros _. left. now exists (S (tick w0)).
      * eexists; eexists; split; [reflexivity|]. cbn. rewrite S0, L0.
        repeat split. discriminate.
      * destruct (JS.truthy e && (JS.includes "User denied" e || JS.includes "cancelled" e));
          [|destruct (JS.truthy e && JS.includes "already approved" e) eqn:Already];
          eexists; eexists; (split; [reflexivity|]); cbn; rewrite S0, L0;
            repeat split; try discriminate.
        intros _. right. exists (S (tick w0)), e.
        apply andb_true_iff in Already. split; [apply Already | now right].
    + eexists; eexists; split; [reflexivity|]. cbn. rewrite S0, L0.
      repeat split. discriminate.
  - destruct (JS.truthy e && (JS.includes "User denied" e || JS.includes "cancelled" e));
      [|destruct (JS.truthy e && JS.includes "already approved" e) eqn:Already];
      eexists; eexists; (split; [reflexivity|]); cbn; rewrite S0, L0;
        repeat split; try discriminate.
    intros _. right. exists (tick w0), e.
    apply andb_true_iff in Already. split; [apply Already | now left].
Qed.

(** *** The on-chain unstake *)

Ltac walk :=
  cbv beta iota zeta delta [bind tryCatch ret throw liftReply modify negb] in *.

Section UnstakeFacts.

Variable vault : Vault.

Lemma lift_runs {A} (m : M World A) (d : Desk) :
  lift m d = (fst (m (world d)), mkDesk (snd (m (world d))) (withdrawals d)).
Proof.
  unfold lift. now destruct (m (world d)).
Qed.

Lemma lift_ask {A} (oracle : nat -> Reply A) (d : Desk) :
  lift (ask oracle) d
  = (match oracle (tick (world d)) with Ok a => Ret a | Err e => Throw e end,
     mkDesk (advance (world d)) (withdrawals d)).
Proof.
  rewrite lift_runs. unfold ask. now destruct (oracle (tick (world d))).
Qed.

Lemma withdrawGas_cases (numericTokenId : Z) (d : Desk) :
  exists d', withdrawGas vault numericTokenId d = (Ret tt, d') /\
             withdrawals d' = withdrawals d.
Proof.
  unfold withdrawGas. walk. rewrite lift_ask.
  destruct (getGasPrice (vault_chain vault) (tick (world d))) as [g|e];
    [rewrite lift_ask; cbn [world withdrawals];
     destruct (estimateWithdrawGas vault _ numericTokenId) |];
    eexists; split; reflexivity.
Qed.

Lemma findWithdrawTransaction_cases (userAccount contractError : string) (d : Desk) :
  exists r d', findWithdrawTransaction vault userAccount contractError d = (r, d') /\
               r <> OutOfFuel /\ withdrawals d' = withdrawals d.
Proof.
  unfold findWithdrawTransaction. walk. rewrite lift_ask.
  destruct (getBlockNumber (vault_chain vault) (tick (world d))) as [latest|e];
    [|eexists; eexists; split; [reflexivity|]; split; [discriminate | reflexivity]].
  rewrite lift_ask. cbn [world withdrawals].
  destruct (getBlock (vault_chain vault) _ latest) as [[block|]|e];
    [destruct (transactions block) as [txs|];
     [destruct (find (isStakeTxOf userAccount) txs)|] | |];
    eexists; eexists; (split; [reflexivity|]); (split; [discriminate | reflexivity]).
Qed.

Lemma sendWithdrawTransaction_cases (userAccount : string) (numericTokenId : Z) (d : Desk) :
  exists r d',
    sendWithdrawTransaction vault userAccount numericTokenId d = (r, d') /\
    r <> OutOfFuel /\
    (withdrawals d' = RawWithdraw userAccount numericTokenId :: withdrawals d \/
     withdrawals d'
       = ContractWithdraw userAccount numericTokenId
         :: RawWithdraw userAccount numericTokenId :: withdrawals d).
Proof.
  unfold sendWithdrawTransaction, request. walk. rewrite lift_ask. cbn [world withdrawals].
  destruct (sendRawWithdraw vault (tick (world d)) userAccount numericTokenId) as [h|e];
    [eexists; eexists; split; [reflexivity|]; split; [discriminate | now left]|].
  rewrite lift_ask. cbn [world withdrawals].
  destruct (sendWithdraw vault _ userAccount numericTokenId) as [h|e'];
    [eexists; eexists; split; [reflexivity|]; split; [discriminate | now right]|].
  destruct (JS.truthy e' && JS.includes "Parameter decoding error" e');
    [|eexists; eexists; split; [reflexivity|]; split; [discriminate | now right]].
  match goal with
  | |- context [findWithdrawTransaction vault userAccount e' ?d0] =>
      destruct (findWithdrawTransaction_cases userAccount e' d0) as (r & d1 & E & NF & W)
  end.
  exists r, d1. split; [exact E|]. split; [exact NF|]. right. exact W.
Qed.

Lemma receipt_wait_cases (hash : string) (d : Desk) :
  exists r d',
    lift (waitForTransactionReceiptSafe (vault_chain vault) hash 60000) d = (r, d') /\
    r <> OutOfFuel /\ withdrawals d' = withdrawals d /\
    (forall receipt, r = Ret receipt ->
       exists t, getTransactionReceipt (vault_chain vault) t hash = Ok (Some receipt)).
Proof.
  rewrite lift_runs. eexists; eexists; split; [reflexivity|].
  unfold waitForTransactionReceiptSafe. run.
  destruct (waitForReceiptLoop_bounded (vault_chain vault) hash (clock (world d)) 60000
              (S (Z.to_nat (60000 / 2000))) (world d))
    as (r & w' & E & NF & _ & _ & _ & OnRet & _);
    [change (Z.of_nat (S (Z.to_nat (60000 / 2000)))) with 31%Z; lia|].
  rewrite E. cbn [fst snd withdrawals]. split; [exact NF|]. split; [reflexivity|].
  intros receipt R. destruct (OnRet receipt R) as (Found & _). eauto.
Qed.

Lemma ledger_update_cases (walletAddress tokenId : string) (d : Desk) :
  exists d',
    lift (updateOffchainStakingRecord (vault_chain vault) walletAddress tokenId
                                      StatusUnstaked) d = (Ret tt, d') /\
    withdrawals d' = withdrawals d.
Proof.
  rewrite lift_runs. unfold updateOffchainStakingRecord. run.
  match goal with
  | |- context [updateByPossibleIds ?c ?a ?s ?ids ?w0] =>
      destruct (StakingFacts.updateByPossibleIds_keeps_records c a s ids w0)
        as (u & w' & E & _)
  end.
  rewrite E. eexists. split; reflexivity.
Qed.

End UnstakeFacts.

(** X23. [unstakeNFTOnChain] always answers with a response, it never
    throws.  It asks the wallet to sign at most twice: the raw transaction
    and, if that fails, the contract method.  A response that reports
    success was preceded by a read of the stake information that lists the
    token, by at least one such request, and by a receipt of the node whose
    status is not a failure; the response carries the hash of that
    receipt. *)
Theorem onchain_unstake_always_answers
    (vault : Vault) (walletAddress tokenId : string) (d : Desk) :
  exists response d',
    unstakeNFTOnChain vault walletAddress tokenId d = (Ret response, d') /\
    (withdrawals d' = withdrawals d \/
     exists account token,
       withdrawals d' = RawWithdraw account token :: withdrawals d \/
       withdrawals d'
         = ContractWithdraw account token :: RawWithdraw account token :: withdrawals d) /\
    (unstake_success response = true ->
     withdrawals d' <> withdrawals d /\
     (exists token t address stakeInfo,
        parseInt vault tokenId = Some token /\
        getStakeInfoCall (vault_chain vault) t address = Ok stakeInfo /\
        isStakedFor vault tokenId token (stakedTokensOf stakeInfo) = true) /\
     (exists t hash receipt,
        getTransactionReceipt (vault_chain vault) t hash = Ok (Some receipt) /\
        receiptFailed receipt = false /\
        unstake_transactionHash response = Some (transactionHash receipt))).
Proof.
  unfold unstakeNFTOnChain. walk. rewrite lift_ask.
  destruct (requestAccounts vault (tick (world d))) as [[account|]|e];
    try (eexists; eexists; split; [reflexivity|]; split; [now left | discriminate]).
  destruct (JS.truthy account); cbn [negb];
    try (eexists; eexists; split; [reflexivity|]; split; [now left | discriminate]).
  destruct (parseInt vault tokenId) as [token|] eqn:Parse;
    try (eexists; eexists; split; [reflexivity|]; split; [now left | discriminate]).
  destruct (token <? 0)%Z;
    try (eexists; eexists; split; [reflexivity|]; split; [now left | discriminate]).
  destruct (toChecksumAddress (vault_chain vault) walletAddress) as [address|e];
    try (eexists; eexists; split; [reflexivity|]; split; [now left | discriminate]).
  rewrite lift_ask. cbn [world withdrawals].
  destruct (getStakeInfoCall (vault_chain vault) (tick (advance (world d))) address)
    as [stakeInfo|e] eqn:Read;
    try (eexists; eexists; split; [reflexivity|]; split; [now left | discriminate]).
  destruct (isStakedFor vault tokenId token (stakedTokensOf stakeInfo)) eqn:Listed;
    cbn [negb];
    try (eexists; eexists; split; [reflexivity|]; split; [now left | discriminate]).
  match goal with
  | |- context [withdrawGas vault token ?d0] =>
      destruct (withdrawGas_cases vault token d0) as (d1 & E1 & W1); rewrite E1
  end.
  cbn [withdrawals] in W1.
  destruct (sendWithdrawTransaction_cases vault account token d1)
    as (r2 & d2 & E2 & NF2 & W2).
  rewrite E2. rewrite W1 in W2.
  assert (Asked : exists account0 token0,
             withdrawals d2 = RawWithdraw account0 token0 :: withdrawals d \/
             withdrawals d2
               = ContractWithdraw account0 token0 :: RawWithdraw account0 token0
                 :: withdrawals d) by (exists account, token; exact W2).
  assert (Changed : withdrawals d2 <> withdrawals d).
  { intros Same. destruct W2 as [W2|W2]; rewrite Same in W2;
      apply (f_equal (@List.length _)) in W2; cbn in W2; lia. }
  destruct r2 as [hash|e|]; [| |contradiction];
    [|eexists; eexists; split; [reflexivity|]; split; [now right | discriminate]].
  destruct (receipt_wait_cases vault hash d2) as (r3 & d3 & E3 & NF3 & W3 & Found).
  rewrite E3. rewrite <- W3 in Asked, Changed.
  destruct r3 as [receipt|e|]; [| |contradiction];
    [|eexists; eexists; split; [reflexivity|]; split; [now right | discriminate]].
  destruct (receiptFailed receipt) eqn:Status;
    [eexists; eexists; split; [reflexivity|]; split; [now right | discriminate]|].
  destruct (ledger_update_cases vault walletAddress tokenId d3) as (d4 & E4 & W4).
  rewrite E4. rewrite <- W4 in Asked, Changed.
  eexists; eexists; split; [reflexivity|]. split; [now right|].
  intros _. split; [exact Changed|]. split.
  - exists token, (tick (advance (world d))), address, stakeInfo. auto.
  - destruct (Found receipt eq_refl) as (t & F). exists t, hash, receipt. auto.
Qed.

(** X24. A token that the stake information does not list is not
    withdrawn: [unstakeNFTOnChain] reports a failure without asking the
    wallet for anything, and leaves the ledger as it is. *)
Theorem unlisted_token_is_not_withdrawn
    (vault : Vault) (walletAddress tokenId : string) (d : Desk) :
  (forall token t address stakeInfo,
     parseInt vault tokenId = Some token ->
     getStakeInfoCall (vault_chain vault) t address = Ok stakeInfo ->
     isStakedFor vault tokenId token (stakedTokensOf stakeInfo) = false) ->
  exists response d',
    unstakeNFTOnChain vault walletAddress tokenId d = (Ret response, d') /\
    unstake_success response = false /\
    withdrawals d' = withdrawals d /\
    onlyAsked (world d) (world d').
Proof.
  intros Unlisted. unfold unstakeNFTOnChain. walk. rewrite lift_ask.
  destruct (requestAccounts vault (tick (world d))) as [[account|]|e];
    try (eexists; eexists; split; [reflexivity|]; repeat split; apply onlyAsked_advance).
  destruct (JS.truthy account); cbn [negb];
    try (eexists; eexists; split; [reflexivity|]; repeat split; apply onlyAsked_advance).
  destruct (parseInt vault tokenId) as [token|] eqn:Parse;
    try (eexists; eexists; split; [reflexivity|]; repeat split; apply onlyAsked_advance).
  destruct (token <? 0)%Z;
    try (eexists; eexists; split; [reflexivity|]; repeat split; apply onlyAsked_advance).
  destruct (toChecksumAddress (vault_chain vault) walletAddress) as [address|e];
    try (eexists; eexists; split; [reflexivity|]; repeat split; apply onlyAsked_advance).
  rewrite lift_ask. cbn [world withdrawals].
  destruct (getStakeInfoCall (vault_chain vault) (tick (advance (world d))) address)
    as [stakeInfo|e] eqn:Read.
  - rewrite (Unlisted token _ _ _ eq_refl Read). cbn [negb].
    eexists; eexists; split; [reflexivity|]. repeat split.
    apply (onlyAsked_trans _ _ _ (onlyAsked_advance (world d))), onlyAsked_advance.
  - eexists; eexists; split; [reflexivity|]. repeat split.
    apply (onlyAsked_trans _ _ _ (onlyAsked_advance (world d))), onlyAsked_advance.
Qed.

Lemma unlisted_token_is_not_withdrawn_witness :
  exists response d',
    unstakeNFTOnChain sampleVault userWallet "5" freshDesk = (Ret response, d') /\
    unstake_success response = false /\
    withdrawals d' = withdrawals freshDesk /\
    onlyAsked (world freshDesk) (world d').
Proof.
  apply (unlisted_token_is_not_withdrawn sampleVault userWallet "5" freshDesk).
  intros token t address stakeInfo P R. cbn in P, R. inversion P; subst.
  inversion R; subst. reflexivity.
Defined.

(** *** Recovering the on-chain stakes into the ledger *)

Lemma getStakeInfo_asks (chain : Chain) (walletAddress : string) (w : World) :
  exists stakeInfo w',
    getStakeInfo chain walletAddress w = (Ret stakeInfo, w') /\ onlyAsked w w'.
Proof.
  unfold getStakeInfo, getStakeInfoRead. run.
  destruct (initializeContracts chain (tick w)) as [[]|e];
    [|eexists; eexists; split; [reflexivity | apply onlyAsked_advance]].
  destruct (toChecksumAddress chain walletAddress) as [address|e]; run;
    [|eexists; eexists; split; [reflexivity | apply onlyAsked_advance]].
  destruct (getStakeInfoCall chain (tick (advance w)) address) as [stakeInfo|e];
    eexists; eexists; (split; [reflexivity|]);
    apply (onlyAsked_trans _ _ _ (onlyAsked_advance w)), onlyAsked_advance.
Qed.

Lemma getStakeInfo_reads (chain : Chain) (walletAddress address : string)
    (stakeInfo : RawStakeInfo) (w : World) :
  (forall t, initializeContracts chain t = Ok tt) ->
  toChecksumAddress chain walletAddress = Ok address ->
  (forall t, getStakeInfoCall chain t address = Ok stakeInfo) ->
  exists w',
    getStakeInfo chain walletAddress w
      = (Ret (mkStakeInfo (map showZ (stakedTokensOf stakeInfo))
                          (fromWei chain (pendingRewardsOf stakeInfo))), w') /\
    onlyAsked w w'.
Proof.
  intros Init Sum Read. unfold getStakeInfo, getStakeInfoRead. run.
  rewrite Init, Sum. run. rewrite Read.
  eexists; split; [reflexivity|].
  apply (onlyAsked_trans _ _ _ (onlyAsked_advance w)), onlyAsked_advance.
Qed.

Section RecoveryFacts.

Variable chain : Chain.
Variable stakes : nat -> string -> Reply Z.
Variable walletAddress : string.

Lemma recoverEach_adds (existing tokenIds : list string) :
  forall (n : nat) (w : World),
    exists m w' added,
      recoverEach chain stakes walletAddress existing tokenIds n w = (Ret m, w') /\
      staked_nfts w' = (staked_nfts w ++ added)%list /\
      m = (n + length added)%nat /\
      submitted w' = submitted w /\
      Forall (fun r => exists tokenId stakeTimestamp,
                         existsb (String.eqb tokenId) existing = false /\
                         r = recoveredRecord walletAddress tokenId stakeTimestamp) added.
Proof.
  induction tokenIds as [|tokenId rest IH]; intros n w; cbn [recoverEach].
  - exists n, w, []. rewrite app_nil_r. cbn. repeat split; [lia | constructor].
  - destruct (existsb (String.eqb tokenId) existing) eqn:Known; [apply IH|].
    unfold insertStake. run.
    destruct (stakes (tick w) tokenId) as [stakeTimestamp|e];
      [destruct (databaseFault chain (tick (advance w))) as [e|]|].
    + destruct (IH n (advance (advance w))) as (m & w' & added & E & L & C & S0 & F).
      rewrite E. exists m, w', added. repeat split; assumption.
    + match goal with
      | |- context [recoverEach chain stakes walletAddress existing rest (S n) ?w0] =>
          destruct (IH (S n) w0) as (m & w' & added & E & L & C & S0 & F)
      end.
      rewrite E. cbn [staked_nfts submitted] in L, S0.
      exists m, w', (recoveredRecord walletAddress tokenId stakeTimestamp :: added).
      split; [reflexivity|]. split; [now rewrite L, <- app_assoc|].
      split; [cbn; lia|]. split; [exact S0|].
      constructor; [|exact F]. now exists tokenId, stakeTimestamp.
    + destruct (IH n (advance w)) as (m & w' & added & E & L & C & S0 & F).
      rewrite E. exists m, w', added. repeat split; assumption.
Qed.

Lemma recoverEach_skips (existing tokenIds : list string) :
  Forall (fun tokenId => existsb (String.eqb tokenId) existing = true) tokenIds ->
  forall (n : nat) (w : World),
    recoverEach chain stakes walletAddress existing tokenIds n w = (Ret n, w).
Proof.
  induction 1 as [|tokenId rest Known _ IH]; intros n w; cbn [recoverEach].
  - reflexivity.
  - rewrite Known. apply IH.
Qed.

Lemma recoverEach_fills (existing tokenIds : list string) :
  (forall t, databaseFault chain t = None) ->
  (forall t tokenId, exists stakeTimestamp, stakes t tokenId = Ok stakeTimestamp) ->
  forall (n : nat) (w : World),
    exists m w' added,
      recoverEach chain stakes walletAddress existing tokenIds n w = (Ret m, w') /\
      staked_nfts w' = (staked_nfts w ++ added)%list /\
      Forall (fun r => isOnchainStakeOf walletAddress r = true) added /\
      Forall (fun tokenId =>
                existsb (String.eqb tokenId) existing = true \/
                In tokenId (map (fun r => tokenIdOfNftId (nftRef r)) added)) tokenIds.
Proof.
  intros Db Stakes.
  induction tokenIds as [|tokenId rest IH]; intros n w; cbn [recoverEach].
  - exists n, w, []. rewrite app_nil_r. repeat split; constructor.
  - destruct (existsb (String.eqb tokenId) existing) eqn:Known.
    + destruct (IH n w) as (m & w' & added & E & L & Sel & All).
      exists m, w', added. repeat split; try assumption. constructor; [now left | exact All].
    + unfold insertStake. run.
      destruct (Stakes (tick w) tokenId) as (stakeTimestamp & Read). rewrite Read, Db.
      match goal with
      | |- context [recoverEach chain stakes walletAddress existing rest (S n) ?w0] =>
          destruct (IH (S n) w0) as (m & w' & added & E & L & Sel & All)
      end.
      rewrite E. cbn [staked_nfts] in L.
      exists m, w', (recoveredRecord walletAddress tokenId stakeTimestamp :: added).
      split; [reflexivity|]. split; [now rewrite L, <- app_assoc|]. split.
      * constructor; [|exact Sel]. unfold isOnchainStakeOf, recoveredRecord.
        cbn. now rewrite String.eqb_refl.
      * constructor.
        -- right. left. cbn [recoveredRecord nftRef]. apply remove_prefix.
        -- eapply Forall_impl; [|exact All]. intros tok [H|H]; [now left|].
           right. now right.
Qed.

End RecoveryFacts.

(** X25. [recoverOnchainStakedNFTs] reports success whatever the chain and
    the database answer, and only ever adds rows to the ledger: the rows
    that were there stay as they are and in place, and as many rows are
    added as the result counts.  A row it adds is the 'Common', zero-reward,
    on-chain record of a staked token; when the database answers, none is
    added for a token of which the wallet already has an on-chain row. *)
Theorem recovery_only_adds_missing_stakes
    (chain : Chain) (stakes : nat -> string -> Reply Z) (walletAddress : string)
    (w : World) :
  exists result w' added,
    recoverOnchainStakedNFTs chain stakes walletAddress w = (Ret result, w') /\
    recovery_success result = true /\
    staked_nfts w' = (staked_nfts w ++ added)%list /\
    recovered result = length added /\
    submitted w' = submitted w /\
    Forall (fun r => exists tokenId stakeTimestamp,
                       r = recoveredRecord walletAddress tokenId stakeTimestamp) added /\
    ((forall t, databaseFault chain t = None) ->
     Forall (fun r => ~ In (nftRef r)
                         (map nftRef (filter (isOnchainStakeOf walletAddress)
                                             (staked_nfts w)))) added).
Proof.
  unfold recoverOnchainStakedNFTs.
  destruct (getStakeInfo_asks chain walletAddress w) as (stakeInfo & w0 & E0 & _ & _ & _ & S0 & L0).
  unfold bind at 1, tryCatch. rewrite E0.
  destruct (length (stakedNFTs stakeInfo) =? 0)%nat.
  - exists (mkRecoveryResult true 0 None), w0, []. rewrite app_nil_r. cbn.
    repeat split; try assumption; constructor.
  - unfold bind at 1.
    assert (Sel : exists rows,
               selectOnchainStakes chain walletAddress w0 = (Ret rows, advance w0) /\
               ((forall t, databaseFault chain t = None) ->
                rows = filter (isOnchainStakeOf walletAddress) (staked_nfts w))).
    { unfold selectOnchainStakes. destruct (databaseFault chain (tick w0)) eqn:Db.
      - exists []. split; [reflexivity|]. intros H. rewrite H in Db. discriminate.
      - eexists. split; [reflexivity|]. intros _. now rewrite L0. }
    destruct Sel as (rows & E1 & Rows). rewrite E1. cbv zeta. unfold bind at 1.
    destruct (recoverEach_adds chain stakes walletAddress
                (map (fun stake => tokenIdOfNftId (nftRef stake)) rows)
                (stakedNFTs stakeInfo) 0 (advance w0))
      as (m & w' & added & E2 & L2 & C2 & S2 & F2).
    rewrite E2. exists (mkRecoveryResult true m None), w', added.
    cbn [ret recovery_success recovered staked_nfts submitted advance] in *.
    split; [reflexivity|]. split; [reflexivity|]. split; [now rewrite L2, L0|].
    split; [exact C2|]. split; [now rewrite S2, S0|]. split.
    + eapply Forall_impl; [|exact F2]. intros r (tokenId & ts & _ & R). eauto.
    + intros Db. rewrite <- (Rows Db).
      eapply Forall_impl; [|exact F2]. intros r (tokenId & ts & Unknown & ->) Known.
      cbn [recoveredRecord nftRef] in Known. apply in_map_iff in Known.
      destruct Known as (row & Ref & Row).
      assert (In tokenId (map (fun stake => tokenIdOfNftId (nftRef stake)) rows)).
      { apply in_map_iff. exists row. split; [|exact Row]. rewrite Ref. apply remove_prefix. }
      assert (existsb (String.eqb tokenId)
                      (map (fun stake => tokenIdOfNftId (nftRef stake)) rows) = true).
      { apply existsb_exists. exists tokenId. split; [assumption | apply String.eqb_refl]. }
      congruence.
Qed.

(** X26. A recovery that is run again finds nothing to do.  When the
    chain and the database answer and the contract reports the same staked
    tokens, a second [recoverOnchainStakedNFTs] right after a first one
    recovers no token and leaves the ledger as the first one left it. *)
Theorem second_recovery_adds_nothing
    (chain : Chain) (stakes : nat -> string -> Reply Z) (walletAddress address : string)
    (stakeInfo : RawStakeInfo) (w : World) :
  (forall t, databaseFault chain t = None) ->
  (forall t, initializeContracts chain t = Ok tt) ->
  toChecksumAddress chain walletAddress = Ok address ->
  (forall t, getStakeInfoCall chain t address = Ok stakeInfo) ->
  (forall t tokenId, exists stakeTimestamp, stakes t tokenId = Ok stakeTimestamp) ->
  exists first w1 second w2,
    recoverOnchainStakedNFTs chain stakes walletAddress w = (Ret first, w1) /\
    recoverOnchainStakedNFTs chain stakes walletAddress w1 = (Ret second, w2) /\
    recovery_success second = true /\
    recovered second = 0%nat /\
    staked_nfts w2 = staked_nfts w1.
Proof.
  intros Db Init Sum Read Stakes.
  unfold recoverOnchainStakedNFTs.
  destruct (getStakeInfo_reads chain walletAddress address stakeInfo w Init Sum Read)
    as (w0 & E0 & _ & _ & _ & _ & L0).
  unfold bind at 1, tryCatch at 1. rewrite E0. cbn [stakedNFTs].
  destruct (length (map showZ (stakedTokensOf stakeInfo)) =? 0)%nat eqn:Empty.
  - destruct (getStakeInfo_reads chain walletAddress address stakeInfo w0 Init Sum Read)
      as (w1 & E1 & _ & _ & _ & _ & L1).
    eexists; exists w0; eexists; exists w1. split; [reflexivity|].
    unfold bind at 1, tryCatch at 1. rewrite E1. cbn [stakedNFTs]. rewrite Empty.
    repeat split. exact L1.
  - unfold bind at 1. unfold selectOnchainStakes at 1. rewrite Db.
    cbv zeta. unfold bind at 1.
    destruct (recoverEach_fills chain stakes walletAddress
                (map (fun stake => tokenIdOfNftId (nftRef stake))
                     (filter (isOnchainStakeOf walletAddress) (staked_nfts w0)))
                (map showZ (stakedTokensOf stakeInfo)) Db Stakes 0 (advance w0))
      as (m & w1 & added & E1 & L1 & Sel & All).
    rewrite E1. cbn [staked_nfts advance] in L1.
    destruct (getStakeInfo_reads chain walletAddress address stakeInfo w1 Init Sum Read)
      as (w2 & E2 & _ & _ & _ & _ & L2).
    eexists; exists w1; eexists; eexists. split; [reflexivity|].
    unfold bind at 1, tryCatch at 1. rewrite E2. cbn [stakedNFTs]. rewrite Empty.
    unfold bind at 1. unfold selectOnchainStakes at 1. rewrite Db.
    cbv zeta. unfold bind at 1.
    rewrite recoverEach_skips.
    + cbn. repeat split. exact L2.
    + rewrite L2, L1, filter_app, map_app.
      eapply Forall_impl; [|exact All]. intros tokenId [Known|New];
        apply existsb_exists; exists tokenId; (split; [|apply String.eqb_refl]);
        apply in_or_app.
      * left. apply existsb_exists in Known. destruct Known as (x & In0 & Eq).
        apply String.eqb_eq in Eq. now subst.
      * right. replace (filter (isOnchainStakeOf walletAddress) added) with added; [exact New|].
        clear -Sel. induction Sel as [|r rest Keep _ IH]; cbn; [reflexivity|].
        rewrite Keep. now rewrite <- IH.
Qed.

Lemma second_recovery_adds_nothing_witness :
  exists first w1 second w2,
    recoverOnchainStakedNFTs stakedChain (fun _ _ => Ok 1700000000%Z) userWallet ledgerWorld
      = (Ret first, w1) /\
    recoverOnchainStakedNFTs stakedChain (fun _ _ => Ok 1700000000%Z) userWallet w1
      = (Ret second, w2) /\
    recovery_success second = true /\
    recovered second = 0%nat /\
    staked_nfts w2 = staked_nfts w1.
Proof.
  apply (second_recovery_adds_nothing stakedChain (fun _ _ => Ok 1700000000%Z) userWallet
           userWallet (mkRawStakeInfo (Some [42%Z; 7%Z]) None None None) ledgerWorld);
    try reflexivity.
  intros t tokenId. now exists 1700000000%Z.
Defined.

(** *** A confirmed unstake whose ledger update fails *)


End StakingMoreFacts.
